(** * Halmos driver ([src/halmos/__main__.py]): a shallow embedding

    The driver of the symbolic test runner: source-map attachment
    ([add_srcmap]), the [setUp] harness ([setup]), calldata construction,
    the construction of the symbolic [Exec], the classification of the
    terminal states and the counterexample pipeline ([run], [gen_model],
    [is_valid_model]) and the exit code ([main]).

    The symbolic interpreter (module [sevm]) and the SMT solver are
    collaborators of the driver: they enter as variables of the sections
    below. *)

From stdpp Require Import base strings list gmap pretty sorting.
From Stdlib Require Import ZArith Lia.

Local Open Scope Z_scope.

(** ** Symbolic values *)

(** z3 bit-vector terms, as far as the driver builds them. *)
Inductive Word : Type :=
| BitVecVal (v : Z) (bits : Z)            (* numeral, value reduced mod 2^bits *)
| BitVec (name : string) (bits : Z)       (* symbolic constant *)
| BvExtract (hi lo : Z) (w : Word)        (* Extract(hi, lo, w) *)
| BvAdd (a b : Word)                      (* a + b *)
| App1 (f : string) (a : Word)            (* f(a), f uninterpreted *)
| App2 (f : string) (a b : Word).         (* f(a, b), f uninterpreted *)

Global Instance Word_eq_dec : EqDecision Word.
Proof. solve_decision. Defined.

(** z3 boolean terms the driver adds to a solver; [Assertion] stands for a
    constraint produced by the interpreter. *)
Inductive BoolRef : Type :=
| BvEq (a b : Word)
| ULE (a b : Word)
| ForAll (vars : list Word) (body : BoolRef)
| Assertion (sexpr : string).

(** [BitVecVal(v, bits)]: z3 keeps the numeral modulo [2^bits]. *)
Definition mkBitVecVal (v bits : Z) : Word := BitVecVal (v mod 2 ^ bits) bits.

(** [con(n)] of sevm: a concrete 256-bit word. *)
Definition con (n : Z) : Word := mkBitVecVal n 256.

Fixpoint word_bits (w : Word) : Z :=
  match w with
  | BitVecVal _ b => b
  | BitVec _ b => b
  | BvExtract hi lo _ => hi - lo + 1
  | BvAdd a _ => word_bits a
  | App1 f _ => if String.eqb f "cd" then 8 else 256
  | App2 _ _ _ => 256
  end.

(** z3 [simplify] on [Extract(hi, lo, w)]: a numeral is folded, an extract
    of the whole word is the word, anything else stays an extract. *)
Definition simplify_extract (hi lo : Z) (w : Word) : Word :=
  match w with
  | BitVecVal v _ => BitVecVal ((v / 2 ^ lo) mod 2 ^ (hi - lo + 1)) (hi - lo + 1)
  | _ => if (lo =? 0) && (hi + 1 =? word_bits w) then w else BvExtract hi lo w
  end.

(** ** Solver objects and models *)

Inductive CheckSatResult : Type := sat | unsat | unknown.

Global Instance CheckSatResult_eq_dec : EqDecision CheckSatResult.
Proof. solve_decision. Defined.

(** A declaration of a model: its printed name and its arity (0 for a
    symbolic constant). *)
Record FuncDeclRef : Type := { decl_name : string; decl_arity : nat }.

(** A z3 model: the declarations it interprets, each with its printed
    interpretation. *)
Definition ModelRef : Type := list (FuncDeclRef * string).

Inductive Context : Type := main_ctx | new_ctx (n : nat).

Global Instance Context_eq_dec : EqDecision Context.
Proof. solve_decision. Defined.

Record Solver : Type := {
  s_ctx : Context;
  s_logic : option string;      (* SolverFor(logic) / Solver() *)
  s_timeout : option Z;
  s_assertions : list BoolRef
}.

(** ** Python objects with identity

    Containers whose element types belong to the interpreter are kept as
    object trees; every list and dict carries the identity of the Python
    object, so that [copy] and [deepcopy] can be told apart. *)

Record SrcMap : Type := { sm_srctext : string; sm_jump : string; sm_mdepth : Z }.

Record Opcode : Type := {
  op : list string;            (* mnemonic, then the PUSH immediate if any *)
  sm : option SrcMap
}.

Inductive Key : Type := KWord (w : Word) | KInt (n : Z) | KStr (s : string).

Global Instance Key_eq_dec : EqDecision Key.
Proof. solve_decision. Defined.

Inductive Atom : Type :=
| AOpcode (o : Opcode) | AWord (w : Word) | AInt (z : Z) | AStr (s : string) | ANone.

#[local] Unset Elimination Schemes.
Inductive PyObj : Type :=
| PAtom (a : Atom)
| PList (id : nat) (items : list PyObj)
| PDict (id : nat) (items : list (Key * PyObj)).

#[local] Set Elimination Schemes.

Fixpoint assoc {V : Type} (k : Key) (kvs : list (Key * V)) : option V :=
  match kvs with
  | [] => None
  | (k', v) :: rest => if decide (k = k') then Some v else assoc k rest
  end.

(** [o[k]]: [None] stands for KeyError / IndexError / TypeError. *)
Definition subscript (o : PyObj) (k : Key) : option PyObj :=
  match o with
  | PDict _ kvs => assoc k kvs
  | PList _ xs =>
      match k with
      | KInt n => if 0 <=? n then xs !! Z.to_nat n
                  else if 0 <=? n + Z.of_nat (length xs)
                       then xs !! Z.to_nat (n + Z.of_nat (length xs)) else None
      | _ => None
      end
  | PAtom _ => None
  end.

(** ** Execution states *)

Record State : Type := { stack : list Word; memory : list (option Word) }.

(** [State()] *)
Definition State_new : State := {| stack := []; memory := [] |}.

Record Exec : Type := {
  pgm : PyObj;                      (* dict: address -> program *)
  code : PyObj;                     (* dict: address -> code bytes *)
  storage : PyObj;                  (* dict: address -> storage *)
  balance : list (Word * Word);     (* dict: address -> balance *)
  calldata : list (option Word);    (* list of bytes; None = not written *)
  callvalue : Word;
  caller : Word;
  this : Word;
  pc : Z;
  st : State;
  jumpis : gmap Z (gmap bool Z);
  output : option Word;
  symbolic : bool;
  solver : Solver;
  path : PyObj;
  log : PyObj;
  cnts : PyObj;
  sha3s : PyObj;
  storages : PyObj;
  calls : PyObj;
  failed : bool;
  error : string
}.

(** [ex.pgm[ex.this][ex.pc].op[0]] *)
Definition current_opcode (ex : Exec) : option string :=
  p ← subscript (pgm ex) (KWord (this ex));
  o ← subscript p (KInt (pc ex));
  match o with
  | PAtom (AOpcode oc) => op oc !! 0%nat
  | _ => None
  end.

(** ** Command line, options, output *)

Record Args : Type := {
  a_target : string;
  a_contract : option string;
  a_function : string;
  a_loop : Z;
  a_width : option Z;
  a_depth : option Z;
  array_lengths : option string;
  no_smt_add : bool;
  no_smt_sub : bool;
  no_smt_mul : bool;
  smt_div : bool;
  smt_div_by_const : bool;
  smt_mod_by_const : bool;
  smt_exp_by_const : Z;
  solver_timeout_branching : Z;
  solver_timeout_assertion : Z;
  solver_subprocess : bool;
  verbose : Z;
  debug : bool;
  a_log : option string;
  print_revert : bool
}.

(** The [options] dict that [main] hands to the interpreter. *)
Record Options : Type := {
  o_verbose : Z; o_debug : bool; o_log : option string;
  o_add : bool; o_sub : bool; o_mul : bool; o_div : bool;
  o_divByConst : bool; o_modByConst : bool; o_expByConst : Z;
  o_timeout : Z;
  o_max_width : option Z; o_max_depth : option Z; o_max_loop : option Z
}.

(** An entry of [models]: [(model, idx, ex)]. *)
Definition Entry : Type := (option ModelRef * nat * Exec)%type.

(** What the driver prints. Colours and the elapsed time are left out. *)
Inductive Line : Type :=
| LText (s : string)
| LResult (passed : bool) (funsig : string) (normal total : nat) (bounds : list string)
| LCounterexample (model : string)          (* 'Counterexample: ' + str_model(..) *)
| LCounterexampleUnknown                    (* 'Counterexample: unknown' *)
| LPathIndex (idx total : nat)              (* '# idx+1 / len(exs)' *)
| LExec (ex : Exec)                         (* print(ex) *)
| LNotSupported (opcode err : string)       (* 'Not supported: ' + opcode + ' ' + ex.error *)
| LRunning (n : nat) (contract : string)
| LSummary (num_passed num_failed : nat).

Inductive Event : Type :=
| EvPrint (l : Line)
| EvCheck (s : Solver)                      (* solver.check() *)
| EvWrite (fname content : string)          (* a file written *)
| EvSubprocess (argv : list string).        (* subprocess.run(argv) *)

(** The world the driver acts on: the effects so far (oldest first), the
    files written, and how many contexts, uuids and objects were made. *)
Record World : Type := {
  events : list Event;
  files : list (string * string);
  n_contexts : nat;
  n_uuids : nat;
  n_objects : nat      (* identities of Python objects handed out *)
}.

Definition World_init : World :=
  {| events := []; files := []; n_contexts := 0; n_uuids := 0; n_objects := 0 |}.

Inductive Exn : Type :=
| ValueError (msg : string) (arg : string)
| KeyError
| IndexError
| UnboundLocalError (var : string)
| NameError (var : string).

(** Driver computations: they act on the world and may raise. *)
Definition M (A : Type) : Type := World -> Exn + (A * World).

Global Instance M_ret : MRet M := fun A a w => inr (a, w).
Global Instance M_bind : MBind M := fun A B f m w =>
  match m w with
  | inl e => inl e
  | inr (a, w') => f a w'
  end.

Definition raise {A : Type} (e : Exn) : M A := fun _ => inl e.

Definition emit (e : Event) : M unit := fun w =>
  inr (tt, {| events := events w ++ [e]; files := files w;
              n_contexts := n_contexts w; n_uuids := n_uuids w; n_objects := n_objects w |}).

Definition print (l : Line) : M unit := emit (EvPrint l).

Definition when (b : bool) (m : M unit) : M unit := if b then m else mret tt.

(** [Context()] *)
Definition new_Context : M Context := fun w =>
  inr (new_ctx (n_contexts w),
       {| events := events w; files := files w;
          n_contexts := S (n_contexts w); n_uuids := n_uuids w; n_objects := n_objects w |}).

Definition write_file (fname content : string) : M unit := fun w =>
  inr (tt, {| events := events w ++ [EvWrite fname content];
              files := (fname, content) :: files w;
              n_contexts := n_contexts w; n_uuids := n_uuids w; n_objects := n_objects w |}).

Fixpoint file_content (fname : string) (fs : list (string * string)) : option string :=
  match fs with
  | [] => None
  | (f, c) :: rest => if String.eqb f fname then Some c else file_content fname rest
  end.

(** ** Strings *)

Definition nl : string := String (Ascii.ascii_of_nat 10) "".

(** [str.strip()] on ASCII text. *)
Definition is_space (c : Ascii.ascii) : bool :=
  let n := Ascii.nat_of_ascii c in
  (Nat.eqb n 32 || (Nat.leb 9 n && Nat.leb n 13) || (Nat.leb 28 n && Nat.leb n 31))%bool.

Fixpoint lstrip (s : string) : string :=
  match s with
  | String c r => if is_space c then lstrip r else s
  | EmptyString => s
  end.

Definition strip (s : string) : string := String.rev (lstrip (String.rev (lstrip s))).

(** Results of the pure parts of the driver. *)
Definition Res (A : Type) : Type := (Exn + A)%type.

Global Instance Res_ret : MRet Res := fun A a => inr a.
Global Instance Res_bind : MBind Res := fun A B f m =>
  match m with
  | inl e => inl e
  | inr a => f a
  end.

(** ** Collaborators

    The solver, the interpreter and the operating system, as the driver
    sees them. *)
Record Env : Type := {
  z3_check : Solver -> CheckSatResult;       (* solver.check() *)
  z3_model : Solver -> ModelRef;             (* solver.model(), after sat *)
  z3_sexpr : Solver -> string;               (* solver.sexpr() *)
  z3_to_smt2 : Solver -> string;             (* solver.to_smt2() *)
  z3_from_string : string -> list BoolRef;   (* what from_string loads *)
  z3_str_model : ModelRef -> string;         (* str(model) *)
  z3_cli : option string -> string;          (* stdout of `z3 file`, from the file's content *)
  read_source : string -> Z -> Z -> Res string;  (* repr of [length] chars at [start] of a source file *)
  sevm_decode : string -> list Opcode * list Word;   (* decode(hexcode) *)
  sevm_ops_to_pgm : list Opcode -> list (Key * PyObj);   (* the entries of ops_to_pgm(ops) *)
  uuid4_hex : nat -> string;                 (* the n-th uuid.uuid4().hex *)
  sevm_run : Options -> Exec -> list Exec * string   (* SEVM(options).run(ex) *)
}.

(** Modelled from the spec: the declarations [f_div] and [f_mod] of the
    interpreter (module sevm, not part of the driver), the uninterpreted
    functions for division and modulo, which the solver reports under the
    names [evm_div] and [evm_mod]. *)
Definition f_div : string := "evm_div".
Definition f_mod : string := "evm_mod".

(** ** Counterexample pipeline *)

Fixpoint is_valid_model (model : ModelRef) : bool :=
  match model with
  | [] => true
  | (decl, inter) :: rest =>
      if String.prefix "evm_" (decl_name decl) then false else is_valid_model rest
  end.

(** Reading the Python variable [model], which is unbound until a check
    answered sat. *)
Definition read_model (model : option ModelRef) : M ModelRef :=
  match model with
  | Some m => mret m
  | None => raise (UnboundLocalError "model")
  end.

Definition axiom_div : BoolRef :=
  let x := BitVec "x" 256 in
  let y := BitVec "y" 256 in
  ForAll [x; y] (ULE (App2 f_div x y) x).

Definition axiom_mod : BoolRef :=
  let x := BitVec "x" 256 in
  let y := BitVec "y" 256 in
  ForAll [x; y] (ULE (App2 f_mod x y) y).

Definition hex_digit (c : Ascii.ascii) : option Z :=
  let n := Z.of_nat (Ascii.nat_of_ascii c) in
  if (48 <=? n) && (n <=? 57) then Some (n - 48)
  else if (97 <=? n) && (n <=? 102) then Some (n - 87)
  else if (65 <=? n) && (n <=? 70) then Some (n - 55)
  else None.

Fixpoint int16_from (acc : Z) (s : string) : option Z :=
  match s with
  | EmptyString => Some acc
  | String c r => d ← hex_digit c; int16_from (16 * acc + d) r
  end.

(** [int(s, 16)] for a non-empty string of hexadecimal digits. *)
Definition int16 (s : string) : option Z :=
  if String.eqb s "" then None else int16_from 0 s.

(** Panic(1): bytes4(keccak256("Panic(uint256)")) + bytes32(1), that is
    [int('4e487b71' + '00..01', 16)]. *)
Definition panic1 : Z :=
  default 0
    (int16 ("4e487b71"
              +:+ "0000000000000000000000000000000000000000000000000000000000000001")).

(** [ex.output == n]: true for a numeral of that value; [None] and a
    symbolic term are not equal to an integer. (z3 casts the integer to
    the sort of the output; the widths are not compared here.) *)
Definition output_eq_int (o : option Word) (n : Z) : bool :=
  match o with
  | Some (BitVecVal v _) => v =? n
  | _ => false
  end.

Section Pipeline.
Variable env : Env.

Definition check (s : Solver) : M CheckSatResult :=
  _ ← emit (EvCheck s); mret (z3_check env s).

Definition uuid4 : M string := fun w =>
  inr (uuid4_hex env (n_uuids w),
       {| events := events w; files := files w;
          n_contexts := n_contexts w; n_uuids := S (n_uuids w); n_objects := n_objects w |}).

(** [subprocess.run(argv, capture_output=True, text=True).stdout] for
    [argv = ['z3', fname]] *)
Definition subprocess_run (argv : list string) : M string := fun w =>
  inr (z3_cli env (fname ← argv !! 1%nat; file_content fname (files w)),
       {| events := events w ++ [EvSubprocess argv]; files := files w;
          n_contexts := n_contexts w; n_uuids := n_uuids w; n_objects := n_objects w |}).

(** The second solver: the assertions reloaded in a fresh context under
    the assertion timeout. *)
Definition sol2_of (args : Args) (ex : Exec) (ctx : Context) : Solver :=
  {| s_ctx := ctx; s_logic := Some "QF_AUFBV";
     s_timeout := Some (solver_timeout_assertion args);
     s_assertions := z3_from_string env (z3_sexpr env (solver ex)) |}.

(** The third solver: reloaded again, with the two axioms. *)
Definition sol3_of (args : Args) (ex : Exec) (ctx : Context) : Solver :=
  {| s_ctx := ctx; s_logic := None;
     s_timeout := Some (solver_timeout_assertion args);
     s_assertions := z3_from_string env (z3_sexpr env (solver ex))
                       ++ [axiom_div; axiom_mod] |}.

(** The in-process part of [gen_model]: the solver of the state, the
    reload under the assertion timeout when it says unknown, and the
    reload with the axioms when the model is not valid. It leaves the
    Python variables [res] and [model]. *)
Definition solve_in_process (args : Args) (ex : Exec)
  : M (CheckSatResult * option ModelRef) :=
  res ← check (solver ex);
  let model := if decide (res = sat) then Some (z3_model env (solver ex)) else None in
  '(res, model) ←
    (if decide (res = unknown) then
       ctx ← new_Context;
       let sol2 := sol2_of args ex ctx in
       res ← check sol2;
       mret (res, if decide (res = sat) then Some (z3_model env sol2) else model)
     else mret (res, model));
  invalid ←
    (if decide (res = sat) then m ← read_model model; mret (negb (is_valid_model m))
     else mret false);
  if invalid : bool then
    ctx ← new_Context;
    let sol3 := sol3_of args ex ctx in
    res ← check sol3;
    mret (res, if decide (res = sat) then Some (z3_model env sol3) else model)
  else mret (res, model).

(** The subprocess part of [gen_model]: the new value of [res]. *)
Definition solve_subprocess (args : Args) (ex : Exec) (res : CheckSatResult)
  : M CheckSatResult :=
  if bool_decide (res = unknown) && solver_subprocess args then
    u ← uuid4;
    let fname := "/tmp/" +:+ u +:+ ".smt2" in
    _ ← when (4 <=? verbose args) (print (LText ("z3 -smt2 " +:+ fname)));
    _ ← write_file fname ("(set-logic QF_AUFBV)" +:+ nl +:+ z3_to_smt2 env (solver ex));
    out ← subprocess_run ["z3"; fname];
    let res_str := strip out in
    _ ← when (4 <=? verbose args) (print (LText res_str));
    mret (if String.eqb res_str "unsat" then unsat else res)
  else mret res.

(** The end of [gen_model]: what is appended to [models]. *)
Definition record_model (models : list Entry) (idx : nat) (ex : Exec)
    (res : CheckSatResult) (model : option ModelRef) : M (list Entry) :=
  if decide (res = unsat) then mret models
  else if decide (res = sat) then
    m ← read_model model;
    if is_valid_model m then mret (models ++ [(Some m, idx, ex)])
    else mret (models ++ [(None, idx, ex)])
  else mret (models ++ [(None, idx, ex)]).

Definition gen_model (args : Args) (models : list Entry) (idx : nat) (ex : Exec)
  : M (list Entry) :=
  '(res, model) ← solve_in_process args ex;
  res ← solve_subprocess args ex res;
  record_model models idx ex res model.

(** ** Reporting *)

Fixpoint insert_sorted (s : string) (l : list string) : list string :=
  match l with
  | [] => [s]
  | x :: r => if String.leb s x then s :: l else x :: insert_sorted s r
  end.

(** [sorted] on strings *)
Definition sorted (l : list string) : list string := foldr insert_sorted [] l.

Definition str_model (model : ModelRef) (args : Args) : string :=
  let select (var : FuncDeclRef * string) : bool :=
    let name := decl_name var.1 in
    if String.prefix "p_" name then true
    else if 1 <=? verbose args then
      if String.prefix "storage" name || String.prefix "msg_" name
         || String.prefix "this_" name then true else false
    else false in
  if debug args then z3_str_model env model
  else "[" +:+ String.concat ", "
         (sorted (map (fun d => decl_name d.1 +:+ " = " +:+ d.2) (filter select model)))
       +:+ "]".

(** ** Classification of the terminal states *)

Record Tally : Type := {
  normal : nat;
  models : list Entry;
  stuck : list (string * nat * Exec)
}.

Definition Tally_init : Tally := {| normal := 0; models := []; stuck := [] |}.

(** One iteration of the loop over [enumerate(exs)]. *)
Definition classify (args : Args) (t : Tally) (idx : nat) (ex : Exec) : M Tally :=
  match current_opcode ex with
  | None => raise KeyError
  | Some opcode =>
      if String.eqb opcode "STOP" || String.eqb opcode "RETURN" then
        if failed ex then
          ms ← gen_model args (models t) idx ex;
          mret {| normal := normal t; models := ms; stuck := stuck t |}
        else mret {| normal := S (normal t); models := models t; stuck := stuck t |}
      else if String.eqb opcode "REVERT" then
        if output_eq_int (output ex) panic1 then
          ms ← gen_model args (models t) idx ex;
          mret {| normal := normal t; models := ms; stuck := stuck t |}
        else mret t
      else mret {| normal := normal t; models := models t;
                   stuck := stuck t ++ [(opcode, idx, ex)] |}
  end.

Fixpoint classify_all (args : Args) (t : Tally) (idx : nat) (exs : list Exec) : M Tally :=
  match exs with
  | [] => mret t
  | ex :: rest => t' ← classify args t idx ex; classify_all args t' (S idx) rest
  end.

Definition passed_of (t : Tally) : bool :=
  Nat.ltb 0 (normal t) && Nat.eqb (length (models t)) 0 && Nat.eqb (length (stuck t)) 0.
End Pipeline.

(** ** Calldata *)

Fixpoint foldlM {A B : Type} (f : A -> B -> Res A) (a : A) (l : list B) : Res A :=
  match l with
  | [] => mret a
  | x :: r => a' ← f a x; foldlM f a' r
  end.

(** Byte [i] (counted from the most significant one) of a [size]-byte word:
    [simplify(Extract((size-1 - i)*8+7, (size-1 - i)*8, val))]. *)
Definition byte_of (size : nat) (val : Word) (i : nat) : Word :=
  simplify_extract (Z.of_nat (size - 1 - i) * 8 + 7) (Z.of_nat (size - 1 - i) * 8) val.

Definition store_bytes (mem : list (option Word)) (loc size : nat) (val : Word)
  : list (option Word) :=
  foldl (fun m i => <[(loc + i)%nat := Some (byte_of size val i)]> m) mem (seq 0 size).

(** Modelled from the spec: [wstore(mem, loc, size, val)] of the interpreter
    (module sevm), which writes the [size] bytes of [val] in big-endian
    order over the range starting at [loc]. The spec fixes calldata at
    10,000 bytes and says nothing about a write that runs past the end:
    here such a write raises. *)
Definition wstore (mem : list (option Word)) (loc size : nat) (val : Word)
  : Res (list (option Word)) :=
  if decide (loc + size <= length mem)%nat then inr (store_bytes mem loc size val)
  else inl IndexError.

Record Param : Type := { param_name : string; param_type : string }.

Record AbiItem : Type := {
  item_type : string;
  item_name : string;
  inputs : list Param
}.

Definition is_digit (c : Ascii.ascii) : bool :=
  let n := Ascii.nat_of_ascii c in (Nat.leb 48 n && Nat.leb n 57)%bool.

(** The longest prefix of digits and what follows it. *)
Fixpoint span_digits (s : string) : string * string :=
  match s with
  | String c r =>
      if is_digit c then let '(d, r') := span_digits r in (String c d, r') else ("", s)
  | EmptyString => ("", "")
  end.

Fixpoint drop_string (n : nat) (s : string) : string :=
  match n, s with
  | O, _ => s
  | S n', String _ r => drop_string n' r
  | S _, EmptyString => ""
  end.

(** [(u?int[0-9]*|address|bool|bytes[0-9]+)] matched at the start of [s]:
    the text of group 1 and the rest of the string. *)
Definition match_base (s : string) : option (string * string) :=
  if String.prefix "uint" s then
    let '(d, r) := span_digits (drop_string 4 s) in Some ("uint" +:+ d, r)
  else if String.prefix "int" s then
    let '(d, r) := span_digits (drop_string 3 s) in Some ("int" +:+ d, r)
  else if String.prefix "address" s then Some ("address", drop_string 7 s)
  else if String.prefix "bool" s then Some ("bool", drop_string 4 s)
  else if String.prefix "bytes" s then
    let '(d, r) := span_digits (drop_string 5 s) in
    if String.eqb d "" then None else Some ("bytes" +:+ d, r)
  else None.

(** [(\[([0-9]+)\])?] matched where group 1 ended: the text of group 3. *)
Definition match_dim (s : string) : option string :=
  if String.prefix "[" s then
    let '(d, r) := span_digits (drop_string 1 s) in
    if String.eqb d "" then None
    else if String.prefix "]" r then Some d else None
  else None.

(** [re.search(r'(u?int[0-9]*|address|bool|bytes[0-9]+)(\[([0-9]+)\])?', s)]:
    groups 1 and 3 of the leftmost match. *)
Fixpoint re_search (s : string) : option (string * option string) :=
  match match_base s with
  | Some (typ, rest) => Some (typ, match_dim rest)
  | None =>
      match s with
      | String _ r => re_search r
      | EmptyString => None
      end
  end.

(** [int(s)] for a string of decimal digits. *)
Fixpoint int_of_digits_from (acc : nat) (s : string) : nat :=
  match s with
  | String c r => int_of_digits_from (10 * acc + (Ascii.nat_of_ascii c - 48))%nat r
  | EmptyString => acc
  end.

Definition int_of_digits (s : string) : nat := int_of_digits_from 0 s.

Definition endswith (s suffix : string) : bool :=
  String.prefix (String.rev suffix) (String.rev s).

Record Layout : Type := {
  cd : list (option Word);
  tba : list (nat * Param);
  offset : nat
}.

Definition cdsize : nat := Z.to_nat 10000.

(** [f_cd(con(i))] for [i] in [range(cdsize)] *)
Definition cd_init : list (option Word) :=
  map (fun i => Some (App1 "cd" (con (Z.of_nat i)))) (seq 0 cdsize).

(** One element of a fixed-size array parameter. *)
Definition head_elem (name typ : string) (l : Layout) (idx : nat) : Res Layout :=
  cd' ← wstore (cd l) (4 + offset l) 32
          (BitVec ("p_" +:+ name +:+ "[" +:+ pretty idx +:+ "]_" +:+ typ) 256);
  mret {| cd := cd'; tba := tba l; offset := (offset l + 32)%nat |}.

(** The body of the loop over [item['inputs']]. *)
Definition head_param (l : Layout) (param : Param) : Res Layout :=
  let name := param_name param in
  let type := param_type param in
  if String.eqb type "tuple" then inl (ValueError "Not supported" type)
  else if String.eqb type "bytes" || String.eqb type "string" then
    mret {| cd := cd l; tba := tba l ++ [((4 + offset l)%nat, param)];
            offset := (offset l + 32)%nat |}
  else if endswith type "[]" then
    inl (ValueError "Not supported variable sized arrays" type)
  else
    match re_search type with
    | None => inl (ValueError "Unknown type" type)
    | Some (typ, Some dim) =>
        foldlM (head_elem name typ) l (seq 0 (int_of_digits dim))
    | Some (typ, None) =>
        cd' ← wstore (cd l) (4 + offset l) 32 (BitVec ("p_" +:+ name +:+ "_" +:+ typ) 256);
        mret {| cd := cd'; tba := tba l; offset := (offset l + 32)%nat |}
    end.

(** What the second loop carries besides the layout: [dyn_param_size] and
    the warnings printed in debug mode. *)
Record Tail : Type := {
  t_cd : list (option Word);
  t_offset : nat;
  dyn_param_size : list string;
  warnings : list string
}.

(** [int((size + 31) / 32) * 32]: the division is the float one and [int]
    truncates towards zero. *)
Definition size_pad_right_of (size : Z) : Z := Z.quot (size + 31) 32 * 32.

(** The body of the loop over [tba]. *)
Definition tail_param (args : Args) (arrlen : gmap string Z) (t : Tail)
    (loc_param : nat * Param) : Res Tail :=
  let loc := loc_param.1 in
  let param := loc_param.2 in
  let name := param_name param in
  let type := param_type param in
  let '(size, warn) :=
    match arrlen !! name with
    | None =>
        (a_loop args,
         if debug args
         then ["warn: size of " +:+ name +:+ " not given, using default value "
                 +:+ pretty (a_loop args)]
         else [])
    | Some n => (n, [])
    end in
  let dyn := dyn_param_size t ++ ["|" +:+ name +:+ "|=" +:+ pretty size] in
  if String.eqb type "bytes" || String.eqb type "string" then
    cd1 ← wstore (t_cd t) loc 32 (mkBitVecVal (Z.of_nat (t_offset t)) 256);
    let size_pad_right := size_pad_right_of size in
    cd2 ← wstore cd1 (4 + t_offset t) 32 (mkBitVecVal size 256);
    let offset1 := (t_offset t + 32)%nat in
    if 0 <? size_pad_right then
      cd3 ← wstore cd2 (4 + offset1) (Z.to_nat size_pad_right)
              (BitVec ("p_" +:+ name +:+ "_" +:+ type) (8 * size_pad_right));
      mret {| t_cd := cd3; t_offset := (offset1 + Z.to_nat size_pad_right)%nat;
              dyn_param_size := dyn; warnings := warnings t ++ warn |}
    else
      mret {| t_cd := cd2; t_offset := offset1;
              dyn_param_size := dyn; warnings := warnings t ++ warn |}
  else inl (ValueError "not feasible" "").

(** [item['type'] == 'function' and item['name'] == funname] *)
Definition matches (funname : string) (item : AbiItem) : bool :=
  String.eqb (item_type item) "function" && String.eqb (item_name item) funname.

(** The body of the loop over [abi]; [t_offset] is reset for every item
    that matches. *)
Definition abi_item (args : Args) (arrlen : gmap string Z) (funname : string)
    (t : Tail) (item : AbiItem) : Res Tail :=
  if matches funname item then
    l ← foldlM head_param {| cd := t_cd t; tba := []; offset := 0 |} (inputs item);
    foldlM (tail_param args arrlen)
      {| t_cd := cd l; t_offset := offset l;
         dyn_param_size := dyn_param_size t; warnings := warnings t |}
      (tba l)
  else mret t.

(** The calldata part of [run]. *)
Definition mk_calldata (args : Args) (arrlen : gmap string Z) (abi : list AbiItem)
    (funname : string) (funselector : Z) : Res Tail :=
  cd0 ← wstore cd_init 0 4 (mkBitVecVal funselector 32);
  foldlM (abi_item args arrlen funname)
    {| t_cd := cd0; t_offset := 0; dyn_param_size := []; warnings := [] |} abi.

(** ** Source maps *)

(** [s.split(sep)] for a one-character separator. *)
Fixpoint split_on (sep : Ascii.ascii) (s : string) : list string :=
  match s with
  | EmptyString => [""]
  | String c r =>
      if Ascii.eqb c sep then "" :: split_on sep r
      else match split_on sep r with
           | h :: t => String c h :: t
           | [] => [String c ""]
           end
  end.

Definition colon : Ascii.ascii := Ascii.ascii_of_nat 58.
Definition comma : Ascii.ascii := Ascii.ascii_of_nat 44.
Definition equals_sign : Ascii.ascii := Ascii.ascii_of_nat 61.

Definition all_digits (s : string) : bool :=
  let '(d, r) := span_digits s in negb (String.eqb d "") && String.eqb r "".

(** [int(s)]: blanks around an optional sign and decimal digits. (Python
    also takes underscores between digits; they are not read here.) *)
Definition py_int (s : string) : Res Z :=
  let t := strip s in
  let '(neg, body) :=
    if String.prefix "-" t then (true, drop_string 1 t)
    else if String.prefix "+" t then (false, drop_string 1 t)
    else (false, t) in
  if all_digits body then
    let n := Z.of_nat (int_of_digits body) in inr (if neg : bool then - n else n)
  else inl (ValueError "invalid literal for int() with base 10" s).

(** The local variables of [add_srcmap]; [srcidx] is unbound until an entry
    sets it (the initial [fileid] is never read). *)
Record SrcVars : Type := {
  v_start : Z;
  v_length : Z;
  v_fileid : Z;
  v_srcidx : option Z;
  v_jump : string;
  v_mdepth : Z
}.

Definition SrcVars_init : SrcVars :=
  {| v_start := 0; v_length := 0; v_fileid := 0; v_srcidx := None;
     v_jump := "-"; v_mdepth := 0 |}.

(** [fpath]: file id -> file path, from [srcs] in iteration order. *)
Definition fpath_of (srcs : list (string * Z)) : gmap Z string :=
  foldl (fun fpath src => <[src.2 := src.1]> fpath) ∅ srcs.

(** [arr = sm.split(':') + ['']*5] and [arr[i]] for [i] below 5. *)
Definition srcmap_fields (sm_ : string) : list string :=
  split_on colon sm_ ++ replicate 5 "".

Definition srcmap_field (sm_ : string) (i : nat) : string :=
  default "" (srcmap_fields sm_ !! i).

(** A field that [int] reads, or an empty one. *)
Definition int_field_ok (s : string) : Prop := s = "" \/ exists z, py_int s = inr z.

(** An entry whose start, length, file id and modifier depth are decimal
    integers where they are given. *)
Definition entry_ok (sm_ : string) : Prop :=
  int_field_ok (srcmap_field sm_ 0) /\ int_field_ok (srcmap_field sm_ 1)
  /\ int_field_ok (srcmap_field sm_ 2) /\ int_field_ok (srcmap_field sm_ 4).

(** The source map of the instruction before [idx], or the initial values
    of the locals for the first one. *)
Definition previous_sm (ops : list Opcode) (idx : nat) : option SrcMap :=
  match idx with
  | O => Some {| sm_srctext := ""; sm_jump := "-"; sm_mdepth := 0 |}
  | S i => o ← ops !! i; sm o
  end.

(** [int(field) if field != '' else prev] *)
Definition int_or (field : string) (prev : Z) : Res Z :=
  if negb (String.eqb field "") then py_int field else inr prev.

Section Driver.
Variable env : Env.

(** The body of the loop of [add_srcmap]: the new locals and the opcodes
    with [ops[idx].sm] set. *)
Definition srcmap_step (target : string) (fpath : gmap Z string)
    (acc : SrcVars * list Opcode) (idx_sm : nat * string) : Res (SrcVars * list Opcode) :=
  let '(v, ops) := acc in
  let '(idx, sm_) := idx_sm in
  let field i := srcmap_field sm_ i in
  start ← int_or (field 0%nat) (v_start v);
  length ← int_or (field 1%nat) (v_length v);
  srcidx ← (if negb (String.eqb (field 2%nat) "") then py_int (field 2%nat)
            else match v_srcidx v with
                 | Some i => inr i
                 | None => inl (UnboundLocalError "srcidx")
                 end);
  let jump := if negb (String.eqb (field 3%nat) "") then field 3%nat else v_jump v in
  mdepth ← int_or (field 4%nat) (v_mdepth v);
  srctext ← match fpath !! srcidx with
            | Some path => read_source env (target +:+ "/" +:+ path) start length
            | None => inr "<generated>"
            end;
  match ops !! idx with
  | None => inl IndexError
  | Some o =>
      inr ({| v_start := start; v_length := length; v_fileid := v_fileid v;
              v_srcidx := Some srcidx; v_jump := jump; v_mdepth := mdepth |},
           <[idx := {| op := op o;
                       sm := Some {| sm_srctext := srctext; sm_jump := jump;
                                     sm_mdepth := mdepth |} |}]> ops)
  end.

(** [add_srcmap(ops, srcmap, srcs)]; the opcodes are updated in place, so
    the result is the list as it stands afterwards. [target] is
    [args.target]. *)
Definition add_srcmap (target : string) (ops : list Opcode) (srcmap : list string)
    (srcs : list (string * Z)) : Res (list Opcode) :=
  r ← foldlM (srcmap_step target (fpath_of srcs)) (SrcVars_init, ops)
        (zip (seq 0 (length srcmap)) srcmap);
  mret r.2.

(** ** Copies *)

(** [d.copy()]: a new container with the same items. *)
Definition copy (o : PyObj) (next : nat) : PyObj * nat :=
  match o with
  | PDict _ kvs => (PDict next kvs, S next)
  | PList _ xs => (PList next xs, S next)
  | PAtom _ => (o, next)
  end.

(** [deepcopy(o)]: every container below [o] is made anew. (Sharing
    inside [o], which deepcopy's memo would keep, is not tracked.) *)
Fixpoint deepcopy (o : PyObj) (next : nat) : PyObj * nat :=
  match o with
  | PAtom _ => (o, next)
  | PList _ xs =>
      let '(xs', n') :=
        (fix go (l : list PyObj) (n : nat) : list PyObj * nat :=
           match l with
           | [] => ([], n)
           | x :: r =>
               let '(x', n1) := deepcopy x n in
               let '(r', n2) := go r n1 in (x' :: r', n2)
           end) xs (S next) in
      (PList next xs', n')
  | PDict _ kvs =>
      let '(kvs', n') :=
        (fix go (l : list (Key * PyObj)) (n : nat) : list (Key * PyObj) * nat :=
           match l with
           | [] => ([], n)
           | (k, x) :: r =>
               let '(x', n1) := deepcopy x n in
               let '(r', n2) := go r n1 in ((k, x') :: r', n2)
           end) kvs (S next) in
      (PDict next kvs', n')
  end.

(** Running an allocating function in the world. *)
Definition alloc {A : Type} (f : nat -> A * nat) : M A := fun w =>
  let '(a, n) := f (n_objects w) in
  inr (a, {| events := events w; files := files w; n_contexts := n_contexts w;
             n_uuids := n_uuids w; n_objects := n |}).

(** A dict or list display: a new object with these items. *)
Definition new_dict (kvs : list (Key * PyObj)) : M PyObj :=
  alloc (fun n => (PDict n kvs, S n)).
Definition new_list (xs : list PyObj) : M PyObj :=
  alloc (fun n => (PList n xs, S n)).

Definition lift {A : Type} (r : Res A) : M A := fun w =>
  match r with
  | inl e => inl e
  | inr a => inr (a, w)
  end.

Fixpoint for_each {A : Type} (f : A -> M unit) (l : list A) : M unit :=
  match l with
  | [] => mret tt
  | x :: r => _ ← f x; for_each f r
  end.

(** Modelled from the spec: the uninterpreted function for addition of
    the interpreter (module sevm). *)
Definition f_add : string := "evm_add".

(** Modelled from the spec: [SEVM(options).arith('ADD', w1, w2)] of the
    interpreter (module sevm): two numerals are folded modulo [2^256],
    otherwise the term is the solver's addition when [add] is native and
    an application of the uninterpreted function otherwise. *)
Definition arith_ADD (options : Options) (w1 w2 : Word) : Word :=
  match w1, w2 with
  | BitVecVal a _, BitVecVal b _ => con (a + b)
  | _, _ => if o_add options then BvAdd w1 w2 else App2 f_add w1 w2
  end.

(** Modelled from the spec: [SEVM(options).mk_exec(...)] of the
    interpreter (module sevm): the fields it is given, and every other
    field of [Exec] in its initial state. *)
Definition mk_exec (pgm_ code_ storage_ : PyObj) (balance_ : list (Word * Word))
    (calldata_ : list (option Word)) (callvalue_ caller_ this_ : Word) (symbolic_ : bool)
    (solver_ : Solver) : M Exec :=
  path_ ← new_list [];
  log_ ← new_list [];
  cnts_ ← new_dict [];
  sha3s_ ← new_list [];
  storages_ ← new_list [];
  calls_ ← new_list [];
  mret {| pgm := pgm_; code := code_; storage := storage_; balance := balance_;
          calldata := calldata_; callvalue := callvalue_; caller := caller_;
          this := this_; pc := 0; st := State_new; jumpis := ∅; output := None;
          symbolic := symbolic_; solver := solver_; path := path_; log := log_;
          cnts := cnts_; sha3s := sha3s_; storages := storages_; calls := calls_;
          failed := false; error := "" |}.

(** ** setup *)

(** [if setup_sig:] for a selector as the compilation gives it, an
    integer or [None]. *)
Definition truthy_sig (setup_sig : option Z) : bool :=
  match setup_sig with
  | Some v => negb (v =? 0)
  | None => false
  end.

Definition with_calldata (ex : Exec) (cd_ : list (option Word)) : Exec :=
  {| pgm := pgm ex; code := code ex; storage := storage ex; balance := balance ex;
     calldata := cd_; callvalue := callvalue ex; caller := caller ex;
     this := this ex; pc := pc ex; st := st ex; jumpis := jumpis ex;
     output := output ex; symbolic := symbolic ex; solver := solver ex;
     path := path ex; log := log ex; cnts := cnts ex; sha3s := sha3s ex;
     storages := storages ex; calls := calls ex; failed := failed ex;
     error := error ex |}.

(** The part of [setup] that runs [setUp()]. *)
Definition run_setUp (args : Args) (setup_sig : option Z) (options : Options)
    (setup_ex : Exec) : M Exec :=
  if truthy_sig setup_sig then
    cd_ ← lift (wstore (calldata setup_ex) 0 4 (mkBitVecVal (default 0 setup_sig) 32));
    let setup_ex := with_calldata setup_ex cd_ in
    let '(setup_exs, setup_steps) := sevm_run env options setup_ex in
    if negb (Nat.eqb (length setup_exs) 1) then
      _ ← when (debug args) (for_each (fun ex => print (LExec ex)) setup_exs);
      raise (ValueError "multiple paths exist in setUp()" "")
    else
      match setup_exs !! 0%nat with
      | None => raise IndexError
      | Some setup_ex =>
          match current_opcode setup_ex with
          | None => raise KeyError
          | Some setup_opcode =>
              if (negb (String.eqb setup_opcode "STOP")
                  && negb (String.eqb setup_opcode "RETURN")) || failed setup_ex
              then raise (ValueError "setUp() failed" "")
              else
                _ ← when (2 <=? verbose args) (print (LExec setup_ex));
                mret setup_ex
          end
      end
  else mret setup_ex.

Definition setup (hexcode : string) (abi : list AbiItem) (srcmap : list string)
    (srcs : list (string * Z)) (args : Args) (setup_sig : option Z) (options : Options)
  : M Exec :=
  (* bytecode *)
  let '(ops, code_) := sevm_decode env hexcode in
  (* the program holds the opcode objects that add_srcmap updates *)
  ops ← lift (add_srcmap (a_target args) ops srcmap srcs);
  let pgm_ := sevm_ops_to_pgm env ops in
  (* solver *)
  let caller_ := BitVec "msg_sender" 256 in
  let this_ := BitVec "this_address" 256 in
  let solver_ :=
    {| s_ctx := main_ctx; s_logic := Some "QF_AUFBV";
       s_timeout := Some (solver_timeout_branching args);
       s_assertions := [BvEq (BvExtract 255 160 caller_) (mkBitVecVal 0 96);
                        BvEq (BvExtract 255 160 this_) (mkBitVecVal 0 96)] |} in
  (* storage *)
  storage_ ← new_dict [];
  pgm_obj ← new_dict pgm_;
  code_obj ← new_list (map (fun b => PAtom (AWord b)) code_);
  pgm_d ← new_dict [(KWord this_, pgm_obj)];
  code_d ← new_dict [(KWord this_, code_obj)];
  storage_d ← new_dict [(KWord this_, storage_)];
  setup_ex ← mk_exec pgm_d code_d storage_d [(this_, con 0)] (replicate 4 None)
               (con 0) caller_ this_ false solver_;
  run_setUp args setup_sig options setup_ex.

(** ** run *)

(** The [Exec] that [run] hands to the interpreter. *)
Definition mk_test_exec (args : Args) (options : Options) (setup_ex : Exec)
    (cd_ : list (option Word)) : M Exec :=
  let callvalue_ := BitVec "msg_value" 256 in
  let balance_ := BitVec "this_balance" 256 in
  let solver_ :=
    {| s_ctx := main_ctx; s_logic := Some "QF_AUFBV";
       s_timeout := Some (solver_timeout_branching args);
       s_assertions := s_assertions (solver setup_ex) |} in
  pgm_ ← alloc (copy (pgm setup_ex));            (* shallow copy *)
  code_ ← alloc (copy (code setup_ex));          (* shallow copy *)
  storage_ ← alloc (deepcopy (storage setup_ex));
  path_ ← alloc (deepcopy (path setup_ex));
  log_ ← alloc (deepcopy (log setup_ex));
  cnts_ ← alloc (deepcopy (cnts setup_ex));
  sha3s_ ← alloc (deepcopy (sha3s setup_ex));
  storages_ ← alloc (deepcopy (storages setup_ex));
  calls_ ← alloc (deepcopy (calls setup_ex));
  mret {| pgm := pgm_; code := code_; storage := storage_;
          balance := [(this setup_ex, arith_ADD options balance_ callvalue_)];
          calldata := cd_; callvalue := callvalue_; caller := caller setup_ex;
          this := this setup_ex; pc := 0; st := State_new; jumpis := ∅;
          output := None; symbolic := true; solver := solver_; path := path_;
          log := log_; cnts := cnts_; sha3s := sha3s_; storages := storages_;
          calls := calls_; failed := failed setup_ex; error := error setup_ex |}.

(** [if model:] a z3 model with no declaration is falsy, as [None] is. *)
Definition truthy_model (model : option ModelRef) : bool :=
  match model with
  | Some (_ :: _) => true
  | _ => false
  end.

Definition print_path (args : Args) (total : nat) (idx : nat) (ex : Exec) : M unit :=
  when (1 <=? verbose args)
    (_ ← print (LPathIndex (idx + 1) total); print (LExec ex)).

Definition print_model (args : Args) (total : nat) (e : Entry) : M unit :=
  let '(model, idx, ex) := e in
  _ ← (if truthy_model model
       then print (LCounterexample (str_model env (default [] model) args))
       else print LCounterexampleUnknown);
  print_path args total idx ex.

Definition print_stuck (args : Args) (total : nat) (e : string * nat * Exec) : M unit :=
  let '(opcode, idx, ex) := e in
  _ ← print (LNotSupported opcode (error ex));
  print_path args total idx ex.

Definition print_post_state (args : Args) (total : nat) (idx_ex : nat * Exec) : M unit :=
  let '(idx, ex) := idx_ex in
  shown ← (if print_revert args then mret true
           else match current_opcode ex with
                | None => raise KeyError
                | Some opcode => mret (negb (String.eqb opcode "REVERT") && negb (failed ex))
                end);
  when shown (_ ← print (LPathIndex (idx + 1) total); print (LExec ex)).

Definition run (setup_ex : Exec) (abi : list AbiItem) (funname funsig : string)
    (funselector : Z) (arrlen : gmap string Z) (args : Args) (options : Options) : M Z :=
  (* calldata *)
  t ← lift (mk_calldata args arrlen abi funname funselector);
  _ ← for_each (fun s => print (LText s)) (warnings t);
  (* callvalue, balance, run *)
  ex ← mk_test_exec args options setup_ex (t_cd t);
  let '(exs, steps) := sevm_run env options ex in
  (* check assertion violations *)
  tally ← classify_all env args Tally_init 0 exs;
  let passed := passed_of tally in
  (* print result *)
  _ ← print (LResult passed funsig (normal tally) (length exs) (dyn_param_size t));
  _ ← for_each (print_model args (length exs)) (models tally);
  _ ← for_each (print_stuck args (length exs)) (stuck tally);
  (* print post-states *)
  _ ← when (2 <=? verbose args)
        (for_each (print_post_state args (length exs)) (zip (seq 0 (length exs)) exs));
  (* log steps *)
  _ ← match a_log args with
      | Some f => if String.eqb f "" then mret tt else write_file f steps
      | None => mret tt
      end;
  (* exitcode *)
  mret (if passed then 0 else 1).

(** ** main *)

Definition options_of (args : Args) : Options :=
  {| o_verbose := verbose args; o_debug := debug args; o_log := a_log args;
     o_add := negb (no_smt_add args); o_sub := negb (no_smt_sub args);
     o_mul := negb (no_smt_mul args); o_div := smt_div args;
     o_divByConst := smt_div_by_const args; o_modByConst := smt_mod_by_const args;
     o_expByConst := smt_exp_by_const args;
     o_timeout := solver_timeout_branching args;
     o_max_width := a_width args; o_max_depth := a_depth args;
     o_max_loop := Some (a_loop args) |}.

(** One assignment [name=size] of [--array-lengths]. *)
Definition arrlen_assign (arrlen : gmap string Z) (x : string) : Res (gmap string Z) :=
  let assign := split_on equals_sign x in
  match assign !! 0%nat, assign !! 1%nat with
  | Some name, Some size =>
      n ← py_int (strip size);
      mret (<[strip name := n]> arrlen)
  | _, _ => inl IndexError
  end.

Definition arrlen_of (args : Args) : Res (gmap string Z) :=
  match array_lengths args with
  | Some s => if String.eqb s "" then inr ∅
              else foldlM arrlen_assign ∅ (split_on comma s)
  | None => inr ∅
  end.

(** A contract of the compilation, with what [main] reads of it. *)
Record Contract : Type := {
  c_filename : string;
  c_name : string;
  c_hexcode : string;
  c_srcmap : list string;
  c_abi : list AbiItem;
  methodIdentifiers : list (string * Z)     (* signature -> selector *)
}.

Fixpoint lookup_sig (funsig : string) (ids : list (string * Z)) : option Z :=
  match ids with
  | [] => None
  | (s, v) :: rest => if String.eqb s funsig then Some v else lookup_sig funsig rest
  end.

Fixpoint foldM {A B : Type} (f : A -> B -> M A) (a : A) (l : list B) : M A :=
  match l with
  | [] => mret a
  | x :: r => a' ← f a x; foldM f a' r
  end.

Definition paren : Ascii.ascii := Ascii.ascii_of_nat 40.

(** The body of the loop over [funsigs]: the counts [(num_passed,
    num_failed)] after one more test. *)
Definition run_funsig (args : Args) (options : Options) (arrlen : gmap string Z)
    (c : Contract) (setup_ex : Exec) (counts : nat * nat) (funsig : string)
  : M (nat * nat) :=
  match lookup_sig funsig (methodIdentifiers c) with
  | None => raise KeyError
  | Some funselector =>
      let funname := default "" (split_on paren funsig !! 0%nat) in
      exitcode ← run setup_ex (c_abi c) funname funsig funselector arrlen args options;
      mret (if exitcode =? 0 then (S counts.1, counts.2) else (counts.1, S counts.2))
  end.

(** The body of the loop over the contracts: the totals afterwards. *)
Definition run_contract (args : Args) (options : Options) (arrlen : gmap string Z)
    (totals : nat * nat) (c : Contract) : M (nat * nat) :=
  let funsigs := filter (fun s => String.prefix (a_function args) s = true)
                        (map fst (methodIdentifiers c)) in
  let setup_sig := lookup_sig "setUp()" (methodIdentifiers c) in
  match funsigs with
  | [] => mret totals
  | _ :: _ =>
      _ ← print (LRunning (length funsigs) (c_filename c +:+ ":" +:+ c_name c));
      setup_ex ← setup (c_hexcode c) (c_abi c) (c_srcmap c) [] args setup_sig options;
      nums ← foldM (run_funsig args options arrlen c setup_ex) (0, 0)%nat funsigs;
      _ ← print (LSummary nums.1 nums.2);
      mret ((totals.1 + nums.1)%nat, (totals.2 + nums.2)%nat)
  end.

(** [main()], from the parsed arguments and the contracts of the
    compilation in the order [main] visits them. *)
Definition main (args : Args) (contracts : list Contract) : M Z :=
  let options := options_of args in
  arrlen ← lift (arrlen_of args);
  totals ← foldM (run_contract args options arrlen) (0, 0)%nat contracts;
  if Nat.eqb (totals.1 + totals.2) 0 then
    raise (ValueError "No matching tests found" (a_function args))
  else mret (if Nat.eqb totals.2 0 then 0 else 1).

(** [sys.exit(main())]: the status of the process; an exception that
    nobody catches ends it with status 1. *)
Definition exit_status (r : Exn + Z * World) : Z :=
  match r with
  | inl _ => 1
  | inr (code, _) => code
  end.
End Driver.

(** ** Reading calldata *)

(** [cd] holds the [size] bytes of [val], most significant first, from
    [loc] on. *)
Definition holds (cd_ : list (option Word)) (loc size : nat) (val : Word) : Prop :=
  forall k, (k < size)%nat -> cd_ !! (loc + k)%nat = Some (Some (byte_of size val k)).

(** A [bytes] or [string] parameter. *)
Definition is_dynamic (p : Param) : bool :=
  String.eqb (param_type p) "bytes" || String.eqb (param_type p) "string".

(** The bytes a parameter takes in the head: one slot, or one slot per
    element of a fixed-size array. *)
Definition head_size (p : Param) : nat :=
  if is_dynamic p then 32%nat
  else match re_search (param_type p) with
       | Some (_, Some dim) => (32 * int_of_digits dim)%nat
       | _ => 32%nat
       end.

(** Where the head of the parameter after [ps] starts, counted from the
    end of the selector. *)
Definition head_offset (ps : list Param) : nat := sum_list_with head_size ps.

(** The length given for a [bytes] or [string] parameter: [arrlen[name]],
    or the loop bound. *)
Definition size_of (args : Args) (arrlen : gmap string Z) (p : Param) : Z :=
  default (a_loop args) (arrlen !! param_name p).

(** The bytes a dynamic parameter takes in the tail: the length word and
    the padded data. *)
Definition tail_size (args : Args) (arrlen : gmap string Z) (p : Param) : nat :=
  (32 + Z.to_nat (size_pad_right_of (size_of args arrlen p)))%nat.

(** The bytes the tails of the dynamic parameters among [ps] take. *)
Definition tail_offset (args : Args) (arrlen : gmap string Z) (ps : list Param) : nat :=
  sum_list_with (tail_size args arrlen) (filter (fun p => is_dynamic p = true) ps).

(** The locations kept in [tba]: the head slots of the dynamic parameters
    of [ps], the head starting [off] bytes after the selector. *)
Fixpoint dyn_locs (off : nat) (ps : list Param) : list (nat * Param) :=
  match ps with
  | [] => []
  | p :: r =>
      (if is_dynamic p then [((4 + off)%nat, p)] else []) ++ dyn_locs (off + head_size p) r
  end.

(** What the head of a parameter that is not dynamic holds. *)
Definition head_holds (cd_ : list (option Word)) (loc : nat) (p : Param) : Prop :=
  match re_search (param_type p) with
  | Some (typ, None) =>
      holds cd_ loc 32 (BitVec ("p_" +:+ param_name p +:+ "_" +:+ typ) 256)
  | Some (typ, Some dim) =>
      forall idx, (idx < int_of_digits dim)%nat ->
        holds cd_ (loc + 32 * idx) 32
          (BitVec ("p_" +:+ param_name p +:+ "[" +:+ pretty idx +:+ "]_" +:+ typ) 256)
  | None => False
  end.

(** What the head slot at [loc] and the tail at [off] hold for a dynamic
    parameter. *)
Definition tail_holds (args : Args) (arrlen : gmap string Z) (cd_ : list (option Word))
    (loc off : nat) (p : Param) : Prop :=
  let size := size_of args arrlen p in
  let pad := size_pad_right_of size in
  holds cd_ loc 32 (mkBitVecVal (Z.of_nat off) 256)
  /\ holds cd_ (4 + off) 32 (mkBitVecVal size 256)
  /\ (0 < pad ->
      holds cd_ (4 + off + 32) (Z.to_nat pad)
        (BitVec ("p_" +:+ param_name p +:+ "_" +:+ param_type p) (8 * pad))).

(** ** Reading object trees *)

(** The identity of a container. *)
Definition top_id (o : PyObj) : option nat :=
  match o with
  | PAtom _ => None
  | PList id _ => Some id
  | PDict id _ => Some id
  end.

(** Two objects with the very same items: the same keys and the same
    (identical) objects below. *)
Definition same_items (a b : PyObj) : Prop :=
  match a, b with
  | PAtom x, PAtom y => x = y
  | PList _ xs, PList _ ys => xs = ys
  | PDict _ xs, PDict _ ys => xs = ys
  | _, _ => False
  end.

(** The identities of all the containers of an object. *)
Fixpoint ids (o : PyObj) : list nat :=
  match o with
  | PAtom _ => []
  | PList id xs =>
      id :: (fix go (l : list PyObj) : list nat :=
               match l with
               | [] => []
               | x :: r => ids x ++ go r
               end) xs
  | PDict id kvs =>
      id :: (fix go (l : list (Key * PyObj)) : list nat :=
               match l with
               | [] => []
               | (_, x) :: r => ids x ++ go r
               end) kvs
  end.

(** The value of an object: the object with the identities forgotten. *)
Fixpoint erase (o : PyObj) : PyObj :=
  match o with
  | PAtom _ => o
  | PList _ xs =>
      PList 0 ((fix go (l : list PyObj) : list PyObj :=
                  match l with
                  | [] => []
                  | x :: r => erase x :: go r
                  end) xs)
  | PDict _ kvs =>
      PDict 0 ((fix go (l : list (Key * PyObj)) : list (Key * PyObj) :=
                  match l with
                  | [] => []
                  | (k, x) :: r => (k, erase x) :: go r
                  end) kvs)
  end.

(** ** The vocabulary of the verdict

    The three kinds of terminal state the loop of [run] tells apart, as
    tests on a state. *)

Definition halts (opcode : string) : bool :=
  String.eqb opcode "STOP" || String.eqb opcode "RETURN".

(** A normal terminal: STOP or RETURN with [failed] unset. *)
Definition is_normal (ex : Exec) : bool :=
  match current_opcode ex with
  | Some opcode => halts opcode && negb (failed ex)
  | None => false
  end.

(** A candidate violation: STOP or RETURN with [failed] set, or REVERT with
    the output Panic(1). *)
Definition is_candidate (ex : Exec) : bool :=
  match current_opcode ex with
  | Some opcode =>
      (halts opcode && failed ex)
      || (String.eqb opcode "REVERT" && output_eq_int (output ex) panic1)
  | None => false
  end.

(** A stuck terminal: any opcode other than STOP, RETURN and REVERT. *)
Definition is_stuck (ex : Exec) : bool :=
  match current_opcode ex with
  | Some opcode => negb (halts opcode) && negb (String.eqb opcode "REVERT")
  | None => false
  end.

(** A REVERT whose output is not Panic(1). *)
Definition is_plain_revert (ex : Exec) : bool :=
  match current_opcode ex with
  | Some opcode => String.eqb opcode "REVERT" && negb (output_eq_int (output ex) panic1)
  | None => false
  end.

(** The stuck entries of [exs], numbered from [idx]. *)
Fixpoint stuck_from (idx : nat) (exs : list Exec) : list (string * nat * Exec) :=
  match exs with
  | [] => []
  | ex :: rest =>
      (if is_stuck ex then [(default "" (current_opcode ex), idx, ex)] else [])
        ++ stuck_from (S idx) rest
  end.

(** The verdicts printed so far: the flags of the result lines. *)
Fixpoint verdicts (evs : list Event) : list bool :=
  match evs with
  | [] => []
  | EvPrint (LResult passed _ _ _ _) :: rest => passed :: verdicts rest
  | _ :: rest => verdicts rest
  end.

(** A computation that prints no result line. *)
Definition quiet {A : Type} (m : M A) : Prop :=
  forall w a w', m w = inr (a, w') ->
    exists post, events w' = events w ++ post /\ verdicts post = [].

(** The counts of a list of verdicts. *)
Definition count_of (b : bool) (vs : list bool) : nat :=
  length (filter (fun v => v = b) vs).

(** A loop step that adds the verdicts [vs] and counts them. *)
Definition counts_step (m : M (nat * nat)) (counts : nat * nat) : Prop :=
  forall w c w', m w = inr (c, w') ->
    exists vs, verdicts (events w') = verdicts (events w) ++ vs /\
      c.1 = (counts.1 + count_of true vs)%nat /\
      c.2 = (counts.2 + count_of false vs)%nat.

(** The world after some more events and with [n] contexts made. *)
Definition with_contexts (w : World) (evs : list Event) (n : nat) : World :=
  {| events := events w ++ evs; files := files w; n_contexts := n;
     n_uuids := n_uuids w; n_objects := n_objects w |}.

(** ** Concrete inputs *)

Module Demo.
Definition args : Args :=
  {| a_target := "."; a_contract := None; a_function := "test"; a_loop := 2;
     a_width := None; a_depth := None; array_lengths := None;
     no_smt_add := false; no_smt_sub := false; no_smt_mul := false;
     smt_div := false; smt_div_by_const := false; smt_mod_by_const := false;
     smt_exp_by_const := 2; solver_timeout_branching := 1000;
     solver_timeout_assertion := 60000; solver_subprocess := false;
     verbose := 0; debug := false; a_log := None; print_revert := false |}.

(** The same, with [--solver-subprocess]. *)
Definition args_subprocess : Args :=
  {| a_target := "."; a_contract := None; a_function := "test"; a_loop := 2;
     a_width := None; a_depth := None; array_lengths := None;
     no_smt_add := false; no_smt_sub := false; no_smt_mul := false;
     smt_div := false; smt_div_by_const := false; smt_mod_by_const := false;
     smt_exp_by_const := 2; solver_timeout_branching := 1000;
     solver_timeout_assertion := 60000; solver_subprocess := true;
     verbose := 0; debug := false; a_log := None; print_revert := false |}.

Definition this_ : Word := BitVec "this_address" 256.

Definition solver0 : Solver :=
  {| s_ctx := main_ctx; s_logic := Some "QF_AUFBV"; s_timeout := Some 1000;
     s_assertions := [] |}.

(** A state at the only instruction, [name], of its program. *)
Definition exec_at (name : string) (failed_ : bool) (output_ : option Word) : Exec :=
  {| pgm := PDict 0 [(KWord this_, PDict 1 [(KInt 0, PAtom (AOpcode {| op := [name]; sm := None |}))])];
     code := PDict 2 []; storage := PDict 3 [];
     balance := [(this_, con 0)]; calldata := replicate 4 None;
     callvalue := con 0; caller := BitVec "msg_sender" 256; this := this_;
     pc := 0; st := State_new; jumpis := ∅; output := output_; symbolic := true;
     solver := solver0; path := PList 4 []; log := PList 5 []; cnts := PDict 6 [];
     sha3s := PList 7 []; storages := PList 8 []; calls := PList 9 [];
     failed := failed_; error := "" |}.

(** A solver that gives the first answer of [answers] for the solver of
    the state, the second for the reload, the third for the reload with
    axioms; a command-line solver that prints [cli]; an interpreter that
    returns [exs]. *)
Definition env_of (answers : list (CheckSatResult * ModelRef)) (cli : string)
    (exs : list Exec) : Env :=
  let stage (s : Solver) : nat :=
    match s_ctx s, s_logic s with
    | main_ctx, _ => 0%nat
    | new_ctx _, Some _ => 1%nat
    | new_ctx _, None => 2%nat
    end in
  {| z3_check := fun s => (default (unknown, []) (answers !! stage s)).1;
     z3_model := fun s => (default (unknown, []) (answers !! stage s)).2;
     z3_sexpr := fun _ => "";
     z3_to_smt2 := fun _ => "";
     z3_from_string := fun _ => [];
     z3_str_model := fun _ => "";
     z3_cli := fun _ => cli;
     read_source := fun _ _ _ => inr "";
     sevm_decode := fun _ => ([{| op := ["STOP"]; sm := None |}], [mkBitVecVal 0 8]);
     sevm_ops_to_pgm := fun ops => zip (map (fun i => KInt (Z.of_nat i)) (seq 0 (length ops)))
                                       (map (fun o => PAtom (AOpcode o)) ops);
     uuid4_hex := fun n => pretty n;
     sevm_run := fun _ _ => (exs, "[]") |}.

Definition evm_model : ModelRef := [({| decl_name := "evm_div"; decl_arity := 2 |}, "[else -> 0]")].
Definition p_model : ModelRef := [({| decl_name := "p_x_uint256"; decl_arity := 0 |}, "0")].
Definition cd_model : ModelRef :=
  [({| decl_name := "p_x_uint256"; decl_arity := 0 |}, "0");
   ({| decl_name := "cd"; decl_arity := 1 |}, "[else -> 0]")].

(** The interpreter ends every run in one normal state. *)
Definition env_normal : Env := env_of [] "" [exec_at "STOP" false None].


Definition world_after (l : Line) (objects : nat) : World :=
  {| events := [EvPrint l]; files := []; n_contexts := 0; n_uuids := 0;
     n_objects := objects |}.

Definition abi_f : list AbiItem :=
  [{| item_type := "function"; item_name := "test_f";
      inputs := [{| param_name := "a"; param_type := "uint8" |};
                 {| param_name := "b"; param_type := "bytes" |}] |}].

(** The calldata of [test_f(uint8 a, bytes b)]. *)
Definition calldata_f : Tail :=
  match mk_calldata args ∅ abi_f "test_f" 0x12345678 with
  | inr t => t
  | inl _ => {| t_cd := []; t_offset := 0; dyn_param_size := []; warnings := [] |}
  end.
End Demo.

(** ** Reading the printed model *)

(** [select] of [str_model], on the name of a declaration. *)
Definition selected (args : Args) (name : string) : bool :=
  String.prefix "p_" name
  || ((1 <=? verbose args)
      && (String.prefix "storage" name || String.prefix "msg_" name
          || String.prefix "this_" name)).

(** [f'{decl} = {model[decl]}'] *)
Definition str_decl (d : FuncDeclRef * string) : string :=
  decl_name d.1 +:+ " = " +:+ d.2.

(** Ascending order of strings. *)
Definition str_le (a b : string) : Prop := String.leb a b = true.

(** The solvers checked, in order. *)
Fixpoint checks (evs : list Event) : list Solver :=
  match evs with
  | [] => []
  | EvCheck s :: rest => s :: checks rest
  | _ :: rest => checks rest
  end.

(** A computation that leaves the files as they are. *)
Definition keeps_files {A : Type} (m : M A) : Prop :=
  forall w a w', m w = inr (a, w') -> files w' = files w.

(** How many of the states [p] holds of. *)
Definition count_kind (p : Exec -> bool) (exs : list Exec) : nat :=
  length (filter (fun ex => p ex = true) exs).

(** ** Reading the tests of a contract *)

(** [funsigs]: the signatures of the contract that start with
    [args.function], in the order of [methodIdentifiers]. *)
Definition tests_of (args : Args) (c : Contract) : list string :=
  filter (fun s => String.prefix (a_function args) s = true) (map fst (methodIdentifiers c)).

(** [if funsigs:] *)
Definition has_tests (args : Args) (c : Contract) : bool :=
  match tests_of args c with
  | [] => false
  | _ :: _ => true
  end.

(** The signatures of the result lines printed so far. *)
Fixpoint reported (evs : list Event) : list string :=
  match evs with
  | [] => []
  | EvPrint (LResult _ funsig _ _ _) :: rest => funsig :: reported rest
  | _ :: rest => reported rest
  end.

(** ** Reading [--array-lengths] *)

(** What one assignment [name=size] gives: the name and the size, both
    without the blanks around them. *)
Definition assignment (x : string) : option (string * Z) :=
  match split_on equals_sign x with
  | name :: size :: _ =>
      match py_int (strip size) with
      | inr n => Some (strip name, n)
      | inl _ => None
      end
  | _ => None
  end.

(** Whether the character occurs in the string. *)
Fixpoint has_char (c : Ascii.ascii) (s : string) : bool :=
  match s with
  | EmptyString => false
  | String c' r => Ascii.eqb c' c || has_char c r
  end.

(** ** Reading the types of the parameters *)

(** A parameter that the calldata part of [run] accepts: not a tuple, and
    either [bytes] or [string], or a type that does not end in [[]] and in
    which the regular expression finds an elementary type. *)
Definition supported (p : Param) : Prop :=
  param_type p <> "tuple"
  /\ (is_dynamic p = true
      \/ (endswith (param_type p) "[]" = false /\ re_search (param_type p) <> None)).

(** A string of decimal digits, possibly empty. *)
Fixpoint digits (s : string) : bool :=
  match s with
  | EmptyString => true
  | String c r => is_digit c && digits r
  end.

(** The names of the elementary types that the regular expression of
    [run] is written for: [uint], [int], [uint<N>], [int<N>], [address],
    [bool] and [bytes<N>]. *)
Inductive elementary : string -> Prop :=
| el_uint (d : string) : digits d = true -> elementary ("uint" +:+ d)
| el_int (d : string) : digits d = true -> elementary ("int" +:+ d)
| el_address : elementary "address"
| el_bool : elementary "bool"
| el_bytes (d : string) : digits d = true -> d <> "" -> elementary ("bytes" +:+ d).

(** [f'|{param_name}|={size}'] *)
Definition str_bound (args : Args) (arrlen : gmap string Z) (p : Param) : string :=
  "|" +:+ param_name p +:+ "|=" +:+ pretty (size_of args arrlen p).

(** The last character of [String c s]. *)
Fixpoint last_of (c : Ascii.ascii) (s : string) : Ascii.ascii :=
  match s with
  | EmptyString => c
  | String c' r => last_of c' r
  end.

Definition rbracket : Ascii.ascii := Ascii.ascii_of_nat 93.

(** ** More concrete inputs *)

Module Examples.
(** A contract with one test and no [setUp()]. *)
Definition contract_ok : Contract :=
  {| c_filename := "Test.sol"; c_name := "T"; c_hexcode := "00"; c_srcmap := [];
     c_abi := []; methodIdentifiers := [("test_ok()", 0x12345678); ("helper()", 0x1)] |}.

(** A contract with one test and a [setUp()]. *)
Definition contract_setUp : Contract :=
  {| c_filename := "Test.sol"; c_name := "S"; c_hexcode := "00"; c_srcmap := [];
     c_abi := []; methodIdentifiers := [("setUp()", 0x0a9254e4); ("test_ok()", 0x12345678)] |}.

(** The interpreter ends every run in two states. *)
Definition env_two_paths : Env :=
  Demo.env_of [] "" [Demo.exec_at "STOP" false None; Demo.exec_at "STOP" false None].

(** [--log steps.json] *)
Definition args_log : Args :=
  {| a_target := "."; a_contract := None; a_function := "test"; a_loop := 2;
     a_width := None; a_depth := None; array_lengths := None;
     no_smt_add := false; no_smt_sub := false; no_smt_mul := false;
     smt_div := false; smt_div_by_const := false; smt_mod_by_const := false;
     smt_exp_by_const := 2; solver_timeout_branching := 1000;
     solver_timeout_assertion := 60000; solver_subprocess := false;
     verbose := 0; debug := false; a_log := Some "steps.json"; print_revert := false |}.


(** [--array-lengths 'a=1,'] *)
Definition args_arrlen_bad : Args :=
  {| a_target := "."; a_contract := None; a_function := "test"; a_loop := 2;
     a_width := None; a_depth := None; array_lengths := Some "a=1,";
     no_smt_add := false; no_smt_sub := false; no_smt_mul := false;
     smt_div := false; smt_div_by_const := false; smt_mod_by_const := false;
     smt_exp_by_const := 2; solver_timeout_branching := 1000;
     solver_timeout_assertion := 60000; solver_subprocess := false;
     verbose := 0; debug := false; a_log := None; print_revert := false |}.
End Examples.

(** * Properties *)

(** ** Reading driver computations *)

Lemma bind_inr {A B : Type} (m : M A) (f : A -> M B) (w w' : World) (b : B) :
  (m ≫= f) w = inr (b, w') <-> exists a w1, m w = inr (a, w1) /\ f a w1 = inr (b, w').
Proof.
  unfold mbind, M_bind. split.
  - destruct (m w) as [e | [a w1]]; [discriminate | eauto].
  - intros (a & w1 & -> & H). exact H.
Qed.

Lemma bind_eq {A B : Type} (m : M A) (f : A -> M B) (w w1 : World) (a : A) :
  m w = inr (a, w1) -> (m ≫= f) w = f a w1.
Proof. intros H. unfold mbind, M_bind. now rewrite H. Qed.

Lemma ret_inr {A : Type} (a b : A) (w w' : World) :
  (mret a : M A) w = inr (b, w') <-> a = b /\ w = w'.
Proof. unfold mret, M_ret. split; [intros [= -> ->]; auto | intros [-> ->]; auto]. Qed.

(** Unfolding of the primitive actions. *)
Ltac run_prims :=
  unfold print, check, when, new_Context, write_file, uuid4, subprocess_run,
    read_model, raise, lift, new_dict, new_list, alloc, emit,
    mbind, M_bind, mret, M_ret in *; cbn [fst snd] in *.

(** ** The counterexample pipeline *)

Lemma verdicts_app (a b : list Event) : verdicts (a ++ b) = verdicts a ++ verdicts b.
Proof.
  induction a as [| e a IH]; [reflexivity|].
  destruct e as [[] | | |]; simpl; rewrite ?IH; reflexivity.
Qed.

(** What [record_model] can append, for any result. *)
Lemma record_model_cases (models : list Entry) (idx : nat) (ex : Exec)
    (res : CheckSatResult) (m : ModelRef) (w : World) :
  record_model models idx ex res (Some m) w =
    inr (match res with
         | unsat => models
         | sat => if is_valid_model m then models ++ [(Some m, idx, ex)]
                  else models ++ [(None, idx, ex)]
         | unknown => models ++ [(None, idx, ex)]
         end, w).
Proof.
  unfold record_model. destruct res; simpl; run_prims; try reflexivity.
  destruct (is_valid_model m); reflexivity.
Qed.

Lemma record_model_not_sat (models : list Entry) (idx : nat) (ex : Exec)
    (res : CheckSatResult) (model : option ModelRef) (w : World) :
  res <> sat ->
  record_model models idx ex res model w =
    inr (match res with
         | unsat => models
         | _ => models ++ [(None, idx, ex)]
         end, w).
Proof.
  intros H. unfold record_model. destruct res; simpl; run_prims; try reflexivity.
  congruence.
Qed.

(** The subprocess step only adds events, none of them a solver check, and
    answers [unsat] or what it was given. *)
Lemma solve_subprocess_cases (env : Env) (args : Args) (ex : Exec)
    (res : CheckSatResult) (w : World) :
  exists res' w' post,
    solve_subprocess env args ex res w = inr (res', w') /\
    events w' = events w ++ post /\
    (forall s, ~ In (EvCheck s) post) /\
    (res' = res \/ (res = unknown /\ res' = unsat)) /\
    verdicts post = [].
Proof.
  unfold solve_subprocess.
  destruct (bool_decide (res = unknown) && solver_subprocess args) eqn:Hb.
  - apply andb_true_iff in Hb as [Hu _]. apply bool_decide_eq_true in Hu. subst res.
    run_prims. destruct (4 <=? verbose args); simpl;
      (destruct (String.eqb _ "unsat");
       (eexists _, _, _; split; [reflexivity|]; simpl;
        rewrite <- ?app_assoc; split; [reflexivity|]; split; [|auto];
        simpl; intros s Hs; intuition discriminate)).
  - run_prims. exists res, w, []. rewrite app_nil_r. auto 6.
Qed.

(** With [--solver-subprocess] and [res] unknown: the file written, the
    command run, and the new [res]. *)
Lemma solve_subprocess_unknown (env : Env) (args : Args) (ex : Exec) (w : World) :
  solver_subprocess args = true ->
  let fname := "/tmp/" +:+ uuid4_hex env (n_uuids w) +:+ ".smt2" in
  let content := "(set-logic QF_AUFBV)" +:+ nl +:+ z3_to_smt2 env (solver ex) in
  let res_str := strip (z3_cli env (Some content)) in
  exists w' pre post,
    solve_subprocess env args ex unknown w
      = inr (if String.eqb res_str "unsat" then unsat else unknown, w') /\
    events w' = events w ++ pre ++ [EvWrite fname content; EvSubprocess ["z3"; fname]] ++ post.
Proof.
  intros Hsub fname content res_str. unfold solve_subprocess.
  rewrite Hsub. change (bool_decide (unknown = unknown) && true) with true. cbv iota.
  run_prims.
  destruct (4 <=? verbose args);
    cbn [events files n_uuids n_contexts n_objects lookup list_lookup file_content
         mbind option_bind];
    fold fname; fold content; rewrite String.eqb_refl; fold res_str.
  - eexists _, [_], [_]. split; [reflexivity|]. cbn [events].
    rewrite <- !app_assoc. reflexivity.
  - eexists _, [], []. split; [reflexivity|]. cbn [events].
    rewrite <- !app_assoc. reflexivity.
Qed.

(** The results of [solve_in_process], by the answers of the solver. *)
Lemma solve_in_process_eq (env : Env) (args : Args) (ex : Exec) (w : World) :
  let n := n_contexts w in
  let s1 := solver ex in
  let s2 := sol2_of env args ex (new_ctx n) in
  let m1 := z3_model env s1 in
  let m2 := z3_model env s2 in
  solve_in_process env args ex w =
    match z3_check env s1 with
    | unsat => inr ((unsat, None), with_contexts w [EvCheck s1] n)
    | sat =>
        if is_valid_model m1 then inr ((sat, Some m1), with_contexts w [EvCheck s1] n)
        else
          let s3 := sol3_of env args ex (new_ctx n) in
          inr ((z3_check env s3,
                if decide (z3_check env s3 = sat) then Some (z3_model env s3) else Some m1),
               with_contexts w [EvCheck s1; EvCheck s3] (S n))
    | unknown =>
        match z3_check env s2 with
        | unsat => inr ((unsat, None), with_contexts w [EvCheck s1; EvCheck s2] (S n))
        | unknown => inr ((unknown, None), with_contexts w [EvCheck s1; EvCheck s2] (S n))
        | sat =>
            if is_valid_model m2
            then inr ((sat, Some m2), with_contexts w [EvCheck s1; EvCheck s2] (S n))
            else
              let s3 := sol3_of env args ex (new_ctx (S n)) in
              inr ((z3_check env s3,
                    if decide (z3_check env s3 = sat) then Some (z3_model env s3)
                    else Some m2),
                   with_contexts w [EvCheck s1; EvCheck s2; EvCheck s3] (S (S n)))
        end
    end.
Proof.
  intros n s1 s2 m1 m2. unfold solve_in_process, with_contexts.
  subst n s1 s2 m1 m2. run_prims.
  destruct (z3_check env (solver ex)) eqn:H1; simpl.
  - destruct (is_valid_model (z3_model env (solver ex))); simpl;
      rewrite <- ?app_assoc; reflexivity.
  - reflexivity.
  - destruct (z3_check env (sol2_of env args ex (new_ctx (n_contexts w)))) eqn:H2; simpl;
      rewrite <- ?app_assoc; simpl; try reflexivity.
    destruct (is_valid_model _); simpl; rewrite <- ?app_assoc; reflexivity.
Qed.

(** [gen_model] after its in-process part. *)
Lemma gen_model_from (env : Env) (args : Args) (models : list Entry) (idx : nat)
    (ex : Exec) (w w1 : World) (res : CheckSatResult) (model : option ModelRef) :
  solve_in_process env args ex w = inr ((res, model), w1) ->
  exists res' w' post,
    solve_subprocess env args ex res w1 = inr (res', w') /\
    gen_model env args models idx ex w = record_model models idx ex res' model w' /\
    events w' = events w1 ++ post /\
    (forall s, ~ In (EvCheck s) post) /\
    (res' = res \/ (res = unknown /\ res' = unsat)) /\
    verdicts post = [].
Proof.
  intros Hin.
  destruct (solve_subprocess_cases env args ex res w1)
    as (r & w' & post & Hs & Hev & Hnc & Hr & Hv).
  exists r, w', post. split; [exact Hs|]. split; [|auto].
  unfold gen_model. erewrite bind_eq by exact Hin. simpl.
  erewrite bind_eq by exact Hs. reflexivity.
Qed.

(** Whatever the solver answers, [gen_model] returns: it never reads
    [model] unbound. Its first effect is the check of the state's solver,
    and it appends at most one entry. *)
Lemma gen_model_total (env : Env) (args : Args) (models : list Entry) (idx : nat)
    (ex : Exec) (w : World) :
  exists ms' w' post,
    gen_model env args models idx ex w = inr (ms', w') /\
    events w' = events w ++ EvCheck (solver ex) :: post /\
    verdicts post = [] /\
    (ms' = models \/ exists m, ms' = models ++ [(m, idx, ex)]).
Proof.
  pose proof (solve_in_process_eq env args ex w) as Hin. cbv zeta in Hin.
  assert (Hgo : forall res model evs n,
             solve_in_process env args ex w
               = inr ((res, model), with_contexts w (EvCheck (solver ex) :: evs) n) ->
             verdicts evs = [] ->
             (res = sat -> exists m, model = Some m) ->
             exists ms' w' post,
               gen_model env args models idx ex w = inr (ms', w') /\
               events w' = events w ++ EvCheck (solver ex) :: post /\
               verdicts post = [] /\
               (ms' = models \/ exists m, ms' = models ++ [(m, idx, ex)])).
  { intros res model evs n H Hvs Hm.
    destruct (gen_model_from env args models idx ex w _ res model H)
      as (r & w' & post & _ & Hg & Hev & _ & Hr & Hvp).
    rewrite Hg. simpl in Hev.
    assert (Hev' : events w' = events w ++ EvCheck (solver ex) :: evs ++ post)
      by (rewrite Hev, <- app_assoc; reflexivity).
    assert (Hvv : verdicts (evs ++ post) = []) by (rewrite verdicts_app, Hvs, Hvp; reflexivity).
    destruct (decide (r = sat)) as [-> | Hns].
    - destruct Hr as [<- | [_ ?]]; [|discriminate].
      destruct (Hm eq_refl) as [m ->]. rewrite record_model_cases.
      eexists _, _, _. split; [reflexivity|]. split; [exact Hev'|]. split; [exact Hvv|].
      destruct (is_valid_model m); eauto.
    - rewrite record_model_not_sat by assumption.
      eexists _, _, _. split; [reflexivity|]. split; [exact Hev'|]. split; [exact Hvv|].
      destruct r; eauto. }
  destruct (z3_check env (solver ex)).
  - destruct (is_valid_model (z3_model env (solver ex))).
    + eapply Hgo; [exact Hin | reflexivity | eauto].
    + eapply Hgo; [exact Hin | reflexivity |]. intros _. destruct (decide _); eauto.
  - eapply Hgo; [exact Hin | reflexivity | discriminate].
  - destruct (z3_check env (sol2_of env args ex (new_ctx (n_contexts w)))).
    + destruct (is_valid_model
                  (z3_model env (sol2_of env args ex (new_ctx (n_contexts w))))).
      * eapply Hgo; [exact Hin | reflexivity | eauto].
      * eapply Hgo; [exact Hin | reflexivity |]. intros _. destruct (decide _); eauto.
    + eapply Hgo; [exact Hin | reflexivity | discriminate].
    + eapply Hgo; [exact Hin | reflexivity | discriminate].
Qed.

Lemma is_valid_model_spec (model : ModelRef) :
  is_valid_model model = true <->
  forall d, In d model -> String.prefix "evm_" (decl_name d.1) = false.
Proof.
  induction model as [| [decl inter] rest IH]; simpl.
  - split; [intros _ d [] | reflexivity].
  - destruct (String.prefix "evm_" (decl_name decl)) eqn:Hp.
    + split; [discriminate|]. intros H. specialize (H (decl, inter) (or_introl eq_refl)).
      simpl in H. congruence.
    + rewrite IH. split.
      * intros H d [<- | Hd]; [exact Hp | auto].
      * intros H d Hd. apply H. now right.
Qed.

(** C5. In [gen_model], when a sat answer (of the state's solver, or of
    the reload that follows an unknown) comes with a model that interprets
    a declaration named [evm_...], the assertions are reloaded in a fresh
    context, under the assertion timeout, together with exactly the two
    axioms [ForAll x y, evm_div(x, y) <=u x] and [ForAll x y, evm_mod(x, y)
    <=u y]; that solver is checked, no other check follows, and what is
    recorded is decided by its answer. *)
Theorem gen_model_rechecks_with_axioms (env : Env) (args : Args) (models : list Entry)
    (idx : nat) (ex : Exec) (w : World) (pre : list Event) (k : nat) :
  let s1 := solver ex in
  let s2 := sol2_of env args ex (new_ctx (n_contexts w)) in
  (z3_check env s1 = sat /\ is_valid_model (z3_model env s1) = false
     /\ pre = [EvCheck s1] /\ k = n_contexts w)
  \/ (z3_check env s1 = unknown /\ z3_check env s2 = sat
      /\ is_valid_model (z3_model env s2) = false
      /\ pre = [EvCheck s1; EvCheck s2] /\ k = S (n_contexts w)) ->
  exists s3 ms' w' post,
    s_ctx s3 = new_ctx k /\ (n_contexts w <= k)%nat /\
    s_timeout s3 = Some (solver_timeout_assertion args) /\
    s_assertions s3 =
      z3_from_string env (z3_sexpr env s1) ++
      [ForAll [BitVec "x" 256; BitVec "y" 256]
         (ULE (App2 "evm_div" (BitVec "x" 256) (BitVec "y" 256)) (BitVec "x" 256));
       ForAll [BitVec "x" 256; BitVec "y" 256]
         (ULE (App2 "evm_mod" (BitVec "x" 256) (BitVec "y" 256)) (BitVec "y" 256))] /\
    gen_model env args models idx ex w = inr (ms', w') /\
    events w' = events w ++ pre ++ EvCheck s3 :: post /\
    (forall s, ~ In (EvCheck s) post) /\
    (ms' = models
     \/ ms' = models ++ [(None, idx, ex)]
     \/ (ms' = models ++ [(Some (z3_model env s3), idx, ex)]
         /\ z3_check env s3 = sat /\ is_valid_model (z3_model env s3) = true)).
Proof.
  intros s1 s2 Hcase.
  pose proof (solve_in_process_eq env args ex w) as Hin. cbv zeta in Hin.
  fold s1 s2 in Hin.
  assert (Hk : (n_contexts w <= k)%nat) by (destruct Hcase as [(_&_&_&->)|(_&_&_&_&->)]; lia).
  set (s3 := sol3_of env args ex (new_ctx k)).
  assert (Hin' : exists m0,
             solve_in_process env args ex w =
               inr ((z3_check env s3,
                     if decide (z3_check env s3 = sat) then Some (z3_model env s3)
                     else Some m0),
                    with_contexts w (pre ++ [EvCheck s3]) (S k))).
  { destruct Hcase as [(H1 & Hv & -> & ->) | (H1 & H2 & Hv & -> & ->)].
    - rewrite H1, Hv in Hin. eexists. exact Hin.
    - rewrite H1, H2, Hv in Hin. eexists. exact Hin. }
  destruct Hin' as [m0 Hin'].
  destruct (gen_model_from env args models idx ex w _ _ _ Hin')
    as (r & w' & post & _ & Hg & Hev & Hnc & Hr & _).
  exists s3. rewrite Hg.
  assert (Hev' : events w' = events w ++ pre ++ EvCheck s3 :: post).
  { rewrite Hev. simpl. rewrite <- !app_assoc. reflexivity. }
  destruct (decide (z3_check env s3 = sat)) as [Hs3 | Hs3].
  - assert (r = sat) as -> by (destruct Hr as [-> | [? _]]; congruence).
    rewrite record_model_cases.
    eexists _, w', post. repeat (split; [first [reflexivity | assumption]|]).
    destruct (is_valid_model (z3_model env s3)); auto.
  - assert (r <> sat) by (destruct Hr as [-> | [_ ->]]; [assumption | discriminate]).
    rewrite record_model_not_sat by assumption.
    eexists _, w', post. repeat (split; [first [reflexivity | assumption]|]).
    destruct r; auto.
Qed.

(** The witness of C5: the state's solver answers sat with a model of
    [evm_div]. *)
Lemma gen_model_rechecks_with_axioms_witness :
  let env := Demo.env_of [(sat, Demo.evm_model); (unknown, []); (sat, Demo.p_model)] "" [] in
  let ex := Demo.exec_at "STOP" true None in
  exists s3 ms' w' post,
    s_ctx s3 = new_ctx 0 /\ (n_contexts World_init <= 0)%nat /\
    s_timeout s3 = Some 60000 /\
    s_assertions s3 =
      z3_from_string env (z3_sexpr env (solver ex)) ++
      [ForAll [BitVec "x" 256; BitVec "y" 256]
         (ULE (App2 "evm_div" (BitVec "x" 256) (BitVec "y" 256)) (BitVec "x" 256));
       ForAll [BitVec "x" 256; BitVec "y" 256]
         (ULE (App2 "evm_mod" (BitVec "x" 256) (BitVec "y" 256)) (BitVec "y" 256))] /\
    gen_model env Demo.args [] 0 ex World_init = inr (ms', w') /\
    events w' = events World_init ++ [EvCheck (solver ex)] ++ EvCheck s3 :: post /\
    (forall s, ~ In (EvCheck s) post) /\
    (ms' = []
     \/ ms' = [] ++ [(None, 0%nat, ex)]
     \/ (ms' = [] ++ [(Some (z3_model env s3), 0%nat, ex)]
         /\ z3_check env s3 = sat /\ is_valid_model (z3_model env s3) = true)).
Proof.
  intros env ex.
  apply (gen_model_rechecks_with_axioms env Demo.args [] 0 ex World_init
           [EvCheck (solver ex)] 0).
  left. repeat split; reflexivity.
Defined.

(** C7. When the in-process part of [gen_model] ends with [unknown] and
    [--solver-subprocess] is set, the assertions are written to an SMT2
    file, [z3] is run on that file, and its answer is taken both ways:
    [unsat] records nothing for the state, [sat] records an entry. *)
Theorem gen_model_subprocess_verdict (env : Env) (args : Args) (models : list Entry)
    (idx : nat) (ex : Exec) (w w1 : World) (model : option ModelRef) :
  solve_in_process env args ex w = inr ((unknown, model), w1) ->
  solver_subprocess args = true ->
  let fname := "/tmp/" +:+ uuid4_hex env (n_uuids w1) +:+ ".smt2" in
  let content := "(set-logic QF_AUFBV)" +:+ nl +:+ z3_to_smt2 env (solver ex) in
  let res_str := strip (z3_cli env (Some content)) in
  exists ms' w' pre post,
    gen_model env args models idx ex w = inr (ms', w') /\
    events w' = events w1 ++ pre ++ [EvWrite fname content; EvSubprocess ["z3"; fname]] ++ post /\
    (res_str = "unsat" -> ms' = models) /\
    (res_str = "sat" -> ms' = models ++ [(None, idx, ex)]).
Proof.
  intros Hin Hsub fname content res_str.
  destruct (solve_subprocess_unknown env args ex w1 Hsub) as (w' & pre & post & Hs & Hev).
  fold fname content res_str in Hs, Hev.
  unfold gen_model. erewrite bind_eq by exact Hin. simpl.
  erewrite bind_eq by exact Hs.
  destruct (String.eqb res_str "unsat") eqn:He.
  - rewrite record_model_not_sat by discriminate.
    exists models, w', pre, post. repeat split; auto.
    intros Hsat. apply String.eqb_eq in He. rewrite He in Hsat. discriminate.
  - rewrite record_model_not_sat by discriminate.
    exists (models ++ [(None, idx, ex)]), w', pre, post. repeat split; auto.
    intros Hu. apply String.eqb_neq in He. contradiction.
Qed.

(** The witness of C7: both in-process checks answer unknown, the
    command-line solver prints sat. *)
Lemma gen_model_subprocess_verdict_witness :
  let env := Demo.env_of [(unknown, []); (unknown, [])] "sat" [] in
  let ex := Demo.exec_at "STOP" true None in
  let w1 := with_contexts World_init
              [EvCheck (solver ex); EvCheck (sol2_of env Demo.args_subprocess ex (new_ctx 0))] 1 in
  let fname := "/tmp/" +:+ uuid4_hex env (n_uuids w1) +:+ ".smt2" in
  let content := "(set-logic QF_AUFBV)" +:+ nl +:+ z3_to_smt2 env (solver ex) in
  let res_str := strip (z3_cli env (Some content)) in
  exists ms' w' pre post,
    gen_model env Demo.args_subprocess [] 0 ex World_init = inr (ms', w') /\
    events w' = events w1 ++ pre ++ [EvWrite fname content; EvSubprocess ["z3"; fname]] ++ post /\
    (res_str = "unsat" -> ms' = []) /\
    (res_str = "sat" -> ms' = [] ++ [(None, 0%nat, ex)]).
Proof.
  intros env ex w1.
  apply (gen_model_subprocess_verdict env Demo.args_subprocess [] 0 ex World_init w1 None);
    reflexivity.
Defined.

Lemma solve_in_process_total (env : Env) (args : Args) (ex : Exec) (w : World) :
  exists res model w1, solve_in_process env args ex w = inr ((res, model), w1).
Proof.
  pose proof (solve_in_process_eq env args ex w) as Hin. cbv zeta in Hin.
  repeat match type of Hin with
         | context [match ?c with _ => _ end] => destruct c
         end; eauto.
Qed.

Lemma record_model_valid (models : list Entry) (idx : nat) (ex : Exec)
    (res : CheckSatResult) (model : option ModelRef) (w w' : World) (ms' : list Entry) :
  record_model models idx ex res model w = inr (ms', w') ->
  forall m i e, In (Some m, i, e) ms' ->
    In (Some m, i, e) models \/ is_valid_model m = true.
Proof.
  unfold record_model. intros H m i e Hin.
  destruct res; simpl in H; run_prims.
  - destruct model as [m0|]; [|discriminate].
    destruct (is_valid_model m0) eqn:Hv; injection H as <- <-;
      apply in_app_or in Hin as [Hin | [Hin | []]]; auto; try discriminate.
    injection Hin as <- _ _. auto.
  - injection H as <- <-. auto.
  - injection H as <- <-. apply in_app_or in Hin as [Hin | [Hin | []]]; auto; discriminate.
Qed.

Lemma print_model_unknown (env : Env) (args : Args) (total idx : nat) (ex : Exec)
    (w : World) :
  exists w' post,
    print_model env args total (None, idx, ex) w = inr (tt, w') /\
    events w' = events w ++ EvPrint LCounterexampleUnknown :: post.
Proof.
  unfold print_model, print_path, truthy_model. run_prims.
  destruct (1 <=? verbose args); simpl; eexists _, _; (split; [reflexivity|]); simpl;
    rewrite <- ?app_assoc; reflexivity.
Qed.

(** C6, as the code has it. Every model that [gen_model] records has no
    declaration whose name starts with [evm_] (declarations of other
    functions, such as [cd], may be interpreted); and when even the solver
    with the axioms answers sat with a model that has such a declaration,
    the entry recorded has no model and is printed as
    'Counterexample: unknown'. *)
Theorem gen_model_records_no_evm_model (env : Env) (args : Args) (models : list Entry)
    (idx : nat) (ex : Exec) (w w' : World) (ms' : list Entry) :
  gen_model env args models idx ex w = inr (ms', w') ->
  (forall m i e, In (Some m, i, e) ms' ->
     In (Some m, i, e) models
     \/ forall d, In d m -> String.prefix "evm_" (decl_name d.1) = false)
  /\ (forall k,
        let s1 := solver ex in
        let s2 := sol2_of env args ex (new_ctx (n_contexts w)) in
        let s3 := sol3_of env args ex (new_ctx k) in
        (z3_check env s1 = sat /\ is_valid_model (z3_model env s1) = false
           /\ k = n_contexts w)
        \/ (z3_check env s1 = unknown /\ z3_check env s2 = sat
            /\ is_valid_model (z3_model env s2) = false /\ k = S (n_contexts w)) ->
        z3_check env s3 = sat -> is_valid_model (z3_model env s3) = false ->
        ms' = models ++ [(None, idx, ex)]
        /\ forall total w2, exists w3 post,
             print_model env args total (None, idx, ex) w2 = inr (tt, w3) /\
             events w3 = events w2 ++ EvPrint LCounterexampleUnknown :: post).
Proof.
  intros Hg. split.
  - destruct (solve_in_process_total env args ex w) as (res & model & w1 & Hin).
    destruct (gen_model_from env args models idx ex w _ _ _ Hin)
      as (r & w2 & post & _ & Hg' & _).
    rewrite Hg' in Hg. intros m i e He.
    destruct (record_model_valid _ _ _ _ _ _ _ _ Hg m i e He) as [H | H]; [now left|].
    right. now apply is_valid_model_spec.
  - intros k s1 s2 s3 Hcase Hs3 Hv3.
    split; [|intros total w2; apply print_model_unknown].
    pose proof (solve_in_process_eq env args ex w) as Hin. cbv zeta in Hin.
    fold s1 s2 in Hin.
    assert (Hin' : exists evs n,
               solve_in_process env args ex w =
                 inr ((sat, Some (z3_model env s3)), with_contexts w evs n)).
    { destruct Hcase as [(H1 & Hv & ->) | (H1 & H2 & Hv & ->)].
      - rewrite H1, Hv in Hin. fold s3 in Hin. rewrite Hs3 in Hin. simpl in Hin. eauto.
      - rewrite H1, H2, Hv in Hin. fold s3 in Hin. rewrite Hs3 in Hin. simpl in Hin. eauto. }
    destruct Hin' as (evs & n & Hin').
    destruct (gen_model_from env args models idx ex w _ _ _ Hin')
      as (r & w2 & post & _ & Hg' & _ & _ & Hr & _).
    assert (r = sat) as -> by (destruct Hr as [-> | [? _]]; congruence).
    rewrite Hg', record_model_cases, Hv3 in Hg. congruence.
Qed.

(** The witness of C6: the state's solver and the solver with the axioms
    both answer sat with a model of [evm_div]. *)
Lemma gen_model_records_no_evm_model_witness :
  let env := Demo.env_of [(sat, Demo.evm_model); (unknown, []); (sat, Demo.evm_model)] "" [] in
  let ex := Demo.exec_at "STOP" true None in
  let ms' := [(None, 0%nat, ex)] in
  let w' := with_contexts World_init
              [EvCheck (solver ex); EvCheck (sol3_of env Demo.args ex (new_ctx 0))] 1 in
  gen_model env Demo.args [] 0 ex World_init = inr (ms', w')
  /\ (forall m i e, In (Some m, i, e) ms' ->
        In (Some m, i, e) []
        \/ forall d, In d m -> String.prefix "evm_" (decl_name d.1) = false)
  /\ ms' = [] ++ [(None, 0%nat, ex)].
Proof.
  intros env ex ms' w'.
  assert (Hg : gen_model env Demo.args [] 0 ex World_init = inr (ms', w')) by reflexivity.
  split; [exact Hg|].
  destruct (gen_model_records_no_evm_model env Demo.args [] 0 ex World_init w' ms' Hg)
    as [H1 H2].
  split; [exact H1|].
  apply (H2 0%nat); [left; repeat split; reflexivity | reflexivity | reflexivity].
Defined.

(** C6 as stated fails: a model that interprets the function [cd] (arity
    1, not a symbolic constant) is valid for [is_valid_model] and is
    recorded with the entry. *)
Lemma gen_model_records_function_model :
  let env := Demo.env_of [(sat, Demo.cd_model)] "" [] in
  let ex := Demo.exec_at "STOP" true None in
  exists w',
    gen_model env Demo.args [] 0 ex World_init = inr ([(Some Demo.cd_model, 0%nat, ex)], w')
    /\ exists d, In d Demo.cd_model /\ decl_name d.1 = "cd" /\ decl_arity d.1 = 1%nat.
Proof.
  intros env ex. eexists. split; [reflexivity|].
  eexists. split; [right; left; reflexivity|]. split; reflexivity.
Qed.

(** ** The classification of the terminal states *)



Lemma halts_iff (opcode : string) :
  halts opcode = true <-> opcode = "STOP" \/ opcode = "RETURN".
Proof.
  unfold halts. rewrite orb_true_iff, !String.eqb_eq. reflexivity.
Qed.



(** The test [is_normal], in words. *)
Lemma is_normal_iff (ex : Exec) :
  is_normal ex = true <->
  exists opcode, current_opcode ex = Some opcode /\
    (opcode = "STOP" \/ opcode = "RETURN") /\ failed ex = false.
Proof.
  unfold is_normal. destruct (current_opcode ex) as [opcode|].
  - rewrite andb_true_iff, negb_true_iff, halts_iff. split.
    + intros H. eauto.
    + intros (o & [= <-] & H). exact H.
  - split; [discriminate | intros (o & [=] & _)].
Qed.

(** The loop body of [run], by the kind of the state. *)
Lemma classify_cases (env : Env) (args : Args) (t : Tally) (idx : nat) (ex : Exec)
    (w : World) :
  match current_opcode ex with
  | None => classify env args t idx ex w = inl KeyError
  | Some opcode =>
      if is_candidate ex then
        classify env args t idx ex w =
          (ms ← gen_model env args (models t) idx ex;
           mret {| normal := normal t; models := ms; stuck := stuck t |}) w
      else if is_normal ex then
        classify env args t idx ex w =
          inr ({| normal := S (normal t); models := models t; stuck := stuck t |}, w)
      else if is_stuck ex then
        classify env args t idx ex w =
          inr ({| normal := normal t; models := models t;
                  stuck := stuck t ++ [(opcode, idx, ex)] |}, w)
      else
        is_plain_revert ex = true /\ classify env args t idx ex w = inr (t, w)
  end.
Proof.
  unfold classify, is_candidate, is_normal, is_stuck, is_plain_revert, halts.
  destruct (current_opcode ex) as [opcode|]; [|reflexivity].
  destruct (String.eqb_spec opcode "STOP") as [-> | H1];
    [simpl; destruct (failed ex); reflexivity|].
  destruct (String.eqb_spec opcode "RETURN") as [-> | H2];
    [simpl; destruct (failed ex); reflexivity|].
  simpl. destruct (String.eqb opcode "REVERT"); simpl.
  - destruct (output_eq_int (output ex) panic1); simpl; auto.
  - reflexivity.
Qed.

Lemma kinds_exclusive (ex : Exec) :
  (is_candidate ex = true -> is_normal ex = false /\ is_stuck ex = false)
  /\ (is_normal ex = true -> is_stuck ex = false).
Proof.
  unfold is_candidate, is_normal, is_stuck, halts.
  destruct (current_opcode ex) as [opcode|]; [|auto].
  destruct (String.eqb_spec opcode "STOP") as [-> | H1];
    [simpl; destruct (failed ex); simpl; auto; discriminate|].
  destruct (String.eqb_spec opcode "RETURN") as [-> | H2];
    [simpl; destruct (failed ex); simpl; auto; discriminate|].
  simpl. destruct (String.eqb opcode "REVERT"); simpl; auto; split; discriminate.
Qed.

(** What one iteration does to the tally and to the world. *)
Lemma classify_inv (env : Env) (args : Args) (t : Tally) (idx : nat) (ex : Exec)
    (w w' : World) (t' : Tally) :
  classify env args t idx ex w = inr (t', w') ->
  is_Some (current_opcode ex)
  /\ normal t' = (normal t + if is_normal ex then 1 else 0)%nat
  /\ stuck t' = stuck t ++ stuck_from idx [ex]
  /\ (exists new, models t' = models t ++ new /\
        forall e, In e new -> is_candidate ex = true /\ e.1.2 = idx /\ e.2 = ex)
  /\ (if is_candidate ex
      then exists post, events w' = events w ++ EvCheck (solver ex) :: post
                        /\ verdicts post = []
      else w' = w).
Proof.
  intros H. pose proof (classify_cases env args t idx ex w) as Hc.
  pose proof (kinds_exclusive ex) as [Hx1 Hx2].
  assert (Hnil : forall l : list Entry, exists new : list Entry,
             l = l ++ new /\ forall e, In e new ->
               is_candidate ex = true /\ e.1.2 = idx /\ e.2 = ex).
  { intros l. exists []. rewrite app_nil_r. split; [reflexivity | intros e []]. }
  destruct (current_opcode ex) as [opcode|] eqn:Hop; [|congruence].
  split; [eauto|]. cbn [stuck_from]. rewrite Hop. cbn [default]. rewrite app_nil_r.
  destruct (is_candidate ex) eqn:Hcand.
  - destruct (Hx1 eq_refl) as [-> ->].
    destruct (gen_model_total env args (models t) idx ex w)
      as (ms & w1 & post & Hg & Hev & Hvp & Hms).
    rewrite Hc in H. erewrite bind_eq in H by exact Hg. run_prims.
    injection H as <- <-. cbn [normal models stuck]. rewrite Nat.add_0_r, app_nil_r.
    repeat split; auto.
    + destruct Hms as [-> | [m ->]]; [apply Hnil|].
      exists [(m, idx, ex)]. split; [reflexivity|].
      intros e [<- | []]. auto.
    + eauto.
  - destruct (is_normal ex) eqn:Hn.
    + rewrite (Hx2 eq_refl) in *. rewrite Hc in H. injection H as <- <-.
      cbn [normal models stuck]. rewrite app_nil_r. repeat split; auto. lia.
    + destruct (is_stuck ex) eqn:Hs.
      * rewrite Hc in H. injection H as <- <-. cbn [normal models stuck].
        rewrite Nat.add_0_r. repeat split; auto.
      * destruct Hc as [_ Hc]. rewrite Hc in H. injection H as <- <-.
        rewrite Nat.add_0_r, app_nil_r. repeat split; auto.
Qed.

(** The loop of [run] over the terminal states: the count of normal
    states, the stuck entries, the entries of [models], and the events. *)
Lemma classify_all_inv (env : Env) (args : Args) (exs : list Exec) :
  forall (t : Tally) (idx : nat) (w w' : World) (t' : Tally),
  classify_all env args t idx exs w = inr (t', w') ->
  Forall (fun ex => is_Some (current_opcode ex)) exs
  /\ normal t' = (normal t + length (filter (fun ex => is_normal ex = true) exs))%nat
  /\ stuck t' = stuck t ++ stuck_from idx exs
  /\ (exists new, models t' = models t ++ new /\
        forall e, In e new ->
          is_candidate e.2 = true /\ (idx <= e.1.2)%nat /\ exs !! (e.1.2 - idx)%nat = Some e.2)
  /\ (exists post, events w' = events w ++ post /\ verdicts post = []).
Proof.
  induction exs as [| ex rest IH]; intros t idx w w' t' H.
  - cbn in H. run_prims. injection H as <- <-.
    simpl. rewrite Nat.add_0_r, !app_nil_r. repeat split; auto.
    + exists []. rewrite app_nil_r. split; [reflexivity | intros e []].
    + exists []. rewrite app_nil_r. auto.
  - cbn [classify_all] in H. apply bind_inr in H as (t1 & w1 & H1 & H2).
    apply classify_inv in H1 as (Hop & Hn & Hs & (new1 & Hm1 & Hnew1) & Hev1).
    apply IH in H2 as (Hops & Hn2 & Hs2 & (new2 & Hm2 & Hnew2) & (post2 & Hev2 & Hv2)).
    split; [constructor; assumption|].
    split.
    { rewrite Hn2, Hn. rewrite filter_cons.
      destruct (decide (is_normal ex = true)) as [-> | Hne].
      - simpl. lia.
      - destruct (is_normal ex); [congruence|]. lia. }
    split.
    { rewrite Hs2, Hs. cbn [stuck_from]. rewrite app_nil_r, <- app_assoc. reflexivity. }
    split.
    { exists (new1 ++ new2). split; [rewrite Hm2, Hm1, <- app_assoc; reflexivity|].
      intros e He. apply in_app_or in He as [He | He].
      - destruct (Hnew1 e He) as (Hc & Hi & He2). rewrite Hi, He2.
        rewrite Nat.sub_diag. auto.
      - destruct (Hnew2 e He) as (Hc & Hi & He2). split; [exact Hc|]. split; [lia|].
        replace (e.1.2 - idx)%nat with (S (e.1.2 - S idx)) by lia. exact He2. }
    destruct (is_candidate ex).
    + destruct Hev1 as (post1 & Hev1 & Hv1).
      exists ((EvCheck (solver ex) :: post1) ++ post2). split.
      * rewrite Hev2, Hev1, <- app_assoc. reflexivity.
      * rewrite verdicts_app. cbn [verdicts]. now rewrite Hv1, Hv2.
    + subst w1. eauto.
Qed.

Lemma stuck_from_nil (exs : list Exec) (idx : nat) :
  stuck_from idx exs = [] <-> forall ex, In ex exs -> is_stuck ex = false.
Proof.
  revert idx. induction exs as [| ex rest IH]; intros idx; simpl.
  - split; [intros _ ex [] | reflexivity].
  - destruct (is_stuck ex) eqn:Hs; simpl.
    + split; [discriminate|]. intros H. specialize (H ex (or_introl eq_refl)). congruence.
    + rewrite IH. split.
      * intros H e [<- | He]; auto.
      * intros H e He. apply H. now right.
Qed.


Lemma filter_normal_pos (exs : list Exec) :
  (0 < length (filter (fun ex => is_normal ex = true) exs))%nat <->
  exists ex, In ex exs /\ is_normal ex = true.
Proof.
  induction exs as [| ex rest IH].
  - simpl. split; [lia | intros (? & [] & _)].
  - rewrite filter_cons. destruct (decide (is_normal ex = true)) as [Hn | Hn].
    + simpl. split; [intros _; exists ex; auto | lia].
    + rewrite IH. split.
      * intros (e & He & Hne). exists e. split; [now right | exact Hne].
      * intros (e & [<- | He] & Hne); [contradiction | eauto].
Qed.

(** ** Events of the driver's computations *)

Lemma quiet_ret {A : Type} (a : A) : quiet (mret a : M A).
Proof.
  intros w b w' H. apply ret_inr in H as [_ <-]. exists []. now rewrite app_nil_r.
Qed.

Lemma quiet_bind {A B : Type} (m : M A) (f : A -> M B) :
  quiet m -> (forall a, quiet (f a)) -> quiet (m ≫= f).
Proof.
  intros Hm Hf w b w' H. apply bind_inr in H as (a & w1 & H1 & H2).
  destruct (Hm _ _ _ H1) as (p1 & E1 & V1). destruct (Hf _ _ _ _ H2) as (p2 & E2 & V2).
  exists (p1 ++ p2). split.
  - rewrite E2, E1, <- app_assoc. reflexivity.
  - rewrite verdicts_app, V1, V2. reflexivity.
Qed.

Lemma quiet_raise {A : Type} (e : Exn) : quiet (raise e : M A).
Proof. intros w a w' H. discriminate. Qed.

Lemma quiet_emit (e : Event) : verdicts [e] = [] -> quiet (emit e).
Proof.
  intros Hv w a w' H. unfold emit in H. injection H as _ <-. simpl. eauto.
Qed.

Lemma quiet_when (b : bool) (m : M unit) : quiet m -> quiet (when b m).
Proof. intros H. destruct b; [exact H | apply quiet_ret]. Qed.

Lemma quiet_for_each {A : Type} (f : A -> M unit) (l : list A) :
  (forall a, quiet (f a)) -> quiet (for_each f l).
Proof.
  intros Hf. induction l as [| x r IH]; simpl.
  - apply quiet_ret.
  - apply quiet_bind; [apply Hf | intros _; exact IH].
Qed.

Lemma quiet_lift {A : Type} (r : Res A) : quiet (lift r).
Proof.
  intros w a w' H. unfold lift in H. destruct r; [discriminate|].
  injection H as _ <-. exists []. now rewrite app_nil_r.
Qed.

Lemma quiet_alloc {A : Type} (f : nat -> A * nat) : quiet (alloc f).
Proof.
  intros w a w' H. unfold alloc in H. destruct (f (n_objects w)).
  injection H as _ <-. exists []. simpl. now rewrite app_nil_r.
Qed.

Lemma quiet_write_file (fname content : string) : quiet (write_file fname content).
Proof.
  intros w a w' H. unfold write_file in H. injection H as _ <-. simpl. eauto.
Qed.

Create HintDb quiet.
#[local] Hint Resolve quiet_ret quiet_raise quiet_when quiet_for_each quiet_lift
  quiet_alloc quiet_write_file : quiet.

(** Proves that a computation built from the quiet ones is quiet. *)
Ltac quiet_step :=
  lazymatch goal with
  | |- quiet (@mbind _ _ _ _ _ _) => apply quiet_bind; [|intro]
  | |- quiet (@mret _ _ _ _) => apply quiet_ret
  | |- quiet (raise _) => apply quiet_raise
  | |- quiet (lift _) => apply quiet_lift
  | |- quiet (alloc _) => apply quiet_alloc
  | |- quiet (write_file _ _) => apply quiet_write_file
  | |- quiet (when _ _) => apply quiet_when
  | |- quiet (for_each _ _) => apply quiet_for_each; intro
  | |- quiet (emit _) => apply quiet_emit; reflexivity
  | |- quiet (match ?x with _ => _ end) => destruct x
  end.

Ltac quiet_tac := repeat quiet_step.

Lemma quiet_print_model (env : Env) (args : Args) (total : nat) (e : Entry) :
  quiet (print_model env args total e).
Proof. destruct e as [[model idx] ex]. unfold print_model, print_path, print. quiet_tac. Qed.

Lemma quiet_print_stuck (args : Args) (total : nat) (e : string * nat * Exec) :
  quiet (print_stuck args total e).
Proof. destruct e as [[opcode idx] ex]. unfold print_stuck, print_path, print. quiet_tac. Qed.

Lemma quiet_print_post_state (args : Args) (total : nat) (e : nat * Exec) :
  quiet (print_post_state args total e).
Proof. destruct e as [idx ex]. unfold print_post_state, print. quiet_tac. Qed.

Lemma quiet_mk_test_exec (args : Args) (options : Options) (setup_ex : Exec)
    (cd_ : list (option Word)) :
  quiet (mk_test_exec args options setup_ex cd_).
Proof. unfold mk_test_exec. quiet_tac. Qed.

Lemma quiet_classify_all (env : Env) (args : Args) (t : Tally) (idx : nat)
    (exs : list Exec) :
  quiet (classify_all env args t idx exs).
Proof. intros w a w' H. now apply classify_all_inv in H as (_ & _ & _ & _ & H). Qed.

(** Every stuck entry is reported. *)
Lemma for_each_print_stuck (args : Args) (total : nat) (l : list (string * nat * Exec))
    (w w' : World) :
  for_each (print_stuck args total) l w = inr (tt, w') ->
  exists post, events w' = events w ++ post /\ verdicts post = [] /\
    forall e, In e l -> In (EvPrint (LNotSupported e.1.1 (error e.2))) post.
Proof.
  revert w. induction l as [| [[opcode idx] ex] r IH]; intros w H; cbn [for_each] in H.
  - apply ret_inr in H as [_ <-]. exists []. rewrite app_nil_r. repeat split; auto.
  - apply bind_inr in H as ([] & w1 & H1 & H2).
    unfold print_stuck in H1. apply bind_inr in H1 as ([] & w0 & H0 & H1).
    unfold print, emit in H0. injection H0 as <-.
    assert (Hq : quiet (print_path args total idx ex))
      by (unfold print_path, print; quiet_tac).
    destruct (Hq _ _ _ H1) as (p1 & E1 & V1). cbn [events] in E1.
    destruct (IH _ H2) as (p2 & E2 & V2 & Hin).
    exists ((EvPrint (LNotSupported opcode (error ex)) :: p1) ++ p2). split.
    { rewrite E2, E1, <- !app_assoc. reflexivity. }
    split.
    { rewrite verdicts_app. cbn [verdicts]. now rewrite V1, V2. }
    intros e [<- | He]; apply in_or_app; [left; left; reflexivity | right; auto].
Qed.

(** The steps of [run]. *)
Lemma run_inv (env : Env) (setup_ex : Exec) (abi : list AbiItem) (funname funsig : string)
    (funselector : Z) (arrlen : gmap string Z) (args : Args) (options : Options)
    (w w' : World) (code : Z) :
  run env setup_ex abi funname funsig funselector arrlen args options w = inr (code, w') ->
  exists t wa ex0 wb tally wc pre post,
    mk_calldata args arrlen abi funname funselector = inr t /\
    mk_test_exec args options setup_ex (t_cd t) wa = inr (ex0, wb) /\
    classify_all env args Tally_init 0 (sevm_run env options ex0).1 wb = inr (tally, wc) /\
    code = (if passed_of tally then 0 else 1) /\
    events w' = events w ++ pre
                  ++ EvPrint (LResult (passed_of tally) funsig (normal tally)
                                (length (sevm_run env options ex0).1) (dyn_param_size t))
                  :: post /\
    verdicts pre = [] /\ verdicts post = [] /\
    forall e, In e (stuck tally) -> In (EvPrint (LNotSupported e.1.1 (error e.2))) post.
Proof.
  unfold run. intros H.
  apply bind_inr in H as (t & w0 & Ht & H).
  unfold lift in Ht. destruct (mk_calldata args arrlen abi funname funselector) as [|t0] eqn:Hcd;
    [discriminate|]. injection Ht as <- <-.
  apply bind_inr in H as ([] & wa & Hwarn & H).
  apply bind_inr in H as (ex0 & wb & Hex & H).
  destruct (sevm_run env options ex0) as [exs steps] eqn:Hrun.
  apply bind_inr in H as (tally & wc & Hcl & H).
  apply bind_inr in H as ([] & w1 & Hres & H).
  apply bind_inr in H as ([] & w2 & Hpm & H).
  apply bind_inr in H as ([] & w3 & Hps & H).
  apply bind_inr in H as ([] & w4 & Hpp & H).
  apply bind_inr in H as ([] & w5 & Hlog & H).
  apply ret_inr in H as [Hcode Hw]. subst code w'.
  assert (Q1 : quiet (for_each (fun s => print (LText s)) (warnings t0)))
    by (unfold print; quiet_tac).
  destruct (Q1 _ _ _ Hwarn) as (p1 & E1 & V1).
  destruct (quiet_mk_test_exec _ _ _ _ _ _ _ Hex) as (p2 & E2 & V2).
  destruct (quiet_classify_all _ _ _ _ _ _ _ _ Hcl) as (p3 & E3 & V3).
  unfold print, emit in Hres. injection Hres as <-.
  assert (Q4 : quiet (for_each (print_model env args (length exs)) (models tally)))
    by (apply quiet_for_each; intros; apply quiet_print_model).
  destruct (Q4 _ _ _ Hpm) as (p4 & E4 & V4). cbn [events] in E4.
  destruct (for_each_print_stuck _ _ _ _ _ Hps) as (p5 & E5 & V5 & Hin5).
  assert (Q6 : quiet (when (2 <=? verbose args)
                        (for_each (print_post_state args (length exs))
                                  (zip (seq 0 (length exs)) exs))))
    by (apply quiet_when, quiet_for_each; intros; apply quiet_print_post_state).
  destruct (Q6 _ _ _ Hpp) as (p6 & E6 & V6).
  assert (Q7 : quiet (match a_log args with
                      | Some f => if String.eqb f "" then mret tt else write_file f steps
                      | None => mret tt
                      end)) by quiet_tac.
  destruct (Q7 _ _ _ Hlog) as (p7 & E7 & V7).
  exists t0, wa, ex0, wb, tally, wc, (p1 ++ p2 ++ p3), (p4 ++ p5 ++ p6 ++ p7).
  rewrite Hrun. cbn [fst]. repeat split; auto.
  - rewrite E7, E6, E5, E4, E3, E2, E1, <- !app_assoc. simpl. reflexivity.
  - rewrite !verdicts_app, V1, V2, V3. reflexivity.
  - rewrite !verdicts_app, V4, V5, V6, V7. reflexivity.
  - intros e He. apply in_or_app. right. apply in_or_app. left. auto.
Qed.

(** ** The verdict of a test and the exit code *)

Lemma passed_of_iff (t : Tally) :
  passed_of t = true <-> (0 < normal t)%nat /\ models t = [] /\ stuck t = [].
Proof.
  unfold passed_of. rewrite !andb_true_iff, Nat.ltb_lt, !Nat.eqb_eq.
  split; intros [[H1 H2] H3] || intros (H1 & H2 & H3).
  - repeat split; auto; [destruct (models t) | destruct (stuck t)]; auto; discriminate.
  - subst. rewrite H2, H3. auto.
Qed.

(** What [run] prints and returns: one result line, whose flag goes with
    the exit code. *)
Lemma run_verdicts (env : Env) (setup_ex : Exec) (abi : list AbiItem)
    (funname funsig : string) (funselector : Z) (arrlen : gmap string Z) (args : Args)
    (options : Options) (w w' : World) (code : Z) :
  run env setup_ex abi funname funsig funselector arrlen args options w = inr (code, w') ->
  exists passed : bool,
    verdicts (events w') = verdicts (events w) ++ [passed] /\
    code = (if passed then 0 else 1).
Proof.
  intros H. apply run_inv in H
    as (t & wa & ex0 & wb & tally & wc & pre & post & _ & _ & _ & Hc & Hev & Vp & Vq & _).
  exists (passed_of tally). split; [|exact Hc].
  rewrite Hev, !verdicts_app. cbn [verdicts]. now rewrite Vp, Vq.
Qed.

Lemma quiet_mk_exec (pgm_ code_ storage_ : PyObj) (balance_ : list (Word * Word))
    (calldata_ : list (option Word)) (callvalue_ caller_ this_ : Word) (symbolic_ : bool)
    (solver_ : Solver) :
  quiet (mk_exec pgm_ code_ storage_ balance_ calldata_ callvalue_ caller_ this_
           symbolic_ solver_).
Proof. unfold mk_exec, new_list, new_dict. quiet_tac. Qed.

Lemma quiet_run_setUp (env : Env) (args : Args) (setup_sig : option Z) (options : Options)
    (setup_ex : Exec) :
  quiet (run_setUp env args setup_sig options setup_ex).
Proof. unfold run_setUp, print. quiet_tac. Qed.

Lemma quiet_setup (env : Env) (hexcode : string) (abi : list AbiItem) (srcmap : list string)
    (srcs : list (string * Z)) (args : Args) (setup_sig : option Z) (options : Options) :
  quiet (setup env hexcode abi srcmap srcs args setup_sig options).
Proof.
  unfold setup, new_list, new_dict. quiet_tac.
  - apply quiet_mk_exec.
  - apply quiet_run_setUp.
Qed.

Lemma count_of_app (b : bool) (l1 l2 : list bool) :
  count_of b (l1 ++ l2) = (count_of b l1 + count_of b l2)%nat.
Proof. unfold count_of. now rewrite filter_app, length_app. Qed.

Lemma count_of_total (vs : list bool) :
  (count_of true vs + count_of false vs)%nat = length vs.
Proof.
  unfold count_of. induction vs as [| [] vs IH]; [reflexivity | |];
    rewrite !filter_cons; simpl; lia.
Qed.

Lemma count_false_zero (vs : list bool) :
  count_of false vs = 0%nat <-> Forall (fun v => v = true) vs.
Proof.
  unfold count_of. induction vs as [| [] vs IH].
  - split; [constructor | reflexivity].
  - rewrite filter_cons. simpl. rewrite IH. split; [constructor; auto|].
    now inversion 1.
  - rewrite filter_cons. simpl. split; [discriminate|]. inversion 1. discriminate.
Qed.

Lemma counts_foldM {B : Type} (f : nat * nat -> B -> M (nat * nat)) (l : list B) :
  (forall counts x, counts_step (f counts x) counts) ->
  forall counts, counts_step (foldM f counts l) counts.
Proof.
  intros Hf. induction l as [| x r IH]; intros counts w c w' H; cbn [foldM] in H.
  - apply ret_inr in H as [<- <-]. exists []. rewrite app_nil_r.
    unfold count_of. simpl. split; [reflexivity | lia].
  - apply bind_inr in H as (c1 & w1 & H1 & H2).
    destruct (Hf _ _ _ _ _ H1) as (v1 & E1 & P1 & F1).
    destruct (IH _ _ _ _ H2) as (v2 & E2 & P2 & F2).
    exists (v1 ++ v2). rewrite E2, E1, <- app_assoc, !count_of_app.
    split; [reflexivity | lia].
Qed.

Lemma counts_run_funsig (env : Env) (args : Args) (options : Options)
    (arrlen : gmap string Z) (c : Contract) (setup_ex : Exec) (counts : nat * nat)
    (funsig : string) :
  counts_step (run_funsig env args options arrlen c setup_ex counts funsig) counts.
Proof.
  intros w c' w' H. unfold run_funsig in H.
  destruct (lookup_sig funsig (methodIdentifiers c)) as [sel|]; [|discriminate].
  apply bind_inr in H as (code & w1 & Hrun & H).
  apply ret_inr in H as [<- <-].
  apply run_verdicts in Hrun as (passed & Hev & ->).
  exists [passed]. split; [exact Hev|].
  unfold count_of. destruct passed; simpl; rewrite ?filter_cons; simpl; lia.
Qed.

Lemma counts_run_contract (env : Env) (args : Args) (options : Options)
    (arrlen : gmap string Z) (totals : nat * nat) (c : Contract) :
  counts_step (run_contract env args options arrlen totals c) totals.
Proof.
  intros w c' w' H. unfold run_contract in H.
  destruct (filter _ _) as [| f0 fs] eqn:Hf.
  - apply ret_inr in H as [<- <-]. exists []. rewrite app_nil_r.
    unfold count_of. simpl. split; [reflexivity | lia].
  - apply bind_inr in H as ([] & w1 & Hp & H).
    apply bind_inr in H as (setup_ex & w2 & Hs & H).
    apply bind_inr in H as (nums & w3 & Hn & H).
    apply bind_inr in H as ([] & w4 & Hq & H).
    apply ret_inr in H as [<- <-].
    assert (Q1 : quiet (print (LRunning (length (f0 :: fs)) (c_filename c +:+ ":" +:+ c_name c))))
      by (unfold print; quiet_tac).
    destruct (Q1 _ _ _ Hp) as (p1 & E1 & V1).
    destruct (quiet_setup _ _ _ _ _ _ _ _ _ _ _ Hs) as (p2 & E2 & V2).
    destruct (counts_foldM _ (f0 :: fs)
                (counts_run_funsig env args options arrlen c setup_ex) _ _ _ _ Hn)
      as (vs & E3 & P3 & F3).
    assert (Q4 : quiet (print (LSummary nums.1 nums.2))) by (unfold print; quiet_tac).
    destruct (Q4 _ _ _ Hq) as (p4 & E4 & V4).
    exists vs. cbn [fst snd] in *.
    rewrite E4, verdicts_app, V4, app_nil_r, E3, E2, verdicts_app, V2,
      app_nil_r, E1, verdicts_app, V1, app_nil_r.
    split; [reflexivity | lia].
Qed.

(** [main]: when it returns, at least one test was run, and the code is 0
    exactly when every result line says passed. *)
Lemma main_verdicts (env : Env) (args : Args) (contracts : list Contract)
    (w w' : World) (c : Z) :
  main env args contracts w = inr (c, w') ->
  exists vs, verdicts (events w') = verdicts (events w) ++ vs /\ vs <> []
    /\ (c = 0 <-> Forall (fun v => v = true) vs).
Proof.
  unfold main. intros H.
  apply bind_inr in H as (arrlen & w0 & Ha & H).
  apply bind_inr in H as (totals & w1 & Ht & H).
  destruct (quiet_lift _ _ _ _ Ha) as (p0 & E0 & V0).
  destruct (counts_foldM _ contracts
              (counts_run_contract env args (options_of args) arrlen) _ _ _ _ Ht)
    as (vs & E1 & P1 & F1).
  simpl in P1, F1.
  destruct (Nat.eqb (totals.1 + totals.2) 0) eqn:Hz; [discriminate|].
  apply ret_inr in H as [<- <-]. apply Nat.eqb_neq in Hz.
  pose proof (count_of_total vs) as Htot.
  exists vs. rewrite E1, E0, verdicts_app, V0, app_nil_r.
  split; [reflexivity|]. split.
  - intros ->. simpl in Htot. unfold count_of in *. simpl in *. lia.
  - rewrite <- count_false_zero, <- F1.
    destruct (Nat.eqb_spec totals.2 0); split; intros; auto;
      try discriminate; try contradiction.
Qed.




(** C1, as the code has it. [run] prints the test as passed and returns 0
    exactly when some terminal state is normal (STOP or RETURN with
    [failed] unset), [models] holds no entry, and no terminal state is
    stuck. The status of the program is 0 exactly when [main] returns
    after at least one test, every one of them printed as passed: with no
    matching test, or after a fatal error, the status is not 0. *)
Theorem run_passes_iff (env : Env) (setup_ex : Exec) (abi : list AbiItem)
    (funname funsig : string) (funselector : Z) (arrlen : gmap string Z) (args : Args)
    (options : Options) (w w' : World) (code : Z) :
  run env setup_ex abi funname funsig funselector arrlen args options w = inr (code, w') ->
  (exists t wa ex0 wb tally wc,
     mk_calldata args arrlen abi funname funselector = inr t /\
     mk_test_exec args options setup_ex (t_cd t) wa = inr (ex0, wb) /\
     classify_all env args Tally_init 0 (sevm_run env options ex0).1 wb = inr (tally, wc) /\
     (code = 0 <->
        (exists ex, In ex (sevm_run env options ex0).1 /\ is_normal ex = true)
        /\ models tally = []
        /\ (forall ex, In ex (sevm_run env options ex0).1 -> is_stuck ex = false)) /\
     (code = 0 \/ code = 1) /\
     verdicts (events w') = verdicts (events w) ++ [bool_decide (code = 0)])
  /\ (forall args' contracts w0,
        exit_status (main env args' contracts w0) = 0 <->
        exists w1 vs,
          main env args' contracts w0 = inr (0, w1) /\
          verdicts (events w1) = verdicts (events w0) ++ vs /\
          vs <> [] /\ Forall (fun v => v = true) vs)
  /\ (forall args' contracts w0 c w1 vs,
        main env args' contracts w0 = inr (c, w1) ->
        verdicts (events w1) = verdicts (events w0) ++ vs ->
        Forall (fun v => v = true) vs -> c = 0).
Proof.
  intros H. split; [|split].
  - apply run_inv in H
      as (t & wa & ex0 & wb & tally & wc & pre & post & Hcd & Hex & Hcl & Hc & Hev & Vp & Vq & _).
    exists t, wa, ex0, wb, tally, wc. repeat (split; [assumption|]).
    pose proof (classify_all_inv _ _ _ _ _ _ _ _ Hcl) as (_ & Hn & Hs & _).
    simpl in Hn, Hs.
    assert (Hp : passed_of tally = true <->
                 (exists ex, In ex (sevm_run env options ex0).1 /\ is_normal ex = true)
                 /\ models tally = []
                 /\ (forall ex, In ex (sevm_run env options ex0).1 -> is_stuck ex = false)).
    { rewrite passed_of_iff, Hn, Hs, filter_normal_pos, stuck_from_nil. reflexivity. }
    split; [|split].
    + rewrite <- Hp, Hc. destruct (passed_of tally); split; auto; discriminate.
    + rewrite Hc. destruct (passed_of tally); auto.
    + rewrite Hev, !verdicts_app. cbn [verdicts]. rewrite Vp, Vq, Hc.
      destruct (passed_of tally); reflexivity.
  - intros args' contracts w0. split.
    + destruct (main env args' contracts w0) as [e | [c w1]] eqn:Hm; [discriminate|].
      simpl. intros ->.
      destruct (main_verdicts _ _ _ _ _ _ Hm) as (vs & Hv & Hne & Hiff).
      exists w1, vs. repeat split; auto. now apply Hiff.
    + intros (w1 & vs & -> & _). reflexivity.
  - intros args' contracts w0 c w1 vs Hm Hv Hall.
    destruct (main_verdicts _ _ _ _ _ _ Hm) as (vs' & Hv' & _ & Hiff).
    rewrite Hv in Hv'. apply app_inv_head in Hv'. subst vs'. now apply Hiff.
Qed.


(** The witness of C1: a test whose only terminal state is normal. *)
Lemma run_passes_iff_witness :
  run Demo.env_normal (Demo.exec_at "STOP" false None) [] "test_ok" "test_ok()" 0x12345678
      ∅ Demo.args (options_of Demo.args) World_init
    = inr (0, Demo.world_after (LResult true "test_ok()" 1 1 []) 9)
  /\ exit_status (main Demo.env_normal Demo.args [] World_init) <> 0.
Proof.
  assert (H : run Demo.env_normal (Demo.exec_at "STOP" false None) [] "test_ok" "test_ok()"
                0x12345678 ∅ Demo.args (options_of Demo.args) World_init
              = inr (0, Demo.world_after (LResult true "test_ok()" 1 1 []) 9))
    by (vm_compute; reflexivity).
  split; [exact H|].
  destruct (run_passes_iff _ _ _ _ _ _ _ _ _ _ _ _ H) as (_ & Hmain & _).
  intros Hz. apply Hmain in Hz as (w1 & vs & Hm & _). discriminate.
Defined.

(** C1 as stated fails: with no matching test every test passes, none
    being run, and the status of the program is 1. *)
Lemma main_without_tests_fails :
  main Demo.env_normal Demo.args [] World_init
    = inl (ValueError "No matching tests found" "test")
  /\ exit_status (main Demo.env_normal Demo.args [] World_init) = 1
  /\ Forall (fun c : Contract => methodIdentifiers c = []) [].
Proof. repeat split; constructor. Qed.





(** ** setUp *)

Lemma for_each_print_ok (f : Exec -> Line) (l : list Exec) (w : World) :
  exists w', for_each (fun ex => print (f ex)) l w = inr (tt, w').
Proof.
  revert w. induction l as [| x r IH]; intros w; cbn [for_each].
  - eexists. reflexivity.
  - unfold mbind, M_bind, print, emit. apply IH.
Qed.

(** C4. With a [setUp] selector, the part of [setup] that runs [setUp()]
    raises 'multiple paths exist in setUp()' when the interpreter does not
    return exactly one terminal state, raises 'setUp() failed' when the
    opcode of that state is neither STOP nor RETURN or its [failed] flag is
    set, and returns that state otherwise. *)
Theorem run_setUp_fatal_iff (env : Env) (args : Args) (setup_sig : option Z)
    (options : Options) (setup_ex : Exec) (w : World) :
  truthy_sig setup_sig = true ->
  (4 <= length (calldata setup_ex))%nat ->
  let ex1 := with_calldata setup_ex
               (store_bytes (calldata setup_ex) 0 4 (mkBitVecVal (default 0 setup_sig) 32)) in
  let exs := (sevm_run env options ex1).1 in
  (length exs <> 1%nat ->
     run_setUp env args setup_sig options setup_ex w
       = inl (ValueError "multiple paths exist in setUp()" ""))
  /\ (forall ex opcode, exs = [ex] -> current_opcode ex = Some opcode ->
        (((opcode <> "STOP" /\ opcode <> "RETURN") \/ failed ex = true) ->
           run_setUp env args setup_sig options setup_ex w
             = inl (ValueError "setUp() failed" ""))
        /\ ((opcode = "STOP" \/ opcode = "RETURN") /\ failed ex = false ->
              exists w', run_setUp env args setup_sig options setup_ex w = inr (ex, w'))).
Proof.
  intros Hsig Hlen ex1 exs. unfold run_setUp. rewrite Hsig.
  unfold wstore. destruct (decide (0 + 4 <= length (calldata setup_ex))%nat) as [_ | Hn];
    [|simpl in Hn; lia].
  erewrite bind_eq by (unfold lift; reflexivity). fold ex1. subst exs.
  destruct (sevm_run env options ex1) as [exs steps]. cbn [fst].
  split.
  - intros Hne. apply Nat.eqb_neq in Hne. rewrite Hne. cbn [negb].
    destruct (debug args); cbn [when].
    + destruct (for_each_print_ok LExec exs w) as [w' Hp].
      erewrite bind_eq by exact Hp. reflexivity.
    + reflexivity.
  - intros ex opcode -> Hop. cbn [length Nat.eqb negb lookup list_lookup]. rewrite Hop.
    split.
    + intros [[H1 H2] | Hf].
      * apply String.eqb_neq in H1, H2. rewrite H1, H2. reflexivity.
      * rewrite Hf, orb_true_r. reflexivity.
    + intros [Hh ->]. rewrite orb_false_r.
      assert (Hb : negb (String.eqb opcode "STOP") && negb (String.eqb opcode "RETURN") = false).
      { destruct Hh as [-> | ->]; reflexivity. }
      rewrite Hb. unfold when, print, emit, mbind, M_bind, mret, M_ret.
      destruct (2 <=? verbose args); eexists; reflexivity.
Qed.

(** The witness of C4: [setUp()] ends in one normal state, which is
    returned. *)
Lemma run_setUp_fatal_iff_witness :
  exists w',
    run_setUp Demo.env_normal Demo.args (Some 0x0a9254e4) (options_of Demo.args)
      (Demo.exec_at "STOP" false None) World_init
    = inr (Demo.exec_at "STOP" false None, w').
Proof.
  apply (proj2 (run_setUp_fatal_iff Demo.env_normal Demo.args (Some 0x0a9254e4)
                  (options_of Demo.args) (Demo.exec_at "STOP" false None) World_init
                  eq_refl (le_n 4))
           (Demo.exec_at "STOP" false None) "STOP" eq_refl eq_refl).
  split; [left|]; reflexivity.
Defined.

(** ** Source maps *)

Lemma int_or_ok (field : string) (prev : Z) :
  int_field_ok field ->
  exists z, int_or field prev = inr z
    /\ (field = "" -> z = prev) /\ (field <> "" -> py_int field = inr z).
Proof.
  unfold int_or. intros [-> | [z Hz]].
  - exists prev. simpl. repeat split; auto. congruence.
  - destruct (String.eqb_spec field "") as [-> | Hne]; simpl.
    + exists prev. repeat split; auto. congruence.
    + exists z. repeat split; auto. congruence.
Qed.

(** One entry, with no source file known. *)
Lemma srcmap_step_ok (env : Env) (target : string) (v : SrcVars) (ops : list Opcode)
    (idx : nat) (sm_ : string) (o : Opcode) :
  entry_ok sm_ ->
  (srcmap_field sm_ 2 <> "" \/ v_srcidx v <> None) ->
  ops !! idx = Some o ->
  exists v' m,
    srcmap_step env target ∅ (v, ops) (idx, sm_)
      = inr (v', <[idx := {| op := op o; sm := Some m |}]> ops)
    /\ v_jump v' = sm_jump m /\ v_mdepth v' = sm_mdepth m /\ v_srcidx v' <> None
    /\ sm_srctext m = "<generated>"
    /\ sm_jump m = (if String.eqb (srcmap_field sm_ 3) "" then v_jump v
                    else srcmap_field sm_ 3)
    /\ (srcmap_field sm_ 4 = "" -> sm_mdepth m = v_mdepth v)
    /\ (srcmap_field sm_ 4 <> "" -> py_int (srcmap_field sm_ 4) = inr (sm_mdepth m)).
Proof.
  intros (H0 & H1 & H2 & H4) Hsrc Ho. unfold srcmap_step.
  destruct (int_or_ok _ (v_start v) H0) as (start & -> & _).
  destruct (int_or_ok _ (v_length v) H1) as (len & -> & _).
  destruct (int_or_ok _ (v_mdepth v) H4) as (mdepth & Hm & Hm1 & Hm2).
  cbn [mbind Res_bind].
  assert (Hidx : exists srcidx,
             (if negb (String.eqb (srcmap_field sm_ 2) "") then py_int (srcmap_field sm_ 2)
              else match v_srcidx v with
                   | Some i => inr i
                   | None => inl (UnboundLocalError "srcidx")
                   end) = inr srcidx).
  { destruct (String.eqb_spec (srcmap_field sm_ 2) "") as [He | Hne]; simpl.
    - destruct Hsrc as [Hc | Hc]; [congruence|].
      destruct (v_srcidx v); [eauto | congruence].
    - destruct H2 as [He | [z Hz]]; [congruence | eauto]. }
  destruct Hidx as [srcidx ->]. cbn [mbind Res_bind]. rewrite Hm. cbn [mbind Res_bind].
  rewrite lookup_empty. cbn [mbind Res_bind]. rewrite Ho.
  eexists _, _. split; [reflexivity|]. cbn.
  repeat split; auto.
  destruct (String.eqb (srcmap_field sm_ 3) ""); reflexivity.
Qed.

(** The loop of [add_srcmap] from instruction [idx0] on. *)
Lemma srcmap_fold_ok (env : Env) (target : string) (l : list string) :
  forall (idx0 : nat) (v : SrcVars) (ops : list Opcode),
  (idx0 + length l <= length ops)%nat ->
  Forall entry_ok l ->
  (v_srcidx v <> None \/ forall sm0, l !! 0%nat = Some sm0 -> srcmap_field sm0 2 <> "") ->
  exists v' ops',
    foldlM (srcmap_step env target ∅) (v, ops) (zip (seq idx0 (length l)) l)
      = inr (v', ops')
    /\ length ops' = length ops
    /\ (forall i, (i < idx0 \/ idx0 + length l <= i)%nat -> ops' !! i = ops !! i)
    /\ forall k sm_, l !! k = Some sm_ ->
         exists o m p,
           ops !! (idx0 + k)%nat = Some o
           /\ ops' !! (idx0 + k)%nat = Some {| op := op o; sm := Some m |}
           /\ sm_srctext m = "<generated>"
           /\ match k with
              | O => sm_jump p = v_jump v /\ sm_mdepth p = v_mdepth v
              | S k' => (o' ← ops' !! (idx0 + k')%nat; sm o') = Some p
              end
           /\ sm_jump m = (if String.eqb (srcmap_field sm_ 3) "" then sm_jump p
                           else srcmap_field sm_ 3)
           /\ (srcmap_field sm_ 4 = "" -> sm_mdepth m = sm_mdepth p)
           /\ (srcmap_field sm_ 4 <> "" -> py_int (srcmap_field sm_ 4) = inr (sm_mdepth m)).
Proof.
  induction l as [| sm_ rest IH]; intros idx0 v ops Hlen Hok Hsrc.
  - exists v, ops. split; [reflexivity|]. split; [reflexivity|].
    split; [reflexivity|]. intros k s Hk. discriminate.
  - cbn [length seq zip zip_with foldlM]. cbn [length] in Hlen.
    inversion Hok as [| ? ? Hsm Hrest]; subst.
    destruct (lookup_lt_is_Some_2 ops idx0) as [o Ho]; [lia|].
    destruct (srcmap_step_ok env target v ops idx0 sm_ o Hsm) as
      (v1 & m1 & Hstep & Hj & Hd & Hs & Ht & Hjump & Hmd1 & Hmd2); [|exact Ho|].
    { destruct Hsrc as [H | H]; [now right | left; now apply H]. }
    rewrite Hstep. cbn [mbind Res_bind].
    destruct (IH (S idx0) v1 (<[idx0 := {| op := op o; sm := Some m1 |}]> ops))
      as (v' & ops' & Hfold & Hl' & Hframe & Hent).
    { rewrite length_insert. lia. }
    { exact Hrest. }
    { now left. }
    exists v', ops'. split; [exact Hfold|].
    rewrite length_insert in Hl'. split; [exact Hl'|].
    assert (Hat : ops' !! idx0 = Some {| op := op o; sm := Some m1 |}).
    { rewrite Hframe by lia. apply list_lookup_insert_eq. eapply lookup_lt_Some; eauto. }
    split.
    { intros i Hi. rewrite Hframe by lia. apply list_lookup_insert_ne. lia. }
    intros k s Hk. destruct k as [| k].
    + injection Hk as <-. rewrite Nat.add_0_r.
      exists o, m1, {| sm_srctext := ""; sm_jump := v_jump v; sm_mdepth := v_mdepth v |}.
      cbn [sm_jump sm_mdepth]. repeat split; auto.
    + cbn in Hk. destruct (Hent k s Hk) as (o2 & m2 & p2 & Ho2 & Ho2' & Ht2 & Hp2 & Hrule).
      rewrite list_lookup_insert_ne in Ho2 by lia.
      replace (S idx0 + k)%nat with (idx0 + S k)%nat in * by lia.
      destruct k as [| k'].
      * destruct Hp2 as [Hp2j Hp2d]. rewrite Hp2j, Hp2d, Hj, Hd in Hrule.
        exists o2, m2, m1. split; [exact Ho2|]. split; [exact Ho2'|]. split; [exact Ht2|].
        split; [|exact Hrule]. rewrite Nat.add_0_r, Hat. reflexivity.
      * exists o2, m2, p2. split; [exact Ho2|]. split; [exact Ho2'|]. split; [exact Ht2|].
        split; [|exact Hrule].
        replace (idx0 + S k')%nat with (S idx0 + k')%nat by lia. exact Hp2.
Qed.

(** C9, as the code has it. When the entries give decimal integers where
    they give a start, a length, a file id or a modifier depth, the first
    entry gives a file id, no source file is known (as [main] calls it)
    and there are at least as many opcodes as entries, [add_srcmap] ends
    without error and gives instruction [idx] the source map
    ('<generated>', jump, mdepth): jump and mdepth are the entry's when it
    gives them, and those of the instruction before (for the first one,
    '-' and 0) when it leaves them empty. Start, length and file id are
    locals of the loop and are not stored. *)
Theorem add_srcmap_inherits (env : Env) (target : string) (ops : list Opcode)
    (srcmap : list string) :
  (length srcmap <= length ops)%nat ->
  Forall entry_ok srcmap ->
  (forall sm0, srcmap !! 0%nat = Some sm0 -> srcmap_field sm0 2 <> "") ->
  exists ops',
    add_srcmap env target ops srcmap [] = inr ops'
    /\ length ops' = length ops
    /\ (forall i, (length srcmap <= i)%nat -> ops' !! i = ops !! i)
    /\ forall idx sm_, srcmap !! idx = Some sm_ ->
         exists o m p,
           ops !! idx = Some o
           /\ ops' !! idx = Some {| op := op o; sm := Some m |}
           /\ sm_srctext m = "<generated>"
           /\ previous_sm ops' idx = Some p
           /\ sm_jump m = (if String.eqb (srcmap_field sm_ 3) "" then sm_jump p
                           else srcmap_field sm_ 3)
           /\ (srcmap_field sm_ 4 = "" -> sm_mdepth m = sm_mdepth p)
           /\ (srcmap_field sm_ 4 <> "" -> py_int (srcmap_field sm_ 4) = inr (sm_mdepth m)).
Proof.
  intros Hlen Hok Hfirst. unfold add_srcmap, fpath_of. cbn [foldl].
  destruct (srcmap_fold_ok env target srcmap 0 SrcVars_init ops)
    as (v' & ops' & Hfold & Hl & Hframe & Hent); [lia | exact Hok | now right |].
  rewrite Hfold. cbn [mbind Res_bind mret Res_ret snd].
  exists ops'. split; [reflexivity|]. split; [exact Hl|]. split.
  { intros i Hi. apply Hframe. lia. }
  intros idx sm_ Hidx.
  destruct (Hent idx sm_ Hidx) as (o & m & p & Ho & Ho' & Ht & Hp & Hrule).
  cbn [Nat.add] in Ho, Ho'.
  destruct idx as [| i].
  - destruct Hp as [Hpj Hpd]. cbn [SrcVars_init v_jump v_mdepth] in Hpj, Hpd.
    rewrite Hpj, Hpd in Hrule.
    exists o, m, {| sm_srctext := ""; sm_jump := "-"; sm_mdepth := 0 |}.
    repeat (split; [first [assumption | reflexivity]|]). exact Hrule.
  - exists o, m, p. repeat (split; [first [assumption | reflexivity]|]). exact Hrule.
Qed.

(** The witness of C9: two entries, the second one empty. *)
Lemma add_srcmap_inherits_witness :
  exists ops',
    add_srcmap Demo.env_normal "."
      [{| op := ["PUSH1"; "80"]; sm := None |}; {| op := ["STOP"]; sm := None |}]
      ["0:10:0:i:1"; ""] [] = inr ops'
    /\ length ops' = 2%nat.
Proof.
  destruct (add_srcmap_inherits Demo.env_normal "."
              [{| op := ["PUSH1"; "80"]; sm := None |}; {| op := ["STOP"]; sm := None |}]
              ["0:10:0:i:1"; ""]) as (ops' & H & Hl & _).
  - simpl. lia.
  - constructor; [|constructor; [|constructor]].
    + repeat split; right; eexists; vm_compute; reflexivity.
    + repeat split; left; reflexivity.
  - intros sm0 [= <-]. vm_compute. discriminate.
  - exists ops'. split; [exact H | exact Hl].
Defined.

(** C9 as stated fails. A first entry with no file id makes [add_srcmap]
    raise (it reads the local [srcidx], which no assignment has bound: the
    initial value goes to [fileid]); and entries that differ in start,
    length and file id give the same source map, which has three fields. *)
Lemma add_srcmap_unbound_and_three_fields :
  add_srcmap Demo.env_normal "." [{| op := ["STOP"]; sm := None |}] ["0:10"] []
    = inl (UnboundLocalError "srcidx")
  /\ add_srcmap Demo.env_normal "." [{| op := ["STOP"]; sm := None |}] ["1:2:0:-:0"] []
     = inr [{| op := ["STOP"];
               sm := Some {| sm_srctext := "<generated>"; sm_jump := "-"; sm_mdepth := 0 |} |}]
  /\ add_srcmap Demo.env_normal "." [{| op := ["STOP"]; sm := None |}] ["5:9:3:-:0"] []
     = inr [{| op := ["STOP"];
               sm := Some {| sm_srctext := "<generated>"; sm_jump := "-"; sm_mdepth := 0 |} |}].
Proof. repeat split; vm_compute; reflexivity. Qed.

(** ** The state of the symbolic run *)

Lemma PyObj_ind' (P : PyObj -> Prop)
    (Hatom : forall a, P (PAtom a))
    (Hlist : forall id xs, Forall P xs -> P (PList id xs))
    (Hdict : forall id kvs, Forall (fun kv => P kv.2) kvs -> P (PDict id kvs)) :
  forall o, P o.
Proof.
  fix IH 1. intros [a | id xs | id kvs].
  - apply Hatom.
  - apply Hlist. induction xs as [| x r IHr]; constructor; [apply IH | exact IHr].
  - apply Hdict. induction kvs as [| [k x] r IHr]; constructor; [apply IH | exact IHr].
Qed.

Lemma copy_spec (o : PyObj) (n : nat) :
  same_items (copy o n).1 o
  /\ (n <= (copy o n).2)%nat
  /\ (top_id o <> None -> top_id (copy o n).1 = Some n /\ (copy o n).2 = S n).
Proof.
  destruct o; simpl; repeat split; auto; congruence.
Qed.

(** A deep copy has the value of the original, and all its containers are
    new. *)
Lemma deepcopy_spec (o : PyObj) :
  forall n,
    erase (deepcopy o n).1 = erase o
    /\ (n <= (deepcopy o n).2)%nat
    /\ Forall (fun i => (n <= i < (deepcopy o n).2)%nat) (ids (deepcopy o n).1).
Proof.
  induction o as [a | id xs IH | id kvs IH] using PyObj_ind'; intros n.
  - simpl. auto.
  - cbn [deepcopy].
    set (go := fix go (l : list PyObj) (n : nat) : list PyObj * nat :=
                 match l with
                 | [] => ([], n)
                 | x :: r =>
                     let '(x', n1) := deepcopy x n in
                     let '(r', n2) := go r n1 in (x' :: r', n2)
                 end).
    set (eg := fix go (l : list PyObj) : list PyObj :=
                 match l with
                 | [] => []
                 | x :: r => erase x :: go r
                 end).
    set (ig := fix go (l : list PyObj) : list nat :=
                 match l with
                 | [] => []
                 | x :: r => ids x ++ go r
                 end).
    assert (Hgo : forall m, eg (go xs m).1 = eg xs /\ (m <= (go xs m).2)%nat
                            /\ Forall (fun i => (m <= i < (go xs m).2)%nat) (ig (go xs m).1)).
    { induction IH as [| x r Hx _ IHr]; intros m; [simpl; auto|].
      cbn [go]. fold go. destruct (Hx m) as (E1 & L1 & F1).
      destruct (deepcopy x m) as [x' n1]. cbn [fst snd] in *.
      destruct (IHr n1) as (E2 & L2 & F2).
      destruct (go r n1) as [r' n2]. cbn [fst snd] in *.
      cbn [eg ig]. fold eg ig. rewrite E1, E2. split; [reflexivity|]. split; [lia|].
      apply Forall_app. split; eapply Forall_impl; eauto; simpl; intros; lia. }
    destruct (Hgo (S n)) as (E & L & F). destruct (go xs (S n)) as [xs' n'].
    cbn [fst snd erase ids] in *. fold eg ig. rewrite E. split; [reflexivity|]. split; [lia|].
    constructor; [lia|]. eapply Forall_impl; eauto. simpl. intros. lia.
  - cbn [deepcopy].
    set (go := fix go (l : list (Key * PyObj)) (n : nat) : list (Key * PyObj) * nat :=
                 match l with
                 | [] => ([], n)
                 | (k, x) :: r =>
                     let '(x', n1) := deepcopy x n in
                     let '(r', n2) := go r n1 in ((k, x') :: r', n2)
                 end).
    set (eg := fix go (l : list (Key * PyObj)) : list (Key * PyObj) :=
                 match l with
                 | [] => []
                 | (k, x) :: r => (k, erase x) :: go r
                 end).
    set (ig := fix go (l : list (Key * PyObj)) : list nat :=
                 match l with
                 | [] => []
                 | (_, x) :: r => ids x ++ go r
                 end).
    assert (Hgo : forall m, eg (go kvs m).1 = eg kvs /\ (m <= (go kvs m).2)%nat
                            /\ Forall (fun i => (m <= i < (go kvs m).2)%nat) (ig (go kvs m).1)).
    { induction IH as [| [k x] r Hx _ IHr]; intros m; [simpl; auto|].
      cbn [go]. fold go. cbn [snd] in Hx. destruct (Hx m) as (E1 & L1 & F1).
      destruct (deepcopy x m) as [x' n1]. cbn [fst snd] in *.
      destruct (IHr n1) as (E2 & L2 & F2).
      destruct (go r n1) as [r' n2]. cbn [fst snd] in *.
      cbn [eg ig]. fold eg ig. rewrite E1, E2. split; [reflexivity|]. split; [lia|].
      apply Forall_app. split; eapply Forall_impl; eauto; simpl; intros; lia. }
    destruct (Hgo (S n)) as (E & L & F). destruct (go kvs (S n)) as [kvs' n'].
    cbn [fst snd erase ids] in *. fold eg ig. rewrite E. split; [reflexivity|]. split; [lia|].
    constructor; [lia|]. eapply Forall_impl; eauto. simpl. intros. lia.
Qed.

(** One allocation in a chain of them. *)
Lemma alloc_bind {A B : Type} (f : nat -> A * nat) (k : A -> M B) (w : World)
    (a : A) (n : nat) :
  f (n_objects w) = (a, n) ->
  (alloc f ≫= k) w =
    k a {| events := events w; files := files w; n_contexts := n_contexts w;
           n_uuids := n_uuids w; n_objects := n |}.
Proof.
  intros H. unfold mbind, M_bind, alloc. rewrite H. reflexivity.
Qed.

Lemma arith_ADD_symbolic (options : Options) (x y : string) :
  arith_ADD options (BitVec x 256) (BitVec y 256) =
    if o_add options then BvAdd (BitVec x 256) (BitVec y 256)
    else App2 "evm_add" (BitVec x 256) (BitVec y 256).
Proof. reflexivity. Qed.

(** C10. The [Exec] that [run] builds for the symbolic test: [pgm] and
    [code] are new dicts with the very items of the setUp state's (shallow
    copies); [storage], [path], [log], [cnts], [sha3s], [storages] and
    [calls] have the values of the setUp state's and only new containers
    (deep copies); the balance of the setUp state is not carried over, the
    balance of [this] being the symbolic sum of the fresh words
    [this_balance] and [msg_value], the latter being the callvalue; [pc],
    the stack and memory, [jumpis] and [output] are in their initial
    state. *)
Theorem mk_test_exec_frame (args : Args) (options : Options) (setup_ex : Exec)
    (cd_ : list (option Word)) (w : World) :
  exists ex w',
    mk_test_exec args options setup_ex cd_ w = inr (ex, w')
    /\ events w' = events w
    /\ same_items (pgm ex) (pgm setup_ex)
    /\ same_items (code ex) (code setup_ex)
    /\ (top_id (pgm setup_ex) <> None -> top_id (pgm ex) = Some (n_objects w))
    /\ Forall (fun field : Exec -> PyObj =>
                 erase (field ex) = erase (field setup_ex)
                 /\ Forall (fun i => (n_objects w <= i < n_objects w')%nat) (ids (field ex)))
              [storage; path; log; cnts; sha3s; storages; calls]
    /\ balance ex = [(this setup_ex,
                      arith_ADD options (BitVec "this_balance" 256) (BitVec "msg_value" 256))]
    /\ arith_ADD options (BitVec "this_balance" 256) (BitVec "msg_value" 256)
       = (if o_add options
          then BvAdd (BitVec "this_balance" 256) (BitVec "msg_value" 256)
          else App2 "evm_add" (BitVec "this_balance" 256) (BitVec "msg_value" 256))
    /\ callvalue ex = BitVec "msg_value" 256
    /\ calldata ex = cd_
    /\ caller ex = caller setup_ex /\ this ex = this setup_ex
    /\ pc ex = 0 /\ st ex = {| stack := []; memory := [] |}
    /\ jumpis ex = ∅ /\ output ex = None /\ symbolic ex = true
    /\ failed ex = failed setup_ex /\ error ex = error setup_ex.
Proof.
  unfold mk_test_exec.
  set (n0 := n_objects w).
  pose proof (copy_spec (pgm setup_ex) n0) as (P1 & L1 & T1).
  destruct (copy (pgm setup_ex) n0) as [o1 n1] eqn:C1.
  erewrite alloc_bind by exact C1. cbn [fst snd] in P1, L1, T1.
  pose proof (copy_spec (code setup_ex) n1) as (P2 & L2 & _).
  destruct (copy (code setup_ex) n1) as [o2 n2] eqn:C2.
  erewrite alloc_bind by exact C2. cbn [fst snd] in P2, L2.
  pose proof (deepcopy_spec (storage setup_ex) n2) as (E3 & L3 & F3).
  destruct (deepcopy (storage setup_ex) n2) as [o3 n3] eqn:C3.
  erewrite alloc_bind by exact C3. cbn [fst snd] in E3, L3, F3.
  pose proof (deepcopy_spec (path setup_ex) n3) as (E4 & L4 & F4).
  destruct (deepcopy (path setup_ex) n3) as [o4 n4] eqn:C4.
  erewrite alloc_bind by exact C4. cbn [fst snd] in E4, L4, F4.
  pose proof (deepcopy_spec (log setup_ex) n4) as (E5 & L5 & F5).
  destruct (deepcopy (log setup_ex) n4) as [o5 n5] eqn:C5.
  erewrite alloc_bind by exact C5. cbn [fst snd] in E5, L5, F5.
  pose proof (deepcopy_spec (cnts setup_ex) n5) as (E6 & L6 & F6).
  destruct (deepcopy (cnts setup_ex) n5) as [o6 n6] eqn:C6.
  erewrite alloc_bind by exact C6. cbn [fst snd] in E6, L6, F6.
  pose proof (deepcopy_spec (sha3s setup_ex) n6) as (E7 & L7 & F7).
  destruct (deepcopy (sha3s setup_ex) n6) as [o7 n7] eqn:C7.
  erewrite alloc_bind by exact C7. cbn [fst snd] in E7, L7, F7.
  pose proof (deepcopy_spec (storages setup_ex) n7) as (E8 & L8 & F8).
  destruct (deepcopy (storages setup_ex) n7) as [o8 n8] eqn:C8.
  erewrite alloc_bind by exact C8. cbn [fst snd] in E8, L8, F8.
  pose proof (deepcopy_spec (calls setup_ex) n8) as (E9 & L9 & F9).
  destruct (deepcopy (calls setup_ex) n8) as [o9 n9] eqn:C9.
  erewrite alloc_bind by exact C9. cbn [fst snd] in E9, L9, F9.
  eexists _, _. split; [reflexivity|].
  cbn [events n_objects pgm code storage path log cnts
    sha3s storages calls balance callvalue calldata caller this pc st jumpis output symbolic
    failed error].
  split; [reflexivity|]. split; [exact P1|]. split; [exact P2|].
  split; [intros H; now apply T1|].
  split.
  { repeat constructor; try assumption;
      (eapply Forall_impl; [eassumption|]; cbn beta; intros; lia). }
  repeat split; reflexivity.
Qed.

(** ** The layout of calldata *)

Lemma store_from_lookup (f : nat -> option Word) (loc : nat) (n : nat) :
  forall (a : nat) (mem : list (option Word)) (j : nat),
  foldl (fun m i => <[(loc + i)%nat := f i]> m) mem (seq a n) !! j =
    if decide ((loc + a <= j < loc + a + n)%nat /\ (j < length mem)%nat)
    then Some (f (j - loc)%nat) else mem !! j.
Proof.
  induction n as [| n IH]; intros a mem j; cbn [seq foldl].
  - destruct (decide _) as [[H _] | _]; [lia | reflexivity].
  - rewrite IH, length_insert.
    destruct (decide ((loc + S a <= j < loc + S a + n)%nat /\ (j < length mem)%nat))
      as [[H1 H2] | Hn].
    + rewrite decide_True by lia. reflexivity.
    + destruct (decide (j = loc + a)%nat) as [-> | Hne].
      * destruct (decide ((loc + a < length mem)%nat)) as [Hlt | Hge].
        -- rewrite list_lookup_insert_eq by exact Hlt.
           rewrite decide_True by lia. do 2 f_equal. lia.
        -- rewrite decide_False by lia.
           rewrite list_insert_ge by lia. reflexivity.
      * rewrite list_lookup_insert_ne by lia.
        destruct (decide ((loc + a <= j < loc + a + S n)%nat /\ (j < length mem)%nat))
          as [[H1 H2] | Hn2]; [lia | reflexivity].
Qed.

Lemma length_store_bytes (mem : list (option Word)) (loc size : nat) (val : Word) :
  length (store_bytes mem loc size val) = length mem.
Proof.
  unfold store_bytes. generalize (seq 0 size). intros l. revert mem.
  induction l as [| i l IH]; intros mem; cbn [foldl]; [reflexivity|].
  now rewrite IH, length_insert.
Qed.

Lemma store_bytes_out (mem : list (option Word)) (loc size : nat) (val : Word) (j : nat) :
  (j < loc \/ loc + size <= j)%nat ->
  store_bytes mem loc size val !! j = mem !! j.
Proof.
  intros H. unfold store_bytes.
  rewrite (store_from_lookup (fun i => Some (byte_of size val i))).
  rewrite decide_False by lia. reflexivity.
Qed.

Lemma store_bytes_holds (mem : list (option Word)) (loc size : nat) (val : Word) :
  (loc + size <= length mem)%nat ->
  holds (store_bytes mem loc size val) loc size val.
Proof.
  intros H k Hk. unfold store_bytes.
  rewrite (store_from_lookup (fun i => Some (byte_of size val i))).
  rewrite decide_True by lia. do 3 f_equal. lia.
Qed.

(** [wstore], when it returns. *)
Lemma wstore_inr (mem : list (option Word)) (loc size : nat) (val : Word)
    (mem' : list (option Word)) :
  wstore mem loc size val = inr mem' ->
  (loc + size <= length mem)%nat
  /\ length mem' = length mem
  /\ holds mem' loc size val
  /\ forall j, (j < loc \/ loc + size <= j)%nat -> mem' !! j = mem !! j.
Proof.
  unfold wstore. destruct (decide _) as [Hle | _]; [|discriminate].
  intros [= <-]. split; [exact Hle|]. split; [apply length_store_bytes|].
  split; [now apply store_bytes_holds|]. intros j Hj. now apply store_bytes_out.
Qed.

(** What is held stays held under writes elsewhere. *)
Lemma holds_frame (cd1 cd2 : list (option Word)) (loc size : nat) (val : Word) :
  holds cd1 loc size val ->
  (forall j, (loc <= j < loc + size)%nat -> cd2 !! j = cd1 !! j) ->
  holds cd2 loc size val.
Proof.
  intros H Hf k Hk. rewrite Hf by lia. now apply H.
Qed.

Lemma foldlM_inr_cons {A B : Type} (f : A -> B -> Res A) (a : A) (x : B) (l : list B)
    (a' : A) :
  foldlM f a (x :: l) = inr a' <-> exists a1, f a x = inr a1 /\ foldlM f a1 l = inr a'.
Proof.
  cbn [foldlM]. unfold mbind, Res_bind. split.
  - destruct (f a x) as [e | a1]; [discriminate | eauto].
  - intros (a1 & -> & H). exact H.
Qed.

Lemma foldlM_inr_app {A B : Type} (f : A -> B -> Res A) (l1 l2 : list B) :
  forall (a a' : A),
  foldlM f a (l1 ++ l2) = inr a' <->
  exists a1, foldlM f a l1 = inr a1 /\ foldlM f a1 l2 = inr a'.
Proof.
  induction l1 as [| x l1 IH]; intros a a'.
  - simpl. split; [eauto | intros (a1 & [= <-] & H); exact H].
  - rewrite <- app_comm_cons, !foldlM_inr_cons. split.
    + intros (a1 & H1 & H2). apply IH in H2 as (a2 & H2 & H3).
      exists a2. split; [|exact H3]. apply foldlM_inr_cons. eauto.
    + intros (a2 & H & H3). apply foldlM_inr_cons in H as (a1 & H1 & H2).
      exists a1. split; [exact H1|]. apply IH. eauto.
Qed.

(** The elements of a fixed-size array parameter, from element [a] on. *)
Lemma head_elems_inr (name typ : string) (n : nat) :
  forall (a : nat) (l l' : Layout),
  foldlM (head_elem name typ) l (seq a n) = inr l' ->
  offset l' = (offset l + 32 * n)%nat
  /\ length (cd l') = length (cd l)
  /\ tba l' = tba l
  /\ (forall j, (j < 4 + offset l \/ 4 + offset l' <= j)%nat -> cd l' !! j = cd l !! j)
  /\ forall idx, (idx < n)%nat ->
       holds (cd l') (4 + offset l + 32 * idx) 32
         (BitVec ("p_" +:+ name +:+ "[" +:+ pretty (a + idx)%nat +:+ "]_" +:+ typ) 256).
Proof.
  induction n as [| n IH]; intros a l l' H.
  - injection H as <-. rewrite Nat.mul_0_r, Nat.add_0_r. repeat split; auto. lia.
  - cbn [seq] in H. apply foldlM_inr_cons in H as (l1 & H1 & H2).
    unfold head_elem in H1.
    destruct (wstore (cd l) (4 + offset l) 32 _) as [e | cd1] eqn:Hw; [discriminate|].
    injection H1 as <-. apply wstore_inr in Hw as (Hle & Hlen & Hh & Hf).
    apply IH in H2 as (Ho & Hl & Ht & Hfr & Hel). cbn [cd tba offset] in *.
    split; [lia|]. split; [congruence|]. split; [exact Ht|]. split.
    + intros j Hj. rewrite Hfr by lia. apply Hf. lia.
    + intros idx Hidx. destruct idx as [| idx].
      * rewrite Nat.mul_0_r, !Nat.add_0_r. eapply holds_frame; [exact Hh|].
        intros j Hj. apply Hfr. lia.
      * replace (a + S idx)%nat with (S a + idx)%nat by lia.
        replace (4 + offset l + 32 * S idx)%nat with (4 + (offset l + 32) + 32 * idx)%nat by lia.
        apply Hel. lia.
Qed.

Lemma head_param_inr (l : Layout) (p : Param) (l' : Layout) :
  head_param l p = inr l' ->
  offset l' = (offset l + head_size p)%nat
  /\ length (cd l') = length (cd l)
  /\ tba l' = tba l ++ (if is_dynamic p then [((4 + offset l)%nat, p)] else [])
  /\ (forall j, (j < 4 + offset l \/ 4 + offset l' <= j)%nat -> cd l' !! j = cd l !! j)
  /\ (is_dynamic p = false -> head_holds (cd l') (4 + offset l) p).
Proof.
  unfold head_param, head_size, head_holds, is_dynamic.
  destruct (String.eqb (param_type p) "tuple"); [discriminate|].
  destruct (String.eqb (param_type p) "bytes" || String.eqb (param_type p) "string").
  - intros [= <-]. cbn [offset cd tba]. repeat split; auto. discriminate.
  - destruct (endswith (param_type p) "[]"); [discriminate|].
    destruct (re_search (param_type p)) as [[typ [dim|]]|]; [| |discriminate].
    + intros H. apply head_elems_inr in H as (Ho & Hl & Ht & Hf & Hel).
      rewrite app_nil_r. repeat split; auto.
    + destruct (wstore (cd l) (4 + offset l) 32 _) as [e | cd1] eqn:Hw; [discriminate|].
      intros [= <-]. apply wstore_inr in Hw as (Hle & Hlen & Hh & Hf). cbn.
      rewrite app_nil_r. repeat split; auto; intros j Hj; apply Hf; lia.
Qed.



Lemma dyn_locs_bounds (ps : list Param) :
  forall off loc q, In (loc, q) (dyn_locs off ps) ->
    (4 + off <= loc)%nat /\ (loc + 32 <= 4 + off + head_offset ps)%nat
    /\ is_dynamic q = true.
Proof.
  induction ps as [| p ps IH]; intros off loc q H; cbn [dyn_locs] in H; [destruct H|].
  change (head_offset (p :: ps)) with (head_size p + head_offset ps)%nat.
  apply in_app_or in H as [H | H].
  - destruct (is_dynamic p) eqn:Hd; [|destruct H].
    destruct H as [[= <- <-] | []]. unfold head_size. rewrite Hd.
    repeat split; auto; lia.
  - apply IH in H as (H1 & H2 & H3). repeat split; auto; lia.
Qed.

Lemma dyn_locs_snd (ps : list Param) (off : nat) :
  map snd (dyn_locs off ps) = filter (fun p => is_dynamic p = true) ps.
Proof.
  revert off. induction ps as [| p ps IH]; intros off; cbn [dyn_locs]; [reflexivity|].
  rewrite map_app, IH, filter_cons.
  destruct (decide (is_dynamic p = true)) as [-> | Hn]; [reflexivity|].
  destruct (is_dynamic p); [congruence | reflexivity].
Qed.

(** The loop over the parameters of the entry: the first pass. *)
Lemma head_params_inr (ps : list Param) :
  forall (l l' : Layout),
  foldlM head_param l ps = inr l' ->
  offset l' = (offset l + head_offset ps)%nat
  /\ length (cd l') = length (cd l)
  /\ tba l' = tba l ++ dyn_locs (offset l) ps
  /\ (forall j, (j < 4 + offset l \/ 4 + offset l' <= j)%nat -> cd l' !! j = cd l !! j)
  /\ forall pre p post, ps = pre ++ p :: post -> is_dynamic p = false ->
       head_holds (cd l') (4 + offset l + head_offset pre) p.
Proof.
  induction ps as [| p0 ps IH]; intros l l' H.
  - injection H as <-. unfold head_offset. simpl. rewrite Nat.add_0_r, app_nil_r.
    repeat split; auto. intros [] ? ? [=].
  - apply foldlM_inr_cons in H as (l1 & H1 & H2).
    apply head_param_inr in H1 as (Ho1 & Hl1 & Ht1 & Hf1 & Hh1).
    apply IH in H2 as (Ho2 & Hl2 & Ht2 & Hf2 & Hh2).
    change (head_offset (p0 :: ps)) with (head_size p0 + head_offset ps)%nat.
    split; [lia|]. split; [congruence|]. split.
    { rewrite Ht2, Ht1, <- app_assoc, Ho1. reflexivity. }
    split.
    { intros j Hj. rewrite Hf2 by lia. apply Hf1. lia. }
    intros pre p post Hsplit Hd. destruct pre as [| q pre].
    + injection Hsplit as <- <-. unfold head_offset. simpl. rewrite Nat.add_0_r.
      specialize (Hh1 Hd). unfold head_holds in *.
      assert (Hhs : head_size p0 = match re_search (param_type p0) with
                                   | Some (_, Some dim) => (32 * int_of_digits dim)%nat
                                   | _ => 32%nat
                                   end) by (unfold head_size; now rewrite Hd).
      destruct (re_search (param_type p0)) as [[typ [dim|]]|]; [| |exact Hh1].
      * intros idx Hidx. eapply holds_frame; [apply Hh1; exact Hidx|].
        intros j Hj. apply Hf2. lia.
      * eapply holds_frame; [exact Hh1|]. intros j Hj. apply Hf2. lia.
    + injection Hsplit as <- ->.
      change (head_offset (p0 :: pre)) with (head_size p0 + head_offset pre)%nat.
      specialize (Hh2 pre p post eq_refl Hd). rewrite Ho1 in Hh2.
      replace (4 + offset l + (head_size p0 + head_offset pre))%nat
        with (4 + (offset l + head_size p0) + head_offset pre)%nat by lia.
      exact Hh2.
Qed.

Lemma tail_param_inr (args : Args) (arrlen : gmap string Z) (t : Tail) (loc : nat)
    (p : Param) (t' : Tail) :
  tail_param args arrlen t (loc, p) = inr t' ->
  (loc + 32 <= 4 + t_offset t)%nat ->
  t_offset t' = (t_offset t + tail_size args arrlen p)%nat
  /\ length (t_cd t') = length (t_cd t)
  /\ tail_holds args arrlen (t_cd t') loc (t_offset t) p
  /\ forall j, ~ (loc <= j < loc + 32)%nat ->
       (j < 4 + t_offset t \/ 4 + t_offset t' <= j)%nat -> t_cd t' !! j = t_cd t !! j.
Proof.
  unfold tail_param, tail_holds, tail_size, size_of. cbn [fst snd]. intros H Hloc.
  set (size := default (a_loop args) (arrlen !! param_name p)) in *.
  assert (Hsz : (let '(size0, warn) :=
                   match arrlen !! param_name p with
                   | Some n => (n, [])
                   | None =>
                       (a_loop args,
                        if debug args
                        then ["warn: size of " +:+ param_name p
                                +:+ " not given, using default value " +:+ pretty (a_loop args)]
                        else [])
                   end in size0) = size).
  { subst size. destruct (arrlen !! param_name p); reflexivity. }
  destruct (match arrlen !! param_name p with
            | Some n => (n, [])
            | None => _
            end) as [size0 warn]. subst size0.
  destruct (String.eqb (param_type p) "bytes" || String.eqb (param_type p) "string");
    [|discriminate].
  destruct (wstore (t_cd t) loc 32 _) as [e | cd1] eqn:W1; [discriminate|].
  cbn [mbind Res_bind] in H.
  destruct (wstore cd1 (4 + t_offset t) 32 _) as [e | cd2] eqn:W2; [discriminate|].
  cbn [mbind Res_bind] in H.
  apply wstore_inr in W1 as (B1 & L1 & H1 & F1).
  apply wstore_inr in W2 as (B2 & L2 & H2 & F2).
  destruct (0 <? size_pad_right_of size) eqn:Hpad.
  - destruct (wstore cd2 (4 + (t_offset t + 32)) _ _) as [e | cd3] eqn:W3; [discriminate|].
    cbn [mbind Res_bind] in H. injection H as <-. cbn [t_cd t_offset].
    apply wstore_inr in W3 as (B3 & L3 & H3 & F3).
    split; [lia|]. split; [congruence|]. split; [split; [|split]|].
    + eapply holds_frame; [exact H1|]. intros j Hj. rewrite F3, F2 by lia. reflexivity.
    + eapply holds_frame; [exact H2|]. intros j Hj. rewrite F3 by lia. reflexivity.
    + intros _. replace (4 + t_offset t + 32)%nat with (4 + (t_offset t + 32))%nat by lia.
      exact H3.
    + intros j Hn Hj. rewrite F3, F2, F1 by lia. reflexivity.
  - injection H as <-. cbn [t_cd t_offset]. apply Z.ltb_ge in Hpad.
    split; [lia|]. split; [congruence|]. split; [split; [|split]|].
    + eapply holds_frame; [exact H1|]. intros j Hj. rewrite F2 by lia. reflexivity.
    + exact H2.
    + lia.
    + intros j Hn Hj. rewrite F2, F1 by lia. reflexivity.
Qed.

(** The second pass, over [tba]. *)
Lemma tail_params_inr (args : Args) (arrlen : gmap string Z) (lps : list (nat * Param)) :
  forall (t t' : Tail),
  foldlM (tail_param args arrlen) t lps = inr t' ->
  (forall lp, In lp lps -> (lp.1 + 32 <= 4 + t_offset t)%nat) ->
  (forall pre lp post, lps = pre ++ lp :: post ->
     forall lp', In lp' post -> (lp.1 + 32 <= lp'.1)%nat) ->
  t_offset t' = (t_offset t + sum_list_with (tail_size args arrlen) (map snd lps))%nat
  /\ length (t_cd t') = length (t_cd t)
  /\ (forall j, (forall lp, In lp lps -> ~ (lp.1 <= j < lp.1 + 32)%nat) ->
        (j < 4 + t_offset t \/ 4 + t_offset t' <= j)%nat -> t_cd t' !! j = t_cd t !! j)
  /\ forall pre loc p post, lps = pre ++ (loc, p) :: post ->
       tail_holds args arrlen (t_cd t') loc
         (t_offset t + sum_list_with (tail_size args arrlen) (map snd pre)) p.
Proof.
  induction lps as [| [loc0 p0] lps IH]; intros t t' H Hb Hinc.
  - injection H as <-. simpl. rewrite Nat.add_0_r.
    split; [reflexivity|]. split; [reflexivity|]. split; [reflexivity|].
    intros [] ? ? ? [=].
  - apply foldlM_inr_cons in H as (t1 & H1 & H2).
    apply tail_param_inr in H1 as (O1 & L1 & T1 & F1);
      [|apply (Hb (loc0, p0)); now left].
    assert (Hb0 : (loc0 + 32 <= 4 + t_offset t)%nat) by (apply (Hb (loc0, p0)); now left).
    assert (Hinc0 : forall lp', In lp' lps -> (loc0 + 32 <= lp'.1)%nat)
      by (intros lp' Hin; apply (Hinc [] (loc0, p0) lps eq_refl lp' Hin)).
    apply IH in H2 as (O2 & L2 & F2 & T2).
    2:{ intros lp Hin. specialize (Hb lp (or_intror Hin)). lia. }
    2:{ intros pre lp post -> lp' Hin.
        apply (Hinc ((loc0, p0) :: pre) lp post eq_refl lp' Hin). }
    cbn [map sum_list_with snd].
    split; [lia|]. split; [congruence|]. split.
    + intros j Hn Hj. rewrite F2.
      * apply F1; [apply (Hn (loc0, p0)); now left | lia].
      * intros lp Hin. apply Hn. now right.
      * lia.
    + intros pre loc p post Hsplit. destruct pre as [| q pre].
      * injection Hsplit as <- <- <-. simpl. rewrite Nat.add_0_r.
        destruct T1 as (A1 & A2 & A3). unfold tail_holds.
        assert (Hfr : forall j, (j < 4 + t_offset t1)%nat ->
                   (loc0 <= j < loc0 + 32 \/ 4 + t_offset t <= j)%nat ->
                   t_cd t' !! j = t_cd t1 !! j).
        { intros j Hj1 Hj2. apply F2; [|lia].
          intros lp Hin. specialize (Hinc0 lp Hin). specialize (Hb lp (or_intror Hin)). lia. }
        unfold tail_size in O1.
        split; [|split].
        -- eapply holds_frame; [exact A1|]. intros j Hj. apply Hfr; lia.
        -- eapply holds_frame; [exact A2|]. intros j Hj. apply Hfr; lia.
        -- intros Hp. eapply holds_frame; [exact (A3 Hp)|]. intros j Hj. apply Hfr; lia.
      * injection Hsplit as <- ->. cbn [map sum_list_with snd].
        specialize (T2 pre loc p post eq_refl). rewrite O1 in T2.
        rewrite Nat.add_assoc. exact T2.
Qed.

Lemma dyn_locs_increasing (ps : list Param) :
  forall off pre lp post, dyn_locs off ps = pre ++ lp :: post ->
    forall lp', In lp' post -> (lp.1 + 32 <= lp'.1)%nat.
Proof.
  induction ps as [| p ps IH]; intros off pre lp post H lp' Hin; cbn [dyn_locs] in H.
  - destruct pre; discriminate.
  - destruct (is_dynamic p) eqn:Hd; cbn [app] in H.
    + destruct pre as [| x pre].
      * injection H as <- <-. destruct lp' as [loc' q'].
        apply dyn_locs_bounds in Hin as (Hlo & _). unfold head_size in Hlo.
        rewrite Hd in Hlo. simpl. lia.
      * injection H as _ H. eapply IH; eauto.
    + eapply IH; eauto.
Qed.



Lemma abi_items_skip (args : Args) (arrlen : gmap string Z) (funname : string)
    (items : list AbiItem) (t : Tail) :
  Forall (fun item => matches funname item = false) items ->
  foldlM (abi_item args arrlen funname) t items = inr t.
Proof.
  induction 1 as [| item items Hn _ IH]; [reflexivity|].
  assert (Hs : abi_item args arrlen funname t item = inr t)
    by (unfold abi_item; rewrite Hn; reflexivity).
  cbn [foldlM]. rewrite Hs. exact IH.
Qed.




(** * Further properties *)

(** ** Reading results *)

Lemma res_bind_inr {A B : Type} (m : Res A) (f : A -> Res B) (b : B) :
  m ≫= f = inr b -> exists a, m = inr a /\ f a = inr b.
Proof. destruct m as [e | a]; [discriminate | eauto]. Qed.

Lemma foldlM_inl_app {A B : Type} (f : A -> B -> Res A) (l1 : list B) (x : B) (l2 : list B) :
  forall (a a1 : A) (e : Exn),
  foldlM f a l1 = inr a1 -> f a1 x = inl e -> foldlM f a (l1 ++ x :: l2) = inl e.
Proof.
  induction l1 as [| y l1 IH]; intros a a1 e H1 Hx.
  - injection H1 as ->. cbn [app foldlM]. rewrite Hx. reflexivity.
  - cbn [app foldlM] in *. destruct (f a y) as [e0 | a2]; [discriminate|].
    cbn [mbind Res_bind] in *. eapply IH; eauto.
Qed.

(** ** The printed model *)

Lemma str_le_trans (a b c : string) : str_le a b -> str_le b c -> str_le a c.
Proof.
  unfold str_le. intros H1 H2.
  apply Is_true_true. apply Is_true_true in H1, H2.
  exact (PreOrder_Transitive (R := String.le) a b c H1 H2).
Qed.

Lemma str_le_total (a b : string) : str_le a b \/ str_le b a.
Proof. apply String.leb_total. Qed.

Lemma insert_sorted_perm (s : string) (l : list string) :
  Permutation (insert_sorted s l) (s :: l).
Proof.
  induction l as [| x r IH]; cbn [insert_sorted]; [reflexivity|].
  destruct (String.leb s x); [reflexivity|].
  rewrite IH. apply perm_swap.
Qed.

Lemma sorted_perm (l : list string) : Permutation (sorted l) l.
Proof.
  induction l as [| x r IH]; [reflexivity|].
  cbn [sorted foldr]. fold (sorted r). rewrite insert_sorted_perm, IH. reflexivity.
Qed.

Lemma insert_sorted_sorted (s : string) (l : list string) :
  StronglySorted str_le l -> StronglySorted str_le (insert_sorted s l).
Proof.
  induction 1 as [| x r Hs IH Hx]; cbn [insert_sorted].
  - repeat constructor.
  - destruct (String.leb s x) eqn:E.
    + constructor; [constructor; assumption|].
      constructor; [exact E|].
      eapply List.Forall_impl; [|exact Hx]. intros y Hy. eapply str_le_trans; eauto.
    + constructor; [exact IH|].
      assert (Hxs : str_le x s).
      { destruct (str_le_total s x) as [H | H]; [unfold str_le in H; congruence | exact H]. }
      eapply Permutation_Forall; [symmetry; apply insert_sorted_perm|].
      constructor; assumption.
Qed.

Lemma sorted_sorted (l : list string) : StronglySorted str_le (sorted l).
Proof.
  induction l as [| x r IH]; [constructor|].
  cbn [sorted foldr]. apply insert_sorted_sorted. exact IH.
Qed.

Lemma sorted_unique (l1 l2 : list string) :
  StronglySorted str_le l1 -> StronglySorted str_le l2 -> Permutation l1 l2 -> l1 = l2.
Proof.
  apply StronglySorted_unique_strong.
  intros a b _ _ H1 H2. apply String.leb_antisym; assumption.
Qed.

Lemma str_model_select (env : Env) (model : ModelRef) (args : Args) :
  debug args = false ->
  str_model env model args =
    "[" +:+ String.concat ", "
              (sorted (map str_decl (filter (fun d => selected args (decl_name d.1) = true) model)))
        +:+ "]".
Proof.
  intros Hd. unfold str_model. rewrite Hd. do 3 f_equal. unfold ModelRef in *.
  apply (f_equal sorted). apply (f_equal (map str_decl)). apply list_filter_iff. intros d. unfold selected.
  destruct (String.prefix "p_" (decl_name d.1)); cbn [orb]; [simpl; tauto|].
  destruct (1 <=? verbose args); cbn [andb]; [|simpl; split; [tauto | discriminate]].
  destruct (String.prefix "storage" _ || String.prefix "msg_" _ || String.prefix "this_" _);
    simpl; [tauto | split; [tauto | discriminate]].
Qed.

(** X1. Outside debug mode the printed model is the bracketed,
    comma-separated list of the lines [name = value] of exactly the
    declarations that [select] keeps, in ascending order: those whose name
    starts with [p_], and from verbosity 1 on also those starting with
    [storage], [msg_] or [this_]. *)
Theorem str_model_lists_selected (env : Env) (model : ModelRef) (args : Args) :
  debug args = false ->
  exists items,
    str_model env model args = "[" +:+ String.concat ", " items +:+ "]"
    /\ StronglySorted (fun a b => String.leb a b = true) items
    /\ Permutation items
         (map (fun d => decl_name d.1 +:+ " = " +:+ d.2)
            (filter (fun d => selected args (decl_name d.1) = true) model))
    /\ (forall name, selected args name = true <->
          String.prefix "p_" name = true
          \/ (1 <= verbose args
              /\ (String.prefix "storage" name = true \/ String.prefix "msg_" name = true
                  \/ String.prefix "this_" name = true))).
Proof.
  intros Hd. eexists. split; [apply str_model_select; exact Hd|].
  split; [apply sorted_sorted|]. split; [apply sorted_perm|].
  intros name. unfold selected.
  rewrite orb_true_iff, andb_true_iff, !orb_true_iff, Z.leb_le. tauto.
Qed.

(** The witness of X1: a model with [p_x_uint256] and the function [cd]. *)
Lemma str_model_lists_selected_witness :
  exists items,
    str_model Demo.env_normal Demo.cd_model Demo.args
      = "[" +:+ String.concat ", " items +:+ "]"
    /\ Permutation items ["p_x_uint256 = 0"].
Proof.
  destruct (str_model_lists_selected Demo.env_normal Demo.cd_model Demo.args eq_refl)
    as (items & H1 & _ & H2 & _).
  exists items. split; [exact H1 | exact H2].
Defined.

(** X2. Outside debug mode the printed model does not depend on the order
    in which the solver's model lists its declarations. *)
Theorem str_model_order_independent (env : Env) (m1 m2 : ModelRef) (args : Args) :
  debug args = false ->
  Permutation m1 m2 ->
  str_model env m1 args = str_model env m2 args.
Proof.
  intros Hd Hp. rewrite !str_model_select by exact Hd. do 3 f_equal.
  apply sorted_unique; try apply sorted_sorted.
  rewrite !sorted_perm. apply Permutation_map. 
  apply filter_Permutation. exact Hp.
Qed.

(** The witness of X2: the same model and its reverse. *)
Lemma str_model_order_independent_witness :
  str_model Demo.env_normal Demo.cd_model Demo.args
    = str_model Demo.env_normal (rev Demo.cd_model) Demo.args.
Proof.
  apply (str_model_order_independent Demo.env_normal Demo.cd_model (rev Demo.cd_model)
           Demo.args eq_refl).
  apply Permutation_rev.
Defined.

(** ** The effects of the counterexample pipeline *)

Lemma checks_app (a b : list Event) : checks (a ++ b) = checks a ++ checks b.
Proof.
  induction a as [| e a IH]; [reflexivity|].
  destruct e; simpl; rewrite IH; reflexivity.
Qed.

Lemma checks_map (ss : list Solver) : checks (map EvCheck ss) = ss.
Proof. induction ss as [| s ss IH]; [reflexivity|]. simpl. now rewrite IH. Qed.

(** What the subprocess part does to the world. *)
Lemma solve_subprocess_effects (env : Env) (args : Args) (ex : Exec)
    (res : CheckSatResult) (w : World) :
  exists res' w' post,
    solve_subprocess env args ex res w = inr (res', w') /\
    events w' = events w ++ post /\
    checks post = [] /\
    n_contexts w' = n_contexts w /\
    (solver_subprocess args = false \/ res <> unknown -> res' = res /\ w' = w) /\
    (res' = res \/ (res = unknown /\ res' = unsat)).
Proof.
  unfold solve_subprocess.
  destruct (bool_decide (res = unknown) && solver_subprocess args) eqn:Hb.
  - apply andb_true_iff in Hb as [Hu Hs]. apply bool_decide_eq_true in Hu. subst res.
    run_prims. destruct (4 <=? verbose args); simpl;
      (destruct (String.eqb _ "unsat");
       (eexists _, _, _; split; [reflexivity|]; simpl;
        rewrite <- ?app_assoc; split; [reflexivity|]; split; [reflexivity|];
        split; [reflexivity|]; split; [|auto];
        intros [? | ?]; congruence)).
  - run_prims. exists res, w, []. rewrite app_nil_r. auto 8.
Qed.

(** The in-process part: the checks are its only effects, the first one
    is the check of the state's solver, and at most two more follow. *)
Lemma solve_in_process_effects (env : Env) (args : Args) (ex : Exec) (w : World) :
  exists res model ss k,
    solve_in_process env args ex w
      = inr ((res, model), with_contexts w (map EvCheck (solver ex :: ss)) (n_contexts w + k))
    /\ (length ss <= 2)%nat /\ (k <= 2)%nat
    /\ (res = sat -> exists m, model = Some m).
Proof.
  pose proof (solve_in_process_eq env args ex w) as Hin. cbv zeta in Hin.
  destruct (z3_check env (solver ex)).
  - destruct (is_valid_model (z3_model env (solver ex))).
    + eexists _, _, [], 0%nat. rewrite Nat.add_0_r. split; [exact Hin|]. simpl.
      split; [lia|]. split; [lia|]. eauto.
    + eexists _, _, [_], 1%nat. rewrite Nat.add_1_r. split; [exact Hin|]. simpl.
      split; [lia|]. split; [lia|]. intros _. destruct (decide _); eauto.
  - eexists _, _, [], 0%nat. rewrite Nat.add_0_r. split; [exact Hin|]. simpl.
    split; [lia|]. split; [lia|]. discriminate.
  - destruct (z3_check env (sol2_of env args ex (new_ctx (n_contexts w)))).
    + destruct (is_valid_model
                  (z3_model env (sol2_of env args ex (new_ctx (n_contexts w))))).
      * eexists _, _, [_], 1%nat. rewrite Nat.add_1_r. split; [exact Hin|]. simpl.
      split; [lia|]. split; [lia|]. eauto.
      * eexists _, _, [_; _], 2%nat.
        replace (n_contexts w + 2)%nat with (S (S (n_contexts w))) by lia.
        split; [exact Hin|]. simpl.
        split; [lia|]. split; [lia|]. intros _. destruct (decide _); eauto.
    + eexists _, _, [_], 1%nat. rewrite Nat.add_1_r. split; [exact Hin|]. simpl.
      split; [lia|]. split; [lia|]. discriminate.
    + eexists _, _, [_], 1%nat. rewrite Nat.add_1_r. split; [exact Hin|]. simpl.
      split; [lia|]. split; [lia|]. discriminate.
Qed.

Lemma record_model_total (models : list Entry) (idx : nat) (ex : Exec)
    (res : CheckSatResult) (model : option ModelRef) (w : World) :
  (res = sat -> exists m, model = Some m) ->
  exists ms', record_model models idx ex res model w = inr (ms', w)
    /\ (ms' = models \/ exists m, ms' = models ++ [(m, idx, ex)]).
Proof.
  intros Hm. destruct (decide (res = sat)) as [-> | Hns].
  - destruct (Hm eq_refl) as [m ->]. rewrite record_model_cases.
    eexists. split; [reflexivity|]. destruct (is_valid_model m); eauto.
  - rewrite record_model_not_sat by assumption.
    eexists. split; [reflexivity|]. destruct res; eauto.
Qed.

(** X3. [gen_model] always returns, whatever the solvers answer (the
    variable [model] is never read unbound). It leaves the entries already
    in [models] as they are and appends at most one entry, for this path.
    It checks at least one and at most three solvers, the first being the
    solver of the state, and makes at most two contexts. *)
Theorem gen_model_appends_at_most_one (env : Env) (args : Args) (models : list Entry)
    (idx : nat) (ex : Exec) (w : World) :
  exists ms' w' post rest,
    gen_model env args models idx ex w = inr (ms', w')
    /\ (ms' = models \/ exists m, ms' = models ++ [(m, idx, ex)])
    /\ events w' = events w ++ post
    /\ checks post = solver ex :: rest /\ (length rest <= 2)%nat
    /\ (n_contexts w <= n_contexts w' <= n_contexts w + 2)%nat.
Proof.
  destruct (solve_in_process_effects env args ex w) as (res & model & ss & k & Hin & Hss & Hk & Hm).
  destruct (solve_subprocess_effects env args ex res
              (with_contexts w (map EvCheck (solver ex :: ss)) (n_contexts w + k)))
    as (r & w' & post & Hs & Hev & Hc & Hn & _ & Hr).
  destruct (record_model_total models idx ex r model w') as (ms' & Hrec & Hms).
  { intros ->. destruct Hr as [<- | [_ ?]]; [auto | discriminate]. }
  exists ms', w', (map EvCheck (solver ex :: ss) ++ post), ss.
  split.
  { unfold gen_model. erewrite bind_eq by exact Hin. simpl.
    erewrite bind_eq by exact Hs. exact Hrec. }
  split; [exact Hms|]. split.
  { rewrite Hev. simpl. rewrite <- app_assoc. reflexivity. }
  split.
  { rewrite checks_app, Hc, app_nil_r. cbn [map checks]. now rewrite checks_map. }
  split; [exact Hss|]. rewrite Hn. simpl. lia.
Qed.

Lemma gen_model_no_subprocess (env : Env) (args : Args) (models : list Entry)
    (idx : nat) (ex : Exec) (w w' : World) (ms' : list Entry) :
  solver_subprocess args = false ->
  gen_model env args models idx ex w = inr (ms', w') ->
  exists ss, events w' = events w ++ map EvCheck ss
    /\ files w' = files w /\ n_uuids w' = n_uuids w /\ n_objects w' = n_objects w.
Proof.
  intros Hsub H.
  destruct (solve_in_process_effects env args ex w) as (res & model & ss & k & Hin & _ & _ & Hm).
  destruct (solve_subprocess_effects env args ex res
              (with_contexts w (map EvCheck (solver ex :: ss)) (n_contexts w + k)))
    as (r & w1 & post & Hs & _ & _ & _ & Hsame & Hr).
  destruct (Hsame (or_introl Hsub)) as [-> ->].
  destruct (record_model_total models idx ex res model
              (with_contexts w (map EvCheck (solver ex :: ss)) (n_contexts w + k)) Hm)
    as (ms1 & Hrec & _).
  unfold gen_model in H. erewrite bind_eq in H by exact Hin. simpl in H.
  erewrite bind_eq in H by exact Hs. rewrite Hrec in H. injection H as <- <-.
  exists (solver ex :: ss). simpl. auto.
Qed.

(** X4. Without [--solver-subprocess], [gen_model] only consults solvers:
    it prints nothing, writes no file, draws no uuid and runs no
    command. *)
Theorem gen_model_in_process_only (env : Env) (args : Args) (models : list Entry)
    (idx : nat) (ex : Exec) (w w' : World) (ms' : list Entry) :
  solver_subprocess args = false ->
  gen_model env args models idx ex w = inr (ms', w') ->
  exists ss, events w' = events w ++ map EvCheck ss
    /\ files w' = files w /\ n_uuids w' = n_uuids w /\ n_objects w' = n_objects w.
Proof. apply gen_model_no_subprocess. Qed.

(** The witness of X4: two solvers answer unknown. *)
Lemma gen_model_in_process_only_witness :
  exists ss w',
    gen_model Demo.env_normal Demo.args [] 0 (Demo.exec_at "STOP" true None) World_init
      = inr ([(None, 0%nat, Demo.exec_at "STOP" true None)], w')
    /\ events w' = events World_init ++ map EvCheck ss /\ files w' = [].
Proof.
  assert (H : gen_model Demo.env_normal Demo.args [] 0 (Demo.exec_at "STOP" true None) World_init
              = inr ([(None, 0%nat, Demo.exec_at "STOP" true None)],
                     with_contexts World_init
                       [EvCheck Demo.solver0;
                        EvCheck (sol2_of Demo.env_normal Demo.args
                                   (Demo.exec_at "STOP" true None) (new_ctx 0))] 1))
    by reflexivity.
  destruct (gen_model_in_process_only Demo.env_normal Demo.args _ _ _ _ _ _ eq_refl H)
    as (ss & He & Hf & _).
  eexists ss, _. split; [exact H|]. split; [exact He | exact Hf].
Defined.

(** X5. When the solver of the state answers unsat, [gen_model] records
    nothing; when it answers sat with a model that has no [evm_]
    declaration, [gen_model] records that model. In both cases this check is
    the only thing [gen_model] does, whatever the options. *)
Theorem gen_model_first_answer (env : Env) (args : Args) (models : list Entry)
    (idx : nat) (ex : Exec) (w : World) :
  z3_check env (solver ex) = unsat
  \/ (z3_check env (solver ex) = sat /\ is_valid_model (z3_model env (solver ex)) = true) ->
  gen_model env args models idx ex w
    = inr (match z3_check env (solver ex) with
           | sat => models ++ [(Some (z3_model env (solver ex)), idx, ex)]
           | _ => models
           end,
           with_contexts w [EvCheck (solver ex)] (n_contexts w)).
Proof.
  intros H.
  pose proof (solve_in_process_eq env args ex w) as Hin. cbv zeta in Hin.
  assert (Hsub : forall res, res <> unknown -> forall w1,
            solve_subprocess env args ex res w1 = inr (res, w1)).
  { intros res Hres w1.
    destruct (solve_subprocess_effects env args ex res w1)
      as (r & w2 & post & Hs & _ & _ & _ & Hsame & _).
    destruct (Hsame (or_intror Hres)) as [-> ->]. exact Hs. }
  unfold gen_model. destruct H as [Hu | [Hs Hv]].
  - rewrite Hu in *. erewrite bind_eq by exact Hin. simpl.
    erewrite bind_eq by (apply Hsub; discriminate). reflexivity.
  - rewrite Hs, Hv in *. erewrite bind_eq by exact Hin. simpl.
    erewrite bind_eq by (apply Hsub; discriminate).
    rewrite record_model_cases, Hv. reflexivity.
Qed.

(** The witness of X5: the solver of the state answers sat with a model of [p_x_uint256]. *)
Lemma gen_model_first_answer_witness :
  let env := Demo.env_of [(sat, Demo.p_model)] "" [] in
  let ex := Demo.exec_at "STOP" true None in
  gen_model env Demo.args [] 0 ex World_init
    = inr ([(Some Demo.p_model, 0%nat, ex)],
           with_contexts World_init [EvCheck (solver ex)] 0).
Proof.
  cbv zeta.
  apply (gen_model_first_answer (Demo.env_of [(sat, Demo.p_model)] "" []) Demo.args [] 0
           (Demo.exec_at "STOP" true None) World_init).
  right. split; reflexivity.
Defined.

(** X6. When the solver of the state answers unknown, [gen_model] asks
    again: it checks, right after, a solver for QF_AUFBV in a new context,
    under the assertion timeout, that holds the assertions of the state
    reloaded (and no axiom). An unsat answer of this solver records
    nothing, a sat answer with a model without [evm_] declaration records
    that model, and (without [--solver-subprocess]) an unknown answer
    records an entry with no model. *)
Theorem gen_model_retries_unknown (env : Env) (args : Args) (models : list Entry)
    (idx : nat) (ex : Exec) (w : World) :
  z3_check env (solver ex) = unknown ->
  exists s2 ms' w' post,
    gen_model env args models idx ex w = inr (ms', w')
    /\ events w' = events w ++ [EvCheck (solver ex); EvCheck s2] ++ post
    /\ s_ctx s2 = new_ctx (n_contexts w)
    /\ s_logic s2 = Some "QF_AUFBV"
    /\ s_timeout s2 = Some (solver_timeout_assertion args)
    /\ s_assertions s2 = z3_from_string env (z3_sexpr env (solver ex))
    /\ (z3_check env s2 = unsat -> ms' = models /\ post = [])
    /\ (z3_check env s2 = sat -> is_valid_model (z3_model env s2) = true ->
        ms' = models ++ [(Some (z3_model env s2), idx, ex)] /\ post = [])
    /\ (z3_check env s2 = unknown -> solver_subprocess args = false ->
        ms' = models ++ [(None, idx, ex)] /\ post = []).
Proof.
  intros Hu.
  pose proof (solve_in_process_eq env args ex w) as Hin. cbv zeta in Hin.
  rewrite Hu in Hin.
  set (s2 := sol2_of env args ex (new_ctx (n_contexts w))) in *.
  exists s2.
  assert (Hsame : forall res w1, res <> unknown \/ solver_subprocess args = false ->
            solve_subprocess env args ex res w1 = inr (res, w1)).
  { intros res w1 Hres.
    destruct (solve_subprocess_effects env args ex res w1)
      as (r & w2 & post & Hs & _ & _ & _ & Hsame & _).
    destruct Hsame as [-> ->]; [tauto | exact Hs]. }
  assert (Hgo : forall res model evs n,
             solve_in_process env args ex w
               = inr ((res, model),
                      with_contexts w ([EvCheck (solver ex); EvCheck s2] ++ evs) n) ->
             (res = sat -> exists m, model = Some m) ->
             exists ms' w' post,
               gen_model env args models idx ex w = inr (ms', w') /\
               events w' = events w ++ [EvCheck (solver ex); EvCheck s2] ++ post).
  { intros res model evs n H Hm.
    destruct (solve_subprocess_effects env args ex res
                (with_contexts w ([EvCheck (solver ex); EvCheck s2] ++ evs) n))
      as (r & w' & post & Hs & Hev & _ & _ & _ & Hr).
    destruct (record_model_total models idx ex r model w') as (ms' & Hrec & _).
    { intros ->. destruct Hr as [<- | [_ ?]]; [auto | discriminate]. }
    exists ms', w', (evs ++ post). split.
    - unfold gen_model. erewrite bind_eq by exact H. simpl.
      erewrite bind_eq by exact Hs. exact Hrec.
    - rewrite Hev. simpl. rewrite <- !app_assoc. reflexivity. }
  destruct (z3_check env s2) eqn:H2.
  - destruct (is_valid_model (z3_model env s2)) eqn:Hv.
    + eexists _, _, [].
      split.
      { unfold gen_model. erewrite bind_eq by exact Hin. simpl.
        erewrite bind_eq by (apply Hsame; left; discriminate).
        rewrite record_model_cases, Hv. reflexivity. }
      split; [reflexivity|]. do 4 (split; [reflexivity|]).
      split; [discriminate|]. split; [auto|]. discriminate.
    + destruct (Hgo _ _ [EvCheck (sol3_of env args ex (new_ctx (S (n_contexts w))))] _ Hin)
        as (ms' & w' & post & Hg & Hev).
      { intros _. destruct (decide _); eauto. }
      exists ms', w', post.
      split; [exact Hg|]. split; [exact Hev|]. do 4 (split; [reflexivity|]).
      split; [discriminate|]. split; [discriminate|]. discriminate.
  - eexists _, _, [].
    split.
    { unfold gen_model. erewrite bind_eq by exact Hin. simpl.
      erewrite bind_eq by (apply Hsame; left; discriminate). reflexivity. }
    split; [reflexivity|]. do 4 (split; [reflexivity|]).
    split; [auto|]. split; discriminate.
  - destruct (solver_subprocess args) eqn:Hsub.
    + destruct (Hgo _ _ [] _ Hin) as (ms' & w' & post & Hg & Hev); [discriminate|].
      exists ms', w', post.
      split; [exact Hg|]. split; [exact Hev|]. do 4 (split; [reflexivity|]).
      split; [discriminate|]. split; discriminate.
    + eexists _, _, [].
      split.
      { unfold gen_model. erewrite bind_eq by exact Hin. simpl.
        erewrite bind_eq by (apply Hsame; right; reflexivity). reflexivity. }
      split; [reflexivity|]. do 4 (split; [reflexivity|]).
      split; [discriminate|]. split; [discriminate|]. auto.
Qed.

(** The witness of X6: unknown, then sat with a valid model. *)
Lemma gen_model_retries_unknown_witness :
  let env := Demo.env_of [(unknown, []); (sat, Demo.p_model)] "" [] in
  let ex := Demo.exec_at "STOP" true None in
  exists s2 ms' w' post,
    gen_model env Demo.args [] 0 ex World_init = inr (ms', w')
    /\ events w' = events World_init ++ [EvCheck (solver ex); EvCheck s2] ++ post
    /\ s_timeout s2 = Some 60000.
Proof.
  cbv zeta.
  destruct (gen_model_retries_unknown (Demo.env_of [(unknown, []); (sat, Demo.p_model)] "" [])
              Demo.args [] 0 (Demo.exec_at "STOP" true None) World_init eq_refl)
    as (s2 & ms' & w' & post & H1 & H2 & _ & _ & H3 & _).
  exists s2, ms', w', post. split; [exact H1|]. split; [exact H2 | exact H3].
Defined.

(** X7. With [--solver-subprocess], when the solvers in the process leave
    the answer unknown, the assertions are written to a new file under
    [/tmp] and z3 is run on it. Only the output [unsat] (blanks around it
    aside) clears the path: any other output, [sat] or not, records an
    entry with no model. The file is left in place. *)
Theorem gen_model_subprocess_only_unsat (env : Env) (args : Args) (models : list Entry)
    (idx : nat) (ex : Exec) (w w1 : World) (model : option ModelRef) :
  solve_in_process env args ex w = inr ((unknown, model), w1) ->
  solver_subprocess args = true ->
  let fname := "/tmp/" +:+ uuid4_hex env (n_uuids w1) +:+ ".smt2" in
  let content := "(set-logic QF_AUFBV)" +:+ nl +:+ z3_to_smt2 env (solver ex) in
  let out := z3_cli env (Some content) in
  exists w',
    gen_model env args models idx ex w
      = inr (if String.eqb (strip out) "unsat" then models
             else models ++ [(None, idx, ex)], w')
    /\ files w' = (fname, content) :: files w1
    /\ file_content fname (files w') = Some content
    /\ n_uuids w' = S (n_uuids w1)
    /\ checks (events w') = checks (events w1).
Proof.
  intros Hin Hsub fname content out.
  assert (Hs : exists w',
             solve_subprocess env args ex unknown w1
               = inr (if String.eqb (strip out) "unsat" then unsat else unknown, w')
             /\ files w' = (fname, content) :: files w1
             /\ n_uuids w' = S (n_uuids w1)
             /\ checks (events w') = checks (events w1)).
  { unfold solve_subprocess. rewrite Hsub.
    change (bool_decide (unknown = unknown) && true) with true. cbv iota.
    run_prims.
    destruct (4 <=? verbose args);
      cbn [events files n_uuids n_contexts n_objects lookup list_lookup file_content
           mbind option_bind];
      fold fname; fold content; rewrite String.eqb_refl; fold out;
      (eexists; split; [reflexivity|]; cbn [events files n_uuids];
       split; [reflexivity|]; split; [reflexivity|];
       rewrite !checks_app; simpl; rewrite ?app_nil_r; reflexivity). }
  destruct Hs as (w' & Hs & Hf & Hn & Hc).
  exists w'. split.
  - unfold gen_model. erewrite bind_eq by exact Hin. simpl.
    erewrite bind_eq by exact Hs.
    destruct (String.eqb (strip out) "unsat").
    + rewrite record_model_not_sat by discriminate. reflexivity.
    + rewrite record_model_not_sat by discriminate. reflexivity.
  - split; [exact Hf|]. split; [|auto].
    rewrite Hf. cbn [file_content]. now rewrite String.eqb_refl.
Qed.

(** The witness of X7: the command-line solver prints [timeout]. *)
Lemma gen_model_subprocess_only_unsat_witness :
  let env := Demo.env_of [(unknown, []); (unknown, [])] "timeout" [] in
  let ex := Demo.exec_at "STOP" true None in
  exists w',
    gen_model env Demo.args_subprocess [] 0 ex World_init
      = inr ([(None, 0%nat, ex)], w')
    /\ n_uuids w' = 1%nat.
Proof.
  cbv zeta.
  destruct (gen_model_subprocess_only_unsat
              (Demo.env_of [(unknown, []); (unknown, [])] "timeout" [])
              Demo.args_subprocess [] 0 (Demo.exec_at "STOP" true None) World_init
              _ None eq_refl eq_refl) as (w' & H1 & _ & _ & H2 & _).
  exists w'. split; [exact H1 | exact H2].
Defined.

(** ** The result line, the paths and the log of [run] *)








(** X9. When [run] returns it has printed exactly one result line. The
    line gives the signature, the number of normal terminal states over
    the number of all terminal states that the interpreter returned, and
    the sizes assumed for the dynamic parameters; its flag is PASS exactly
    when the exit code of the test is 0. *)
Theorem run_result_line (env : Env) (setup_ex : Exec) (abi : list AbiItem)
    (funname funsig : string) (funselector : Z) (arrlen : gmap string Z) (args : Args)
    (options : Options) (w w' : World) (code : Z) :
  run env setup_ex abi funname funsig funselector arrlen args options w = inr (code, w') ->
  exists t wa ex0 wb pre post,
    mk_calldata args arrlen abi funname funselector = inr t
    /\ mk_test_exec args options setup_ex (t_cd t) wa = inr (ex0, wb)
    /\ events w' = events w ++ pre
         ++ EvPrint (LResult (bool_decide (code = 0)) funsig
                       (count_kind is_normal (sevm_run env options ex0).1)
                       (length (sevm_run env options ex0).1) (dyn_param_size t))
         :: post
    /\ verdicts pre = [] /\ verdicts post = [].
Proof.
  intros H. apply run_inv in H as (t & wa & ex0 & wb & tally & wc & pre & post
                                   & Hcd & Hex & Hcl & Hcode & Hev & Hpre & Hpost & _).
  exists t, wa, ex0, wb, pre, post. split; [exact Hcd|]. split; [exact Hex|].
  split; [|auto].
  apply classify_all_inv in Hcl as (_ & Hn & _). cbn [Tally_init normal] in Hn.
  rewrite Hev, Hn. unfold count_kind.
  replace (bool_decide (code = 0)) with (passed_of tally); [reflexivity|].
  subst code. destruct (passed_of tally); reflexivity.
Qed.

(** The witness of X9: a test whose only terminal state is normal. *)
Lemma run_result_line_witness :
  exists t wa ex0 wb pre post,
    mk_calldata Demo.args ∅ [] "test_ok" 0x12345678 = inr t
    /\ mk_test_exec Demo.args (options_of Demo.args) (Demo.exec_at "STOP" false None) (t_cd t) wa
       = inr (ex0, wb)
    /\ events (Demo.world_after (LResult true "test_ok()" 1 1 []) 9)
       = events World_init ++ pre
           ++ EvPrint (LResult (bool_decide (0 = 0)) "test_ok()"
                         (count_kind is_normal (sevm_run Demo.env_normal (options_of Demo.args) ex0).1)
                         (length (sevm_run Demo.env_normal (options_of Demo.args) ex0).1)
                         (dyn_param_size t))
           :: post.
Proof.
  assert (H : run Demo.env_normal (Demo.exec_at "STOP" false None) [] "test_ok" "test_ok()"
                0x12345678 ∅ Demo.args (options_of Demo.args) World_init
              = inr (0, Demo.world_after (LResult true "test_ok()" 1 1 []) 9))
    by (vm_compute; reflexivity).
  destruct (run_result_line _ _ _ _ _ _ _ _ _ _ _ _ H)
    as (t & wa & ex0 & wb & pre & post & H1 & H2 & H3 & _).
  exists t, wa, ex0, wb, pre, post. split; [exact H1|]. split; [exact H2 | exact H3].
Defined.

(** ** The files written *)

Lemma keeps_files_ret {A : Type} (a : A) : keeps_files (mret a : M A).
Proof. intros w b w' H. apply ret_inr in H as [_ <-]. reflexivity. Qed.

Lemma keeps_files_bind {A B : Type} (m : M A) (f : A -> M B) :
  keeps_files m -> (forall a, keeps_files (f a)) -> keeps_files (m ≫= f).
Proof.
  intros Hm Hf w b w' H. apply bind_inr in H as (a & w1 & H1 & H2).
  rewrite (Hf _ _ _ _ H2). exact (Hm _ _ _ H1).
Qed.

Lemma keeps_files_raise {A : Type} (e : Exn) : keeps_files (raise e : M A).
Proof. intros w a w' H. discriminate. Qed.

Lemma keeps_files_emit (e : Event) : keeps_files (emit e).
Proof. intros w a w' H. unfold emit in H. injection H as _ <-. reflexivity. Qed.

Lemma keeps_files_when (b : bool) (m : M unit) : keeps_files m -> keeps_files (when b m).
Proof. intros H. destruct b; [exact H | apply keeps_files_ret]. Qed.

Lemma keeps_files_for_each {A : Type} (f : A -> M unit) (l : list A) :
  (forall a, keeps_files (f a)) -> keeps_files (for_each f l).
Proof.
  intros Hf. induction l as [| x r IH]; simpl.
  - apply keeps_files_ret.
  - apply keeps_files_bind; [apply Hf | intros _; exact IH].
Qed.

Lemma keeps_files_foldM {A B : Type} (f : A -> B -> M A) (l : list B) :
  (forall a x, keeps_files (f a x)) -> forall a, keeps_files (foldM f a l).
Proof.
  intros Hf. induction l as [| x r IH]; intros a; simpl.
  - apply keeps_files_ret.
  - apply keeps_files_bind; [apply Hf | intros a'; apply IH].
Qed.

Lemma keeps_files_lift {A : Type} (r : Res A) : keeps_files (lift r).
Proof.
  intros w a w' H. unfold lift in H. destruct r; [discriminate|].
  injection H as _ <-. reflexivity.
Qed.

Lemma keeps_files_alloc {A : Type} (f : nat -> A * nat) : keeps_files (alloc f).
Proof.
  intros w a w' H. unfold alloc in H. destruct (f (n_objects w)).
  injection H as _ <-. reflexivity.
Qed.

(** Proves that a computation built from the ones above keeps the files. *)
Ltac keeps_files_step :=
  lazymatch goal with
  | |- keeps_files (@mbind _ _ _ _ _ _) => apply keeps_files_bind; [|intro]
  | |- keeps_files (@mret _ _ _ _) => apply keeps_files_ret
  | |- keeps_files (raise _) => apply keeps_files_raise
  | |- keeps_files (lift _) => apply keeps_files_lift
  | |- keeps_files (alloc _) => apply keeps_files_alloc
  | |- keeps_files (when _ _) => apply keeps_files_when
  | |- keeps_files (for_each _ _) => apply keeps_files_for_each; intro
  | |- keeps_files (emit _) => apply keeps_files_emit
  | |- keeps_files (match ?x with _ => _ end) => destruct x
  end.

Ltac keeps_files_tac := repeat keeps_files_step.

Lemma keeps_files_classify (env : Env) (args : Args) (t : Tally) (idx : nat) (ex : Exec) :
  solver_subprocess args = false -> keeps_files (classify env args t idx ex).
Proof.
  intros Hsub.
  assert (Hg : forall ms, keeps_files (gen_model env args ms idx ex)).
  { intros ms w a w' H.
    now destruct (gen_model_no_subprocess _ _ _ _ _ _ _ _ Hsub H) as (_ & _ & Hf & _). }
  unfold classify.
  destruct (current_opcode ex) as [opcode|]; [|apply keeps_files_raise].
  destruct (String.eqb opcode "STOP" || String.eqb opcode "RETURN").
  - destruct (failed ex); [|apply keeps_files_ret].
    apply keeps_files_bind; [apply Hg | intros; apply keeps_files_ret].
  - destruct (String.eqb opcode "REVERT"); [|apply keeps_files_ret].
    destruct (output_eq_int (output ex) panic1); [|apply keeps_files_ret].
    apply keeps_files_bind; [apply Hg | intros; apply keeps_files_ret].
Qed.

Lemma keeps_files_classify_all (env : Env) (args : Args) (exs : list Exec) :
  solver_subprocess args = false ->
  forall t idx, keeps_files (classify_all env args t idx exs).
Proof.
  intros Hsub. induction exs as [| ex exs IH]; intros t idx; cbn [classify_all].
  - apply keeps_files_ret.
  - apply keeps_files_bind; [apply keeps_files_classify; exact Hsub | intros; apply IH].
Qed.

Lemma keeps_files_setup (env : Env) (hexcode : string) (abi : list AbiItem)
    (srcmap : list string) (srcs : list (string * Z)) (args : Args) (setup_sig : option Z)
    (options : Options) :
  keeps_files (setup env hexcode abi srcmap srcs args setup_sig options).
Proof.
  unfold setup, mk_exec, run_setUp, new_dict, new_list, print.
  destruct (sevm_decode env hexcode) as [ops code_]. keeps_files_tac.
Qed.

Lemma keeps_files_run (env : Env) (setup_ex : Exec) (abi : list AbiItem)
    (funname funsig : string) (funselector : Z) (arrlen : gmap string Z) (args : Args)
    (options : Options) :
  solver_subprocess args = false ->
  a_log args = None \/ a_log args = Some "" ->
  keeps_files (run env setup_ex abi funname funsig funselector arrlen args options).
Proof.
  intros Hsub Hlog. unfold run.
  apply keeps_files_bind; [apply keeps_files_lift | intros t].
  apply keeps_files_bind; [unfold print; keeps_files_tac | intros _].
  apply keeps_files_bind; [unfold mk_test_exec; keeps_files_tac | intros ex].
  destruct (sevm_run env options ex) as [exs steps].
  apply keeps_files_bind; [apply keeps_files_classify_all; exact Hsub | intros tally].
  apply keeps_files_bind; [apply keeps_files_emit | intros _].
  apply keeps_files_bind.
  { apply keeps_files_for_each. intros [[model idx] e].
    unfold print_model, print_path, print. keeps_files_tac. }
  intros _. apply keeps_files_bind.
  { apply keeps_files_for_each. intros [[opcode idx] e].
    unfold print_stuck, print_path, print. keeps_files_tac. }
  intros _. apply keeps_files_bind.
  { apply keeps_files_when, keeps_files_for_each. intros [idx e].
    unfold print_post_state, print. keeps_files_tac. }
  intros _. apply keeps_files_bind; [|intros _; apply keeps_files_ret].
  destruct Hlog as [-> | ->]; apply keeps_files_ret.
Qed.

(** X10. With [--log FILE] the steps that the interpreter returned for
    this test are written to FILE, as the last thing [run] does: after
    [run] the file holds these steps, whatever it held before (the log of
    an earlier test is overwritten). *)
Theorem run_writes_log (env : Env) (setup_ex : Exec) (abi : list AbiItem)
    (funname funsig : string) (funselector : Z) (arrlen : gmap string Z) (args : Args)
    (options : Options) (w w' : World) (code : Z) (f : string) :
  run env setup_ex abi funname funsig funselector arrlen args options w = inr (code, w') ->
  a_log args = Some f -> f <> "" ->
  exists t wa ex0 wb evs,
    mk_calldata args arrlen abi funname funselector = inr t
    /\ mk_test_exec args options setup_ex (t_cd t) wa = inr (ex0, wb)
    /\ file_content f (files w') = Some (sevm_run env options ex0).2
    /\ events w' = evs ++ [EvWrite f (sevm_run env options ex0).2].
Proof.
  unfold run. intros H Hlog Hf.
  apply bind_inr in H as (t & w0 & Ht & H).
  unfold lift in Ht. destruct (mk_calldata args arrlen abi funname funselector) as [|t0] eqn:Hcd;
    [discriminate|]. injection Ht as <- <-.
  apply bind_inr in H as ([] & wa & Hwarn & H).
  apply bind_inr in H as (ex0 & wb & Hex & H).
  exists t0, wa, ex0, wb.
  destruct (sevm_run env options ex0) as [exs steps] eqn:Hrun.
  apply bind_inr in H as (tally & wc & Hcl & H).
  apply bind_inr in H as ([] & w1 & Hres & H).
  apply bind_inr in H as ([] & w2 & Hpm & H).
  apply bind_inr in H as ([] & w3 & Hps & H).
  apply bind_inr in H as ([] & w4 & Hpp & H).
  apply bind_inr in H as ([] & w5 & Hw & H).
  apply ret_inr in H as [_ <-].
  rewrite Hlog in Hw. apply String.eqb_neq in Hf. rewrite Hf in Hw.
  unfold write_file in Hw. injection Hw as <-.
  exists (events w4). cbn [files events file_content snd].
  rewrite String.eqb_refl. auto.
Qed.

(** The witness of X10: a test run with [--log steps.json]. *)
Lemma run_writes_log_witness :
  exists code w',
    run Demo.env_normal (Demo.exec_at "STOP" false None) [] "test_ok" "test_ok()"
        0x12345678 ∅ Examples.args_log (options_of Examples.args_log) World_init
      = inr (code, w')
    /\ file_content "steps.json" (files w') = Some "[]".
Proof.
  destruct (run Demo.env_normal (Demo.exec_at "STOP" false None) [] "test_ok" "test_ok()"
              0x12345678 ∅ Examples.args_log (options_of Examples.args_log) World_init)
    as [e | [code w']] eqn:H; [vm_compute in H; discriminate|].
  exists code, w'. split; [reflexivity|].
  destruct (run_writes_log _ _ _ _ _ _ _ _ _ _ _ _ "steps.json" H eq_refl)
    as (t & wa & ex0 & wb & evs & _ & _ & Hc & _); [discriminate|].
  exact Hc.
Defined.

(** X11. Without [--log] and without [--solver-subprocess] neither a test
    nor the whole program writes a file. *)
Theorem run_writes_no_other_file (env : Env) (args : Args) :
  solver_subprocess args = false ->
  a_log args = None \/ a_log args = Some "" ->
  (forall setup_ex abi funname funsig funselector arrlen options w code w',
     run env setup_ex abi funname funsig funselector arrlen args options w = inr (code, w') ->
     files w' = files w)
  /\ (forall contracts w code w',
        main env args contracts w = inr (code, w') -> files w' = files w).
Proof.
  intros Hsub Hlog. split.
  - intros setup_ex abi funname funsig funselector arrlen options w code w' H.
    exact (keeps_files_run env setup_ex abi funname funsig funselector arrlen args options
             Hsub Hlog _ _ _ H).
  - intros contracts. 
    assert (K : keeps_files (main env args contracts)); [|exact K].
    unfold main. apply keeps_files_bind; [apply keeps_files_lift | intros arrlen].
    apply keeps_files_bind.
    + apply keeps_files_foldM. intros totals c. unfold run_contract.
      destruct (filter _ _) as [| s l]; [apply keeps_files_ret|].
      apply keeps_files_bind; [apply keeps_files_emit | intros _].
      apply keeps_files_bind; [apply keeps_files_setup | intros setup_ex].
      apply keeps_files_bind.
      * apply keeps_files_foldM. intros counts funsig. unfold run_funsig.
        destruct (lookup_sig _ _); [|apply keeps_files_raise].
        apply keeps_files_bind; [apply keeps_files_run; assumption | intros].
        apply keeps_files_ret.
      * intros nums. apply keeps_files_bind; [apply keeps_files_emit | intros _].
        apply keeps_files_ret.
    + intros totals. destruct (Nat.eqb _ 0); [apply keeps_files_raise | apply keeps_files_ret].
Qed.

(** The witness of X11: a test run with neither option. *)
Lemma run_writes_no_other_file_witness :
  files (Demo.world_after (LResult true "test_ok()" 1 1 []) 9) = files World_init.
Proof.
  assert (H : run Demo.env_normal (Demo.exec_at "STOP" false None) [] "test_ok" "test_ok()"
                0x12345678 ∅ Demo.args (options_of Demo.args) World_init
              = inr (0, Demo.world_after (LResult true "test_ok()" 1 1 []) 9))
    by (vm_compute; reflexivity).
  exact (proj1 (run_writes_no_other_file Demo.env_normal Demo.args eq_refl (or_introl eq_refl))
           _ _ _ _ _ _ _ _ _ _ H).
Defined.

(** ** The tests that [main] runs *)

Lemma reported_app (a b : list Event) : reported (a ++ b) = reported a ++ reported b.
Proof.
  induction a as [| e a IH]; [reflexivity|].
  destruct e as [[]| | |]; simpl; rewrite IH; reflexivity.
Qed.

Lemma reported_quiet (evs : list Event) : verdicts evs = [] -> reported evs = [].
Proof.
  induction evs as [| e evs IH]; [reflexivity|].
  destruct e as [[]| | |]; simpl; try exact IH. discriminate.
Qed.

Lemma quiet_reported {A : Type} (m : M A) (w : World) (a : A) (w' : World) :
  quiet m -> m w = inr (a, w') -> reported (events w') = reported (events w).
Proof.
  intros Hq H. destruct (Hq _ _ _ H) as (post & -> & Hv).
  rewrite reported_app, (reported_quiet _ Hv), app_nil_r. reflexivity.
Qed.

Lemma foldM_app {A B : Type} (f : A -> B -> M A) (l1 l2 : list B) :
  forall (a : A) (w : World),
  foldM f a (l1 ++ l2) w = (a1 ← foldM f a l1; foldM f a1 l2) w.
Proof.
  induction l1 as [| x l1 IH]; intros a w; [reflexivity|].
  cbn [app foldM]. unfold mbind, M_bind.
  destruct (f a x w) as [e | [a1 w1]]; [reflexivity|]. apply IH.
Qed.

(** One test: its result line, and the counts afterwards. *)
Lemma run_funsig_reported (env : Env) (args : Args) (options : Options)
    (arrlen : gmap string Z) (c : Contract) (setup_ex : Exec) (counts : nat * nat)
    (funsig : string) (w w' : World) (counts' : nat * nat) :
  run_funsig env args options arrlen c setup_ex counts funsig w = inr (counts', w') ->
  exists passed : bool,
    verdicts (events w') = verdicts (events w) ++ [passed]
    /\ reported (events w') = reported (events w) ++ [funsig]
    /\ counts' = ((counts.1 + count_of true [passed])%nat,
                  (counts.2 + count_of false [passed])%nat).
Proof.
  intros H. unfold run_funsig in H.
  destruct (lookup_sig funsig (methodIdentifiers c)) as [sel|]; [|discriminate].
  apply bind_inr in H as (code & w1 & Hrun & H).
  apply ret_inr in H as [<- <-].
  pose proof (run_verdicts _ _ _ _ _ _ _ _ _ _ _ _ Hrun) as (passed & Hev & ->).
  apply run_inv in Hrun as (t & wa & ex0 & wb & tally & wc & pre & post
                            & _ & _ & _ & _ & Hevs & Hpre & Hpost & _).
  exists passed. split; [exact Hev|]. split.
  - rewrite Hevs, !reported_app. cbn [reported].
    rewrite (reported_quiet _ Hpre), (reported_quiet _ Hpost). reflexivity.
  - destruct passed; unfold count_of; simpl; f_equal; lia.
Qed.

Lemma run_funsigs_reported (env : Env) (args : Args) (options : Options)
    (arrlen : gmap string Z) (c : Contract) (setup_ex : Exec) (funsigs : list string) :
  forall (counts : nat * nat) (w w' : World) (counts' : nat * nat),
  foldM (run_funsig env args options arrlen c setup_ex) counts funsigs w = inr (counts', w') ->
  exists vs,
    verdicts (events w') = verdicts (events w) ++ vs
    /\ length vs = length funsigs
    /\ reported (events w') = reported (events w) ++ funsigs
    /\ counts' = ((counts.1 + count_of true vs)%nat, (counts.2 + count_of false vs)%nat).
Proof.
  induction funsigs as [| s r IH]; intros counts w w' counts' H; cbn [foldM] in H.
  - apply ret_inr in H as [<- <-]. exists []. rewrite !app_nil_r.
    unfold count_of. simpl. rewrite !Nat.add_0_r. destruct counts; auto.
  - apply bind_inr in H as (c1 & w1 & H1 & H2).
    apply run_funsig_reported in H1 as (p & E1 & R1 & ->).
    apply IH in H2 as (vs & E2 & L2 & R2 & ->).
    exists (p :: vs). rewrite E2, E1, R2, R1, <- !app_assoc. cbn [fst snd length app].
    split; [reflexivity|]. split; [lia|]. split; [reflexivity|].
    change (p :: vs) with ([p] ++ vs). rewrite !count_of_app. f_equal; lia.
Qed.

Lemma run_funsigs_events (env : Env) (args : Args) (options : Options)
    (arrlen : gmap string Z) (c : Contract) (setup_ex : Exec) (funsigs : list string) :
  forall (counts : nat * nat) (w w' : World) (counts' : nat * nat),
  foldM (run_funsig env args options arrlen c setup_ex) counts funsigs w = inr (counts', w') ->
  exists post, events w' = events w ++ post.
Proof.
  induction funsigs as [| s r IH]; intros counts w w' counts' H; cbn [foldM] in H.
  - apply ret_inr in H as [_ <-]. exists []. now rewrite app_nil_r.
  - apply bind_inr in H as (c1 & w1 & H1 & H2).
    apply IH in H2 as (p & ->).
    unfold run_funsig in H1. destruct (lookup_sig _ _); [|discriminate].
    apply bind_inr in H1 as (code & w0 & Hrun & H1). apply ret_inr in H1 as [_ <-].
    apply run_inv in Hrun as (? & ? & ? & ? & ? & ? & pre & post & _ & _ & _ & _ & -> & _).
    eexists. rewrite <- !app_assoc. reflexivity.
Qed.

(** The steps of [run_contract] for a contract with tests. *)
Lemma run_contract_inv (env : Env) (args : Args) (options : Options)
    (arrlen : gmap string Z) (totals : nat * nat) (c : Contract) (w w' : World)
    (totals' : nat * nat) :
  run_contract env args options arrlen totals c w = inr (totals', w') ->
  has_tests args c = true ->
  exists vs mid,
    verdicts (events w') = verdicts (events w) ++ vs
    /\ length vs = length (tests_of args c)
    /\ reported (events w') = reported (events w) ++ tests_of args c
    /\ events w' = events w
         ++ EvPrint (LRunning (length (tests_of args c)) (c_filename c +:+ ":" +:+ c_name c))
         :: mid ++ [EvPrint (LSummary (count_of true vs) (count_of false vs))]
    /\ totals' = ((totals.1 + count_of true vs)%nat, (totals.2 + count_of false vs)%nat).
Proof.
  unfold run_contract, has_tests, tests_of. intros H Ht.
  destruct (filter _ _) as [| f0 fs] eqn:Hf; [discriminate|].
  apply bind_inr in H as ([] & w1 & Hp & H).
  apply bind_inr in H as (setup_ex & w2 & Hs & H).
  apply bind_inr in H as (nums & w3 & Hn & H).
  apply bind_inr in H as ([] & w4 & Hq & H).
  apply ret_inr in H as [<- <-].
  unfold print, emit in Hp. injection Hp as <-.
  pose proof (quiet_setup _ _ _ _ _ _ _ _ _ _ _ Hs) as (p2 & E2 & V2).
  cbn [events] in E2.
  pose proof (run_funsigs_events _ _ _ _ _ _ _ _ _ _ _ Hn) as Hmid.
  pose proof (run_funsigs_reported _ _ _ _ _ _ _ _ _ _ _ Hn) as (vs & E3 & L3 & R3 & ->).
  destruct Hmid as (p3 & E3').
  unfold print, emit in Hq. injection Hq as <-. cbn [events fst snd].
  exists vs, (p2 ++ p3).
  rewrite !verdicts_app, !reported_app. cbn [verdicts reported]. rewrite !app_nil_r.
  rewrite E3, R3, E2, !verdicts_app, !reported_app, V2, (reported_quiet _ V2).
  cbn [verdicts reported]. rewrite !app_nil_r.
  split; [reflexivity|]. split; [exact L3|]. split; [reflexivity|]. split.
  - rewrite E3', E2, <- !app_assoc. reflexivity.
  - simpl. reflexivity.
Qed.

Lemma run_contract_skip (env : Env) (args : Args) (options : Options)
    (arrlen : gmap string Z) (totals : nat * nat) (c : Contract) (w : World) :
  has_tests args c = false ->
  run_contract env args options arrlen totals c w = inr (totals, w).
Proof.
  unfold run_contract, has_tests, tests_of. intros Ht.
  destruct (filter _ _); [reflexivity | discriminate].
Qed.

(** X12. A contract that has no function whose signature starts with
    [args.function] is passed over: nothing is printed for it and its
    [setUp()] is not run, so the program behaves as if the contract were
    not in the compilation. *)
Theorem main_skips_contracts_without_tests (env : Env) (args : Args)
    (contracts : list Contract) (w : World) :
  main env args contracts w
    = main env args (filter (fun c => has_tests args c = true) contracts) w.
Proof.
  unfold main. unfold mbind at 1 3, M_bind.
  destruct (lift (arrlen_of args) w) as [e | [arrlen w0]]; [reflexivity|].
  assert (Hf : forall totals w1,
            foldM (run_contract env args (options_of args) arrlen) totals contracts w1
            = foldM (run_contract env args (options_of args) arrlen) totals
                (filter (fun c => has_tests args c = true) contracts) w1).
  { induction contracts as [| c cs IH]; intros totals w1; [reflexivity|].
    rewrite filter_cons. destruct (has_tests args c) eqn:Ht.
    - rewrite decide_True by reflexivity. cbn [foldM]. unfold mbind, M_bind.
      destruct (run_contract _ _ _ _ totals c w1) as [e | [t1 w2]]; [reflexivity|]. apply IH.
    - rewrite decide_False by discriminate. cbn [foldM].
      erewrite bind_eq by (apply run_contract_skip; exact Ht). apply IH. }
  unfold mbind, M_bind. rewrite Hf. reflexivity.
Qed.

(** X13. For a contract with tests, [run_contract] first prints the line
    Running with the number of its tests, then (after [setUp()]) runs
    every one of them, in the order of the method identifiers and whether
    or not an earlier one failed, and last prints the summary, whose two
    numbers are the numbers of result lines that say PASS and FAIL. *)
Theorem run_contract_summary (env : Env) (args : Args) (options : Options)
    (arrlen : gmap string Z) (totals : nat * nat) (c : Contract) (w w' : World)
    (totals' : nat * nat) :
  run_contract env args options arrlen totals c w = inr (totals', w') ->
  tests_of args c <> [] ->
  exists vs mid,
    verdicts (events w') = verdicts (events w) ++ vs
    /\ length vs = length (tests_of args c)
    /\ reported (events w') = reported (events w) ++ tests_of args c
    /\ events w' = events w
         ++ EvPrint (LRunning (length (tests_of args c)) (c_filename c +:+ ":" +:+ c_name c))
         :: mid ++ [EvPrint (LSummary (count_of true vs) (count_of false vs))]
    /\ totals' = ((totals.1 + count_of true vs)%nat, (totals.2 + count_of false vs)%nat).
Proof.
  intros H Ht. apply (run_contract_inv _ _ _ _ _ _ _ _ _ H).
  unfold has_tests. destruct (tests_of args c); [contradiction | reflexivity].
Qed.

(** The witness of X13: a contract with one test, which passes. *)
Lemma run_contract_summary_witness :
  exists totals' w' vs mid,
    run_contract Demo.env_normal Demo.args (options_of Demo.args) ∅ (0, 0)%nat
      Examples.contract_ok World_init = inr (totals', w')
    /\ verdicts (events w') = verdicts (events World_init) ++ vs
    /\ events w' = events World_init
         ++ EvPrint (LRunning 1 "Test.sol:T")
         :: mid ++ [EvPrint (LSummary (count_of true vs) (count_of false vs))].
Proof.
  destruct (run_contract Demo.env_normal Demo.args (options_of Demo.args) ∅ (0, 0)%nat
              Examples.contract_ok World_init) as [e | [totals' w']] eqn:H;
    [vm_compute in H; discriminate|].
  destruct (run_contract_summary _ _ _ _ _ _ _ _ _ H) as (vs & mid & H1 & _ & _ & H2 & _);
    [discriminate|].
  exists totals', w', vs, mid. split; [reflexivity|]. split; [exact H1 | exact H2].
Defined.

(** X14. When [main] returns, the result lines it has printed are those of
    the tests of all the contracts, one line per test, contract by contract
    in the order given and test by test in the order of the method
    identifiers: no test is left out after a failure. *)
Theorem main_runs_every_test (env : Env) (args : Args) (contracts : list Contract)
    (w w' : World) (code : Z) :
  main env args contracts w = inr (code, w') ->
  reported (events w') = reported (events w) ++ concat (map (tests_of args) contracts)
  /\ length (verdicts (events w'))
     = (length (verdicts (events w))
        + sum_list_with (fun c => length (tests_of args c)) contracts)%nat.
Proof.
  unfold main. intros H.
  apply bind_inr in H as (arrlen & w0 & Ha & H).
  apply bind_inr in H as (totals & w1 & Ht & H).
  unfold lift in Ha. destruct (arrlen_of args); [discriminate|]. injection Ha as <- <-.
  destruct (Nat.eqb (totals.1 + totals.2) 0); [discriminate|].
  apply ret_inr in H as [_ <-]. revert Ht. generalize (0%nat, 0%nat). revert w.
  induction contracts as [| c cs IH]; intros w t0 H; cbn [foldM] in H.
  - apply ret_inr in H as [_ <-]. simpl. rewrite app_nil_r. split; [reflexivity | lia].
  - apply bind_inr in H as (t1 & w2 & H1 & H2).
    apply IH in H2 as [R2 V2]. cbn [map concat sum_list_with].
    destruct (has_tests args c) eqn:Hc.
    + apply run_contract_inv in H1 as (vs & mid & E1 & L1 & R1 & _); [|exact Hc].
      rewrite R2, R1, <- app_assoc. split; [reflexivity|].
      rewrite V2, E1, length_app. lia.
    + rewrite run_contract_skip in H1 by exact Hc. injection H1 as _ <-.
      assert (Hn : tests_of args c = []).
      { unfold has_tests in Hc. destruct (tests_of args c); [reflexivity | discriminate]. }
      rewrite R2, V2, Hn. simpl. split; [reflexivity | lia].
Qed.

(** The witness of X14: one contract with one test. *)
Lemma main_runs_every_test_witness :
  exists code w',
    main Demo.env_normal Demo.args [Examples.contract_ok] World_init = inr (code, w')
    /\ reported (events w') = ["test_ok()"].
Proof.
  destruct (main Demo.env_normal Demo.args [Examples.contract_ok] World_init)
    as [e | [code w']] eqn:H; [vm_compute in H; discriminate|].
  exists code, w'. split; [reflexivity|].
  exact (proj1 (main_runs_every_test _ _ _ _ _ _ H)).
Defined.

(** X15. An exception of [setup] ends the whole program, not only the
    tests of the contract: when the contracts before [c] were run, [c] has
    tests, and [setup] raises for it (after the line Running was printed),
    [main] raises that exception, the contracts after [c] are not
    visited, and the exit status is 1. *)
Theorem main_aborts_on_setup_error (env : Env) (args : Args) (before after : list Contract)
    (c : Contract) (arrlen : gmap string Z) (w w1 : World) (totals : nat * nat) (e : Exn) :
  arrlen_of args = inr arrlen ->
  foldM (run_contract env args (options_of args) arrlen) (0, 0)%nat before w
    = inr (totals, w1) ->
  tests_of args c <> [] ->
  (forall w2,
     print (LRunning (length (tests_of args c)) (c_filename c +:+ ":" +:+ c_name c)) w1
       = inr (tt, w2) ->
     setup env (c_hexcode c) (c_abi c) (c_srcmap c) [] args
       (lookup_sig "setUp()" (methodIdentifiers c)) (options_of args) w2 = inl e) ->
  main env args (before ++ c :: after) w = inl e
  /\ exit_status (main env args (before ++ c :: after) w) = 1.
Proof.
  intros Ha Hb Ht Hs.
  assert (Hm : main env args (before ++ c :: after) w = inl e); [|rewrite Hm; auto].
  unfold main. unfold lift. rewrite Ha. unfold mbind at 1, M_bind at 1.
  unfold mbind at 1, M_bind at 1. rewrite foldM_app.
  erewrite bind_eq by exact Hb. cbn [foldM].
  assert (Hc : run_contract env args (options_of args) arrlen totals c w1 = inl e).
  { unfold run_contract. fold (tests_of args c).
    destruct (tests_of args c) as [| s l] eqn:Hl; [contradiction|].
    unfold mbind at 1, M_bind at 1.
    destruct (print _ w1) as [e0 | [[] w2]] eqn:Hp; [discriminate|].
    unfold mbind at 1, M_bind at 1. rewrite (Hs w2 eq_refl). reflexivity. }
  unfold mbind at 1, M_bind at 1. rewrite Hc. reflexivity.
Qed.

(** The witness of X15: [setUp()] of the second of three contracts ends in two states. *)
Lemma main_aborts_on_setup_error_witness :
  main Examples.env_two_paths Demo.args
    ([Examples.contract_ok] ++ Examples.contract_setUp :: [Examples.contract_ok]) World_init
    = inl (ValueError "multiple paths exist in setUp()" "").
Proof.
  destruct (foldM (run_contract Examples.env_two_paths Demo.args (options_of Demo.args) ∅)
              (0, 0)%nat [Examples.contract_ok] World_init) as [e0 | [totals w1]] eqn:Hb;
    [vm_compute in Hb; discriminate|].
  refine (proj1 (main_aborts_on_setup_error Examples.env_two_paths Demo.args
                   [Examples.contract_ok] [Examples.contract_ok] Examples.contract_setUp
                   ∅ World_init w1 totals _ eq_refl Hb _ _)).
  - discriminate.
  - intros w2 Hp. unfold print, emit in Hp. injection Hp as <-.
    vm_compute. reflexivity.
Defined.

(** ** The lengths given with [--array-lengths] *)

Lemma arrlen_assign_inr (arrlen arrlen' : gmap string Z) (x : string) :
  arrlen_assign arrlen x = inr arrlen' <->
  exists kv, assignment x = Some kv /\ arrlen' = <[kv.1 := kv.2]> arrlen.
Proof.
  unfold arrlen_assign, assignment.
  destruct (split_on equals_sign x) as [| name [| size rest]]; cbn [lookup list_lookup].
  - split; [discriminate | intros (kv & [=] & _)].
  - split; [discriminate | intros (kv & [=] & _)].
  - destruct (py_int (strip size)) as [e | n]; cbn [mbind Res_bind mret Res_ret].
    + split; [discriminate | intros (kv & [=] & _)].
    + split.
      * intros [= <-]. exists (strip name, n). auto.
      * intros (kv & [= <-] & ->). reflexivity.
Qed.




Lemma split_on_no_sep (sep : Ascii.ascii) (s : string) :
  has_char sep s = false -> split_on sep s = [s].
Proof.
  induction s as [| c r IH]; intros H; [reflexivity|].
  cbn [has_char] in H. apply orb_false_iff in H as [Hc Hr].
  cbn [split_on]. rewrite Hc, (IH Hr). reflexivity.
Qed.

(** X17. A part of [--array-lengths] without an equals sign (an empty
    part, after a trailing comma, is one) makes the program fail with an
    IndexError, when the parts before it are assignments. *)
Theorem arrlen_of_missing_equals (args : Args) (s : string) (pre post : list string)
    (x : string) :
  array_lengths args = Some s -> s <> "" ->
  split_on comma s = pre ++ x :: post ->
  Forall (fun y => assignment y <> None) pre ->
  has_char equals_sign x = false ->
  arrlen_of args = inl IndexError
  /\ forall env contracts w, main env args contracts w = inl IndexError.
Proof.
  intros Hs Hne Hsplit Hpre Hx.
  assert (Ha : arrlen_of args = inl IndexError).
  { unfold arrlen_of. rewrite Hs.
    apply String.eqb_neq in Hne. rewrite Hne, Hsplit.
    assert (Hok : forall m, exists m', foldlM arrlen_assign m pre = inr m').
    { clear -Hpre. induction Hpre as [| y pre Hy _ IH]; intros m; [eauto|].
      destruct (assignment y) as [kv|] eqn:Ha; [|contradiction].
      cbn [foldlM].
      assert (H1 : arrlen_assign m y = inr (<[kv.1 := kv.2]> m))
        by (apply arrlen_assign_inr; eauto).
      rewrite H1. apply IH. }
    destruct (Hok ∅) as (m1 & H1).
    eapply foldlM_inl_app; [exact H1|].
    unfold arrlen_assign. rewrite (split_on_no_sep _ _ Hx). reflexivity. }
  split; [exact Ha|].
  intros env contracts w. unfold main, lift. rewrite Ha. reflexivity.
Qed.

(** The witness of X17: the option [a=1,], whose last part is empty. *)
Lemma arrlen_of_missing_equals_witness :
  arrlen_of Examples.args_arrlen_bad = inl IndexError.
Proof.
  refine (proj1 (arrlen_of_missing_equals Examples.args_arrlen_bad "a=1," ["a=1"] [] ""
                   eq_refl _ eq_refl _ eq_refl)).
  - discriminate.
  - constructor; [vm_compute; discriminate | constructor].
Defined.

(** ** Source maps that do not fit *)

Lemma srcmap_step_srcidx (env : Env) (target : string) (fpath : gmap Z string)
    (acc acc' : SrcVars * list Opcode) (idx_sm : nat * string) :
  srcmap_step env target fpath acc idx_sm = inr acc' -> v_srcidx acc'.1 <> None.
Proof.
  destruct acc as [v ops], idx_sm as [idx sm_]. unfold srcmap_step. intros H.
  apply res_bind_inr in H as (start & _ & H).
  apply res_bind_inr in H as (len & _ & H).
  apply res_bind_inr in H as (srcidx & _ & H).
  apply res_bind_inr in H as (mdepth & _ & H).
  apply res_bind_inr in H as (srctext & _ & H).
  destruct (ops !! idx); [|discriminate]. injection H as <-. discriminate.
Qed.

Lemma srcmap_step_out_of_range (env : Env) (target : string) (v : SrcVars)
    (ops : list Opcode) (idx : nat) (sm_ : string) :
  entry_ok sm_ ->
  (srcmap_field sm_ 2 <> "" \/ v_srcidx v <> None) ->
  ops !! idx = None ->
  srcmap_step env target ∅ (v, ops) (idx, sm_) = inl IndexError.
Proof.
  intros (H0 & H1 & H2 & H4) Hsrc Hidx. unfold srcmap_step.
  destruct (int_or_ok _ (v_start v) H0) as (z0 & -> & _). cbn [mbind Res_bind].
  destruct (int_or_ok _ (v_length v) H1) as (z1 & -> & _). cbn [mbind Res_bind].
  assert (Hs : exists i,
             (if negb (String.eqb (srcmap_field sm_ 2) "") then py_int (srcmap_field sm_ 2)
              else match v_srcidx v with
                   | Some i => inr i
                   | None => inl (UnboundLocalError "srcidx")
                   end) = inr i).
  { destruct (String.eqb_spec (srcmap_field sm_ 2) "") as [E | E]; cbn [negb].
    - destruct Hsrc as [? | Hv]; [contradiction|].
      destruct (v_srcidx v); [eauto | contradiction].
    - destruct H2 as [? | [z Hz]]; [contradiction | eauto]. }
  destruct Hs as (i & ->). cbn [mbind Res_bind].
  destruct (int_or_ok _ (v_mdepth v) H4) as (z4 & -> & _). cbn [mbind Res_bind].
  rewrite lookup_empty. cbn [mbind Res_bind]. rewrite Hidx. reflexivity.
Qed.

Lemma srcmap_fold_srcidx (env : Env) (target : string) (fpath : gmap Z string)
    (l : list (nat * string)) :
  forall acc acc',
  foldlM (srcmap_step env target fpath) acc l = inr acc' ->
  l <> [] \/ v_srcidx acc.1 <> None -> v_srcidx acc'.1 <> None.
Proof.
  induction l as [| x l IH]; intros acc acc' H Hne.
  - injection H as <-. destruct Hne as [? | ?]; [contradiction | assumption].
  - apply foldlM_inr_cons in H as (a1 & H1 & H2).
    apply (IH _ _ H2). right. eapply srcmap_step_srcidx; eauto.
Qed.

(** X18. A source map with more entries than the contract has opcodes
    makes [add_srcmap] fail with an IndexError at the first entry that has
    no opcode (the entries up to it being well formed, the first one with
    a file id), so that [setup] and the program fail with it. *)
Theorem add_srcmap_more_entries_than_opcodes (env : Env) (target : string)
    (ops : list Opcode) (srcmap : list string) :
  (length ops < length srcmap)%nat ->
  Forall entry_ok (take (S (length ops)) srcmap) ->
  (forall sm0, srcmap !! 0%nat = Some sm0 -> srcmap_field sm0 2 <> "") ->
  add_srcmap env target ops srcmap [] = inl IndexError
  /\ forall hexcode abi args setup_sig options w,
       (sevm_decode env hexcode).1 = ops ->
       setup env hexcode abi srcmap [] args setup_sig options w = inl IndexError.
Proof.
  intros Hlen Hok Hfirst.
  assert (Hadd : forall target, add_srcmap env target ops srcmap [] = inl IndexError).
  { clear target. intros target.
    destruct (lookup_lt_is_Some_2 srcmap (length ops) Hlen) as [x Hx].
    pose proof (take_drop_middle srcmap (length ops) x Hx) as Hsplit.
    set (l1 := take (length ops) srcmap) in *.
    set (l2 := drop (S (length ops)) srcmap) in *.
    assert (Hl1 : length l1 = length ops) by (subst l1; rewrite length_take; lia).
    assert (Hok1 : Forall entry_ok l1 /\ entry_ok x).
    { rewrite (take_S_r _ _ _ Hx) in Hok. apply Forall_app in Hok as [? Hx'].
      split; [assumption|]. now inversion Hx'. }
    destruct Hok1 as [Hok1 Hokx].
    unfold add_srcmap. rewrite <- Hsplit.
    change (fpath_of []) with (∅ : gmap Z string).
    rewrite length_app. cbn [length]. rewrite seq_app. cbn [seq].
    rewrite zip_with_app by (rewrite length_seq; reflexivity). cbn [zip_with].
    assert (Hfirst1 : forall sm0, l1 !! 0%nat = Some sm0 -> srcmap_field sm0 2 <> "").
    { intros sm0 H0. apply Hfirst. rewrite <- Hsplit.
      rewrite lookup_app_l; [exact H0|]. apply lookup_lt_Some in H0. exact H0. }
    destruct (srcmap_fold_ok env target l1 0 SrcVars_init ops) as (v' & ops' & Hf & Hl' & _).
    { lia. } { exact Hok1. } { right. exact Hfirst1. }
    erewrite foldlM_inl_app; [reflexivity | exact Hf |].
    apply srcmap_step_out_of_range; [exact Hokx | | apply lookup_ge_None_2; lia].
    destruct l1 as [| y l1'] eqn:El1.
    - left. apply Hfirst. rewrite <- Hsplit. reflexivity.
    - right. apply (srcmap_fold_srcidx _ _ _ _ _ _ Hf). left. simpl. discriminate. }
  split; [apply Hadd|].
  intros hexcode abi args setup_sig options w Hdec. unfold setup.
  destruct (sevm_decode env hexcode) as [ops0 code_]. cbn [fst] in Hdec. subst ops0.
  unfold lift. rewrite Hadd. reflexivity.
Qed.

(** The witness of X18: two entries for one opcode. *)
Lemma add_srcmap_more_entries_than_opcodes_witness :
  add_srcmap Demo.env_normal "." [{| op := ["STOP"]; sm := None |}] ["0:1:0:-:0"; ""] []
    = inl IndexError.
Proof.
  refine (proj1 (add_srcmap_more_entries_than_opcodes Demo.env_normal "."
                   [{| op := ["STOP"]; sm := None |}] ["0:1:0:-:0"; ""] _ _ _)).
  - simpl. lia.
  - cbn [take length]. repeat apply List.Forall_cons; try apply List.Forall_nil;
      unfold entry_ok, int_field_ok; repeat split;
      first [left; reflexivity | right; eexists; vm_compute; reflexivity].
  - intros sm0 [= <-]. vm_compute. discriminate.
Defined.

(** ** More on calldata *)

Lemma foldlM_inr_In {A B : Type} (f : A -> B -> Res A) (l : list B) :
  forall (a a' : A) (x : B),
  foldlM f a l = inr a' -> In x l -> exists a1 a2, f a1 x = inr a2.
Proof.
  induction l as [| y l IH]; intros a a' x H Hin; [destruct Hin|].
  apply foldlM_inr_cons in H as (a1 & H1 & H2).
  destruct Hin as [<- | Hin]; [eauto | eapply IH; eauto].
Qed.

Lemma head_param_supported (l l' : Layout) (p : Param) :
  head_param l p = inr l' -> supported p.
Proof.
  unfold head_param, supported, is_dynamic.
  destruct (String.eqb_spec (param_type p) "tuple") as [E | E]; [discriminate|].
  intros H. split; [exact E|].
  destruct (String.eqb (param_type p) "bytes" || String.eqb (param_type p) "string");
    [now left|].
  right. destruct (endswith (param_type p) "[]"); [discriminate|].
  split; [reflexivity|]. destruct (re_search (param_type p)); [discriminate | discriminate].
Qed.

Lemma mk_calldata_supported (args : Args) (arrlen : gmap string Z) (abi : list AbiItem)
    (funname : string) (funselector : Z) (t : Tail) :
  mk_calldata args arrlen abi funname funselector = inr t ->
  forall item, In item abi -> matches funname item = true ->
  forall p, In p (inputs item) -> supported p.
Proof.
  unfold mk_calldata. intros H item Hin Hm p Hp.
  apply res_bind_inr in H as (cd0 & _ & H).
  destruct (foldlM_inr_In _ _ _ _ _ H Hin) as (t1 & t2 & Hitem).
  unfold abi_item in Hitem. rewrite Hm in Hitem.
  apply res_bind_inr in Hitem as (l & Hhead & _).
  destruct (foldlM_inr_In _ _ _ _ _ Hhead Hp) as (l1 & l2 & Hparam).
  eapply head_param_supported; eauto.
Qed.

(** X19. [run] returns only for a test all of whose parameters are of a
    supported type: when it returns, no parameter of an ABI entry of the
    function is a [tuple], and every parameter other than [bytes] and
    [string] has a type that does not end in [[]] and in which the regular
    expression finds an elementary type. For any other parameter [run]
    raises before the interpreter is started. *)
Theorem run_needs_supported_types (env : Env) (setup_ex : Exec) (abi : list AbiItem)
    (funname funsig : string) (funselector : Z) (arrlen : gmap string Z) (args : Args)
    (options : Options) (w w' : World) (code : Z) :
  run env setup_ex abi funname funsig funselector arrlen args options w = inr (code, w') ->
  forall item, In item abi -> matches funname item = true ->
  forall p, In p (inputs item) ->
    param_type p <> "tuple"
    /\ (is_dynamic p = true
        \/ (endswith (param_type p) "[]" = false /\ re_search (param_type p) <> None)).
Proof.
  intros H. apply run_inv in H as (t & _ & _ & _ & _ & _ & _ & _ & Hcd & _).
  exact (mk_calldata_supported _ _ _ _ _ _ Hcd).
Qed.

(** The witness of X19: [test_f(uint8 a, bytes b)]. *)
Lemma run_needs_supported_types_witness :
  let p := {| param_name := "a"; param_type := "uint8" |} in
  param_type p <> "tuple"
  /\ (is_dynamic p = true
      \/ (endswith (param_type p) "[]" = false /\ re_search (param_type p) <> None)).
Proof.
  destruct (run Demo.env_normal (Demo.exec_at "STOP" false None) Demo.abi_f "test_f"
              "test_f(uint8,bytes)" 0x12345678 ∅ Demo.args (options_of Demo.args) World_init)
    as [e | [code w']] eqn:H; [vm_compute in H; discriminate|].
  apply (run_needs_supported_types _ _ _ _ _ _ _ _ _ _ _ _ H
           {| item_type := "function"; item_name := "test_f";
              inputs := [{| param_name := "a"; param_type := "uint8" |};
                         {| param_name := "b"; param_type := "bytes" |}] |}).
  - left. reflexivity.
  - reflexivity.
  - left. reflexivity.
Defined.

Lemma cd_init_lookup (j : nat) :
  (j < cdsize)%nat -> cd_init !! j = Some (Some (App1 "cd" (con (Z.of_nat j)))).
Proof.
  intros Hj. unfold cd_init. rewrite list_lookup_fmap, lookup_seq_lt by exact Hj.
  reflexivity.
Qed.

Lemma length_cd_init : length cd_init = cdsize.
Proof. unfold cd_init. now rewrite length_map, length_seq. Qed.

(** The selector is always stored. *)
Lemma wstore_selector (funselector : Z) :
  wstore cd_init 0 4 (mkBitVecVal funselector 32)
    = inr (store_bytes cd_init 0 4 (mkBitVecVal funselector 32)).
Proof.
  unfold wstore. rewrite length_cd_init. unfold cdsize.
  rewrite decide_True by lia. reflexivity.
Qed.

(** What the entry that matches leaves as it was, and where it ends. *)
Lemma abi_item_frame (args : Args) (arrlen : gmap string Z) (funname : string)
    (t : Tail) (item : AbiItem) (t' : Tail) :
  matches funname item = true ->
  abi_item args arrlen funname t item = inr t' ->
  t_offset t' = (head_offset (inputs item) + tail_offset args arrlen (inputs item))%nat
  /\ forall j, (4 + t_offset t' <= j)%nat -> t_cd t' !! j = t_cd t !! j.
Proof.
  intros Hm H. unfold abi_item in H. rewrite Hm in H.
  destruct (foldlM head_param _ (inputs item)) as [e | l] eqn:Hhead; [discriminate|].
  cbn [mbind Res_bind] in H.
  apply head_params_inr in Hhead as (Ho & Hl & Ht & Hf & Hh). cbn [offset cd tba] in *.
  rewrite app_nil_l in Ht. rewrite Nat.add_0_l in Ho.
  apply tail_params_inr in H as (O2 & L2 & F2 & T2); cbn [t_offset t_cd] in *.
  2:{ intros [loc q] Hin. rewrite Ht in Hin. apply dyn_locs_bounds in Hin as (_ & Hb & _).
      simpl. lia. }
  2:{ intros pre lp post Hsplit. rewrite Ht in Hsplit. eapply dyn_locs_increasing; eauto. }
  rewrite Ht, dyn_locs_snd in O2. fold (tail_offset args arrlen (inputs item)) in O2.
  split; [lia|].
  intros j Hj. rewrite F2.
  - apply Hf. lia.
  - intros [loc q] Hin. rewrite Ht in Hin. apply dyn_locs_bounds in Hin as (_ & Hhi & _).
    simpl. lia.
  - lia.
Qed.

(** X20. The calldata of a test that has one ABI entry ends
    [head + tails] bytes after the selector, where the head takes 32 bytes
    per parameter (per element for a fixed-size array) and the tail of a
    [bytes] or [string] parameter 32 bytes and its padded size; every byte
    from there up to the end of the 10,000 bytes is still the symbolic byte
    [cd(i)] of its position [i]. *)
Theorem mk_calldata_rest_symbolic (args : Args) (arrlen : gmap string Z)
    (abi : list AbiItem) (funname : string) (funselector : Z) (t : Tail)
    (before after : list AbiItem) (item : AbiItem) :
  mk_calldata args arrlen abi funname funselector = inr t ->
  abi = before ++ item :: after ->
  matches funname item = true ->
  Forall (fun other => matches funname other = false) before ->
  Forall (fun other => matches funname other = false) after ->
  t_offset t = (head_offset (inputs item) + tail_offset args arrlen (inputs item))%nat
  /\ forall j, (4 + t_offset t <= j < Z.to_nat 10000)%nat ->
       t_cd t !! j = Some (Some (App1 "cd" (con (Z.of_nat j)))).
Proof.
  intros H -> Hm Hb Ha. unfold mk_calldata in H.
  rewrite wstore_selector in H. cbn [mbind Res_bind] in H.
  apply foldlM_inr_app in H as (t1 & H1 & H2).
  rewrite abi_items_skip in H1 by exact Hb. injection H1 as <-.
  apply foldlM_inr_cons in H2 as (t2 & H2 & H3).
  rewrite abi_items_skip in H3 by exact Ha. injection H3 as <-.
  apply abi_item_frame in H2 as (O2 & F2); [|exact Hm]. cbn [t_cd t_offset] in *.
  split; [exact O2|].
  intros j Hj. rewrite F2 by lia. rewrite store_bytes_out by lia.
  apply cd_init_lookup. unfold cdsize. lia.
Qed.

(** The witness of X20: [test_f(uint8 a, bytes b)] with the loop bound 2. *)
Lemma mk_calldata_rest_symbolic_witness :
  t_offset Demo.calldata_f = 128%nat
  /\ t_cd Demo.calldata_f !! 132%nat = Some (Some (App1 "cd" (con 132))).
Proof.
  assert (H : mk_calldata Demo.args ∅ Demo.abi_f "test_f" 0x12345678 = inr Demo.calldata_f)
    by (vm_compute; reflexivity).
  destruct (mk_calldata_rest_symbolic _ _ _ _ _ _ [] [] _ H eq_refl eq_refl
              (List.Forall_nil _) (List.Forall_nil _)) as (Ho & Hf).
  assert (Ho' : t_offset Demo.calldata_f = 128%nat) by (rewrite Ho; vm_compute; reflexivity).
  split; [exact Ho'|]. apply (Hf 132%nat). rewrite Ho'. lia.
Defined.

(** X21. When no entry of the ABI is a function of the name of the test,
    the calldata is still built, without error: the four bytes of the
    selector followed by the symbolic bytes [cd(4)], [cd(5)], ... up to
    10,000 bytes, with no bound and no warning to report. *)
Theorem mk_calldata_without_abi_entry (args : Args) (arrlen : gmap string Z)
    (abi : list AbiItem) (funname : string) (funselector : Z) :
  Forall (fun item => matches funname item = false) abi ->
  exists t,
    mk_calldata args arrlen abi funname funselector = inr t
    /\ length (t_cd t) = Z.to_nat 10000
    /\ holds (t_cd t) 0 4 (mkBitVecVal funselector 32)
    /\ (forall j, (4 <= j < Z.to_nat 10000)%nat ->
          t_cd t !! j = Some (Some (App1 "cd" (con (Z.of_nat j)))))
    /\ dyn_param_size t = [] /\ warnings t = [].
Proof.
  intros Hn. eexists. unfold mk_calldata. rewrite wstore_selector.
  cbn [mbind Res_bind]. rewrite abi_items_skip by exact Hn.
  split; [reflexivity|]. cbn [t_cd dyn_param_size warnings].
  split; [rewrite length_store_bytes, length_cd_init; reflexivity|].
  split; [apply store_bytes_holds; rewrite length_cd_init; unfold cdsize; lia|].
  split; [|auto].
  intros j Hj. rewrite store_bytes_out by lia. apply cd_init_lookup.
  unfold cdsize. lia.
Qed.

(** The witness of X21: a test [test_g] that the ABI does not list. *)
Lemma mk_calldata_without_abi_entry_witness :
  exists t,
    mk_calldata Demo.args ∅ Demo.abi_f "test_g" 0x12345678 = inr t
    /\ t_cd t !! 4%nat = Some (Some (App1 "cd" (con 4)))
    /\ dyn_param_size t = [].
Proof.
  destruct (mk_calldata_without_abi_entry Demo.args ∅ Demo.abi_f "test_g" 0x12345678)
    as (t & H1 & _ & _ & H2 & H3 & _).
  - repeat constructor.
  - exists t. split; [exact H1|]. split; [apply (H2 4%nat); lia | exact H3].
Defined.

Lemma tail_param_meta (args : Args) (arrlen : gmap string Z) (t : Tail) (loc : nat)
    (p : Param) (t' : Tail) :
  tail_param args arrlen t (loc, p) = inr t' ->
  dyn_param_size t' = dyn_param_size t ++ [str_bound args arrlen p]
  /\ (debug args = false -> warnings t' = warnings t)
  /\ (is_Some (arrlen !! param_name p) -> warnings t' = warnings t).
Proof.
  unfold tail_param, str_bound, size_of. cbn [fst snd].
  destruct (arrlen !! param_name p) as [n|] eqn:Hn; cbn [default];
    (destruct (String.eqb (param_type p) "bytes" || String.eqb (param_type p) "string");
     [|discriminate]);
    intros H;
    apply res_bind_inr in H as (cd1 & _ & H);
    apply res_bind_inr in H as (cd2 & _ & H);
    (destruct (0 <? size_pad_right_of _);
     [apply res_bind_inr in H as (cd3 & _ & H)|]);
    injection H as <-; cbn [dyn_param_size warnings];
    (split; [reflexivity|]); rewrite ?app_nil_r;
    (split; [|]); try reflexivity; try (intros ->; now rewrite app_nil_r);
    try (intros _; reflexivity); intros [? [=]].
Qed.

Lemma tail_params_meta (args : Args) (arrlen : gmap string Z) (lps : list (nat * Param)) :
  forall (t t' : Tail),
  foldlM (tail_param args arrlen) t lps = inr t' ->
  dyn_param_size t' = dyn_param_size t ++ map (str_bound args arrlen) (map snd lps)
  /\ (debug args = false -> warnings t' = warnings t).
Proof.
  induction lps as [| [loc p] lps IH]; intros t t' H.
  - injection H as <-. simpl. rewrite app_nil_r. auto.
  - apply foldlM_inr_cons in H as (t1 & H1 & H2).
    apply tail_param_meta in H1 as (D1 & W1 & _). apply IH in H2 as (D2 & W2).
    cbn [map snd]. rewrite D2, D1, <- app_assoc. split; [reflexivity|].
    intros Hd. rewrite W2, W1 by exact Hd. reflexivity.
Qed.

(** X22. The bounds that the result line reports for a test with one ABI
    entry are one [|name|=size] for every [bytes] or [string] parameter,
    in the order of declaration, the size being [arrlen[name]] or else the
    loop bound; outside debug mode no warning is printed for a size that
    was not given. *)
Theorem mk_calldata_bounds (args : Args) (arrlen : gmap string Z)
    (abi : list AbiItem) (funname : string) (funselector : Z) (t : Tail)
    (before after : list AbiItem) (item : AbiItem) :
  mk_calldata args arrlen abi funname funselector = inr t ->
  abi = before ++ item :: after ->
  matches funname item = true ->
  Forall (fun other => matches funname other = false) before ->
  Forall (fun other => matches funname other = false) after ->
  dyn_param_size t
    = map (fun p => "|" +:+ param_name p +:+ "|="
                      +:+ pretty (default (a_loop args) (arrlen !! param_name p)))
        (filter (fun p => is_dynamic p = true) (inputs item))
  /\ (debug args = false -> warnings t = []).
Proof.
  intros H -> Hm Hb Ha. unfold mk_calldata in H.
  rewrite wstore_selector in H. cbn [mbind Res_bind] in H.
  apply foldlM_inr_app in H as (t1 & H1 & H2).
  rewrite abi_items_skip in H1 by exact Hb. injection H1 as <-.
  apply foldlM_inr_cons in H2 as (t2 & H2 & H3).
  rewrite abi_items_skip in H3 by exact Ha. injection H3 as <-.
  unfold abi_item in H2. rewrite Hm in H2.
  apply res_bind_inr in H2 as (l & Hhead & Htail).
  apply head_params_inr in Hhead as (_ & _ & Ht & _). cbn [tba offset] in Ht.
  apply tail_params_meta in Htail as (D & W). cbn [dyn_param_size warnings] in *.
  rewrite Ht in D. cbn [app] in D. rewrite dyn_locs_snd in D. split; [exact D | exact W].
Qed.

(** The witness of X22: [test_f(uint8 a, bytes b)] with the loop bound 2. *)
Lemma mk_calldata_bounds_witness :
  dyn_param_size Demo.calldata_f = ["|b|=2"] /\ warnings Demo.calldata_f = [].
Proof.
  assert (H : mk_calldata Demo.args ∅ Demo.abi_f "test_f" 0x12345678 = inr Demo.calldata_f)
    by (vm_compute; reflexivity).
  destruct (mk_calldata_bounds _ _ _ _ _ _ [] [] _ H eq_refl eq_refl
              (List.Forall_nil _) (List.Forall_nil _)) as (Hd & Hw).
  split; [exact Hd | exact (Hw eq_refl)].
Defined.

(** ** The types that the regular expression reads *)

Lemma append_nil_l (s : string) : "" +:+ s = s.
Proof. reflexivity. Qed.

Lemma append_cons (c : Ascii.ascii) (s r : string) : String c s +:+ r = String c (s +:+ r).
Proof. reflexivity. Qed.

(** Brings the characters of a literal in front of an append. *)
Ltac norm_append := rewrite ?append_cons, ?append_nil_l.

Lemma prefix_nil (s : string) : String.prefix "" s = true.
Proof. destruct s; reflexivity. Qed.

Lemma span_digits_app (d : string) :
  digits d = true ->
  forall r, (forall c r', r = String c r' -> is_digit c = false) ->
  span_digits (d +:+ r) = (d, r).
Proof.
  induction d as [| c d IH]; intros Hd r Hr.
  - norm_append. destruct r as [| c r']; [reflexivity|].
    pose proof (Hr c r' eq_refl) as Hc. cbn [span_digits]. rewrite Hc. reflexivity.
  - cbn [digits] in Hd. apply andb_true_iff in Hd as [Hc Hd].
    norm_append. cbn [span_digits]. rewrite Hc, (IH Hd r Hr). reflexivity.
Qed.

Lemma span_digits_all (d : string) : digits d = true -> span_digits d = (d, "").
Proof.
  induction d as [| c d IH]; intros Hd; [reflexivity|].
  cbn [digits] in Hd. apply andb_true_iff in Hd as [Hc Hd].
  cbn [span_digits]. rewrite Hc, (IH Hd). reflexivity.
Qed.

Lemma re_search_match_base (s typ rest : string) :
  match_base s = Some (typ, rest) -> re_search s = Some (typ, match_dim rest).
Proof.
  intros H. destruct s as [| c r]; [discriminate|].
  cbn [re_search]. rewrite H. reflexivity.
Qed.

Lemma match_dim_digits (k : string) :
  digits k = true -> k <> "" -> match_dim ("[" +:+ k +:+ "]") = Some k.
Proof.
  intros Hk Hne. unfold match_dim. norm_append. cbn [String.prefix drop_string].
  destruct (Ascii.ascii_dec _ _) as [_ | N]; [|congruence].
  rewrite prefix_nil.
  rewrite span_digits_app; [|exact Hk | intros c r' [= <- <-]; reflexivity].
  apply String.eqb_neq in Hne. rewrite Hne. reflexivity.
Qed.

Lemma string_eqb_nil (d : string) : d <> "" -> String.eqb d "" = false.
Proof. apply String.eqb_neq. Qed.

(** The base type that the regular expression finds in the name of an
    elementary type, alone or followed by something that is not a
    digit. *)
Lemma match_base_elementary (t : string) :
  elementary t ->
  match_base t = Some (t, "")
  /\ forall r, (forall c r', r = String c r' -> is_digit c = false) ->
       match_base (t +:+ r) = Some (t, r).
Proof.
  intros Ht. split; [|intros r Hr];
    destruct Ht as [d Hd | d Hd | | | d Hd Hne]; unfold match_base; norm_append;
    cbn [String.prefix drop_string];
    repeat (destruct (Ascii.ascii_dec _ _) as [? | ?]; try discriminate; try contradiction);
    rewrite ?prefix_nil;
    rewrite ?(span_digits_all d Hd), ?(span_digits_app d Hd r Hr),
      ?(string_eqb_nil d Hne); reflexivity.
Qed.

Lemma rev_app_last (s : string) :
  forall c acc, exists rest, String.rev_app s (String c acc) = String (last_of c s) rest.
Proof.
  induction s as [| a s IH]; intros c acc; [eexists; reflexivity|].
  cbn [String.rev_app last_of]. apply IH.
Qed.

Lemma endswith_brackets (c : Ascii.ascii) (s : string) :
  last_of c s <> rbracket -> endswith (String c s) "[]" = false.
Proof.
  intros Hl. unfold endswith, String.rev. cbn [String.rev_app].
  destruct (rev_app_last s c "") as [rest ->].
  cbn [String.prefix]. destruct (Ascii.ascii_dec _ _) as [E | _]; [|reflexivity].
  exfalso. apply Hl. rewrite <- E. reflexivity.
Qed.

Lemma last_of_digits (d : string) :
  digits d = true -> forall c, c <> rbracket -> last_of c d <> rbracket.
Proof.
  induction d as [| a d IH]; intros Hd c Hc; [exact Hc|].
  cbn [digits] in Hd. apply andb_true_iff in Hd as [Ha Hd].
  cbn [last_of]. apply (IH Hd). intros ->. discriminate.
Qed.

Lemma elementary_not_array (t : string) :
  elementary t ->
  endswith t "[]" = false /\ String.eqb t "tuple" = false
  /\ String.eqb t "bytes" = false /\ String.eqb t "string" = false.
Proof.
  intros [d Hd | d Hd | | | d Hd Hne]; norm_append.
  - split; [|repeat split; reflexivity].
    apply endswith_brackets. cbn [last_of].
    apply (last_of_digits d Hd). vm_compute. discriminate.
  - split; [|repeat split; reflexivity].
    apply endswith_brackets. cbn [last_of].
    apply (last_of_digits d Hd). vm_compute. discriminate.
  - repeat split; reflexivity.
  - repeat split; reflexivity.
  - split; [|split; [reflexivity | split; [|reflexivity]]].
    + apply endswith_brackets. cbn [last_of].
      apply (last_of_digits d Hd). vm_compute. discriminate.
    + cbn [String.eqb Ascii.eqb Bool.eqb]. destruct d; [contradiction | reflexivity].
Qed.

(** X23. In the name of an elementary type ([uint], [int], [uint<N>],
    [int<N>], [address], [bool], [bytes<N>]) the regular expression of
    [run] finds the whole name and no dimension, and in the name followed
    by [[K]] it finds the name and the dimension [K]. So the head slot of a
    parameter [n] of elementary type [T] is given the symbol [p_n_T], and
    the slots of a parameter of type [T[K]] the symbols [p_n[i]_T] for
    [i] below [K]. *)
Theorem re_search_elementary (t : string) :
  elementary t ->
  re_search t = Some (t, None)
  /\ (forall k, digits k = true -> k <> "" ->
        re_search (t +:+ "[" +:+ k +:+ "]") = Some (t, Some k))
  /\ forall l name,
       head_param l {| param_name := name; param_type := t |}
       = (cd' ← wstore (cd l) (4 + offset l) 32 (BitVec ("p_" +:+ name +:+ "_" +:+ t) 256);
          mret {| cd := cd'; tba := tba l; offset := (offset l + 32)%nat |}).
Proof.
  intros Ht. destruct (match_base_elementary t Ht) as [Hb Hbr].
  assert (H1 : re_search t = Some (t, None)).
  { rewrite (re_search_match_base _ _ _ Hb). reflexivity. }
  split; [exact H1|]. split.
  - intros k Hk Hne. erewrite re_search_match_base.
    + rewrite (match_dim_digits k Hk Hne). reflexivity.
    + apply Hbr. intros c r' [= <- _]. reflexivity.
  - intros l name. unfold head_param. cbn [param_name param_type].
    destruct (elementary_not_array t Ht) as (-> & -> & -> & ->). cbn [orb].
    rewrite H1. reflexivity.
Qed.

(** The witness of X23: [uint256] and [uint256[3]]. *)
Lemma re_search_elementary_witness :
  re_search "uint256" = Some ("uint256", None)
  /\ re_search "uint256[3]" = Some ("uint256", Some "3").
Proof.
  destruct (re_search_elementary "uint256" (el_uint "256" eq_refl)) as (H1 & H2 & _).
  split; [exact H1|]. apply (H2 "3"); [reflexivity | discriminate].
Defined.
